(** * mistlib: a shallow embedding of the media-plumbing core

    The development follows the C++ sources under [lib/]:
    - [dtsc.h]          seek positions and their ordering,
    - [flv_tag.cpp]     the FLV tag engine (timestamps, buffer growth, loaders),
    - [socket.cpp]      the segmented byte buffer [Socket::Buffer],
    - [http_parser.cpp] the HTTP framing parser and its URL codec,
    - [mp4_conv.cpp]    the MP4 header synthesiser (chunk-offset planning).

    Every C++ function is a Rocq function of the same name; statements
    about them come after all definitions. *)

From Stdlib Require Import ZArith Ascii String List Lia.
From stdpp Require Import base option list gmap strings sorting.

Open Scope Z_scope.

(** * Bytes and machine integers *)

(** A [char] is one byte, kept as [ascii] (eight bits).  Whether the plain
    [char] of C++ is signed is fixed by the ABI or by a compiler switch
    ([-funsigned-char]), so every function that promotes a [char] to [int]
    takes the signedness as a parameter: [true] for a signed [char]. *)
Definition uchar (c : ascii) : Z := Z.of_N (N_of_ascii c).

Definition schar (c : ascii) : Z :=
  if uchar c <? 128 then uchar c else uchar c - 256.

Definition char_val (char_signed : bool) (c : ascii) : Z :=
  if char_signed then schar c else uchar c.

(** Conversion of an integer to [char] keeps the low eight bits. *)
Definition to_char (z : Z) : ascii := ascii_of_N (Z.to_N (z mod 256)).

(** [unsigned int], [uint64_t] and [int] of the LP64 targets. *)
Definition u32 (z : Z) : Z := z mod 2 ^ 32.
Definition u64 (z : Z) : Z := z mod 2 ^ 64.
Definition s32 (z : Z) : Z :=
  let m := z mod 2 ^ 32 in if m <? 2 ^ 31 then m else m - 2 ^ 32.

(** A byte string ([std::string], [char *] with a length). *)
Abbreviation bytes := (list ascii).

Definition lit (s : string) : bytes := String.list_ascii_of_string s.

Definition NUL : ascii := Ascii.zero.
Definition LF : ascii := "010"%char.
Definition CR : ascii := "013"%char.

(** [buffer[i]] on a byte array; the C++ read is undefined out of range,
    the model reads [NUL] there. *)
Definition rd (l : bytes) (i : Z) : ascii :=
  if i <? 0 then NUL else nth (Z.to_nat i) l NUL.

(** [buffer[i] = c]; out of range the model leaves the array alone. *)
Definition wr (i : Z) (c : ascii) (l : bytes) : bytes :=
  if i <? 0 then l else <[Z.to_nat i := c]> l.

(** [memcpy(dst + off, src, n)]: the first [n] bytes of [src] overwrite
    [dst] from offset [off]; bytes that would fall outside [dst] are
    dropped by the model (undefined in C++). *)
Fixpoint memcpy_at (off : nat) (src : bytes) (dst : bytes) : bytes :=
  match src with
  | [] => dst
  | c :: src' => memcpy_at (S off) src' (<[off := c]> dst)
  end.

Definition memcpy (dst : bytes) (off : Z) (src : bytes) (n : Z) : bytes :=
  if off <? 0 then dst else memcpy_at (Z.to_nat off) (take (Z.to_nat n) src) dst.

(** * dtsc.h: seek positions *)

Module DTSC.

(** [struct seekPos]: [seekTime] and [bytePos] are [long long unsigned],
    [trackID] is [unsigned int]. *)
Record seekPos := mkSeekPos { seekTime : Z; bytePos : Z; trackID : Z }.

(** [seekPos::operator<], branch for branch. *)
Definition seekPos_lt (a rhs : seekPos) : bool :=
  if seekTime a <? seekTime rhs then true
  else
    if seekTime a =? seekTime rhs then
      if bytePos a <? bytePos rhs then true
      else
        if trackID a <? trackID rhs then true else false
    else false.

(** [struct livePos] and its [operator<], the sibling ordering of the
    live buffer. *)
Record livePos := mkLivePos { l_seekTime : Z; l_trackID : Z }.

Definition livePos_lt (a rhs : livePos) : bool :=
  if l_seekTime a <? l_seekTime rhs then true
  else
    if l_seekTime a =? l_seekTime rhs then
      if l_trackID a <? l_trackID rhs then true else false
    else false.

(** [livePos::operator==] and [livePos::operator!=]. *)
Definition livePos_eq (a rhs : livePos) : bool :=
  (l_seekTime a =? l_seekTime rhs) && (l_trackID a =? l_trackID rhs).

Definition livePos_ne (a rhs : livePos) : bool :=
  negb (l_seekTime a =? l_seekTime rhs) || negb (l_trackID a =? l_trackID rhs).

(** [enum datatype]. *)
Inductive datatype := AUDIO | VIDEO | META | PAUSEMARK | MODIFIEDHEADER | INVALID.

End DTSC.

(** * flv_tag.cpp: the FLV tag engine *)

Module FLV.

(** The process-wide variables [FLV::Header], [FLV::Parse_Error] and
    [FLV::Error_Str]. *)
Record Globals := mkGlobals {
  Header : bytes;
  Parse_Error : bool;
  Error_Str : bytes
}.

Definition initial_Globals : Globals :=
  mkGlobals (lit "FLV" ++ map to_char [1; 5; 0; 0; 0; 9; 0; 0; 0; 0]) false [].

Definition set_Header (h : bytes) (g : Globals) : Globals :=
  mkGlobals h (Parse_Error g) (Error_Str g).

Definition set_error (msg : bytes) (g : Globals) : Globals :=
  mkGlobals (Header g) true msg.

(** [class Tag].  Its declaration ([flv_tag.h]) is not among the sources;
    the fields are the ones the member functions below read and write:
    [len] and [buf] are [int], [sofar] is [unsigned int], [data] is the
    [char *] that [checkBufferSize] obtains from [realloc].  [None] is the
    null pointer, [Some l] a heap block holding the bytes [l]. *)
Record Tag := mkTag {
  len : Z;
  isKeyframe : bool;
  data : option bytes;
  buf : Z;
  done : bool;
  sofar : Z
}.

Definition with_len (v : Z) (t : Tag) : Tag :=
  mkTag v (isKeyframe t) (data t) (buf t) (done t) (sofar t).
Definition with_isKeyframe (v : bool) (t : Tag) : Tag :=
  mkTag (len t) v (data t) (buf t) (done t) (sofar t).
Definition with_data (v : option bytes) (t : Tag) : Tag :=
  mkTag (len t) (isKeyframe t) v (buf t) (done t) (sofar t).
Definition with_buf (v : Z) (t : Tag) : Tag :=
  mkTag (len t) (isKeyframe t) (data t) v (done t) (sofar t).
Definition with_done (v : bool) (t : Tag) : Tag :=
  mkTag (len t) (isKeyframe t) (data t) (buf t) v (sofar t).
Definition with_sofar (v : Z) (t : Tag) : Tag :=
  mkTag (len t) (isKeyframe t) (data t) (buf t) (done t) v.

(** The bytes behind [data] (nothing behind a null pointer). *)
Definition block (t : Tag) : bytes := default [] (data t).

(** [data[i] = c] and [memcpy(data + off, src, n)] on the tag's block. *)
Definition poke (i : Z) (c : ascii) (t : Tag) : Tag :=
  with_data (wr i c <$> data t) t.

Definition copy_in (off : Z) (src : bytes) (n : Z) (t : Tag) : Tag :=
  with_data ((fun d => memcpy d off src n) <$> data t) t.

(** [Tag::Tag()]. *)
Definition empty_Tag : Tag := mkTag 0 false None 0 true 0.

(** A tag of fifteen zero bytes, the buffer a loader allocates first. *)
Definition zero_tag : Tag := mkTag 15 false (Some (replicate 15 NUL)) 15 true 0.

(** An 11-byte tag header with type byte [b], body length [l] (one
    byte), timestamp and stream id zero. *)
Definition tag_header (b l : Z) : bytes :=
  map to_char [b; 0; 0; l; 0; 0; 0; 0; 0; 0; 0].

(** The ownership invariant of the buffer: [buf] is the size of the
    block behind [data]. *)
Definition Tag_wf (t : Tag) : Prop :=
  match data t with
  | Some d => Z.of_nat (length d) = buf t
  | None => buf t = 0
  end.

(** What one call of [realloc] does is the allocator's choice: it fails,
    or it returns a block whose bytes beyond the old contents are
    whatever the heap held ([fresh]). *)
Inductive realloc_result := ReallocFail | ReallocOk (fresh : bytes).

Definition realloc (old : option bytes) (n : Z) (r : realloc_result) : option bytes :=
  match r with
  | ReallocFail => None
  | ReallocOk fresh => Some (resize (Z.to_nat n) NUL (default [] old ++ fresh))
  end.

(** [Tag::checkBufferSize]. *)
Definition checkBufferSize (r : realloc_result) (t : Tag) : bool * Tag :=
  if (buf t <? len t) || negb (bool_decide (is_Some (data t))) then
    match realloc (data t) (len t) r with
    | Some newdata => (true, with_buf (len t) (with_data (Some newdata) t))
    | None => (false, with_len (buf t) t)
    end
  else (true, t).

Section chars.

Variable char_signed : bool.

(** Integral promotion of [data[i]]. *)
Definition at_ (d : bytes) (i : Z) : Z := char_val char_signed (rd d i).

(** [FLV::check_header] and [FLV::is_header]. *)
Definition check_header (header : bytes) : bool :=
  if negb (at_ header 0 =? 70) then false
  else if negb (at_ header 1 =? 76) then false
  else if negb (at_ header 2 =? 86) then false
  else if negb (at_ header 5 =? 0) then false
  else if negb (at_ header 6 =? 0) then false
  else if negb (at_ header 7 =? 0) then false
  else if negb (at_ header 8 =? 9) then false
  else if negb (at_ header 9 =? 0) then false
  else if negb (at_ header 10 =? 0) then false
  else if negb (at_ header 11 =? 0) then false
  else if negb (at_ header 12 =? 0) then false
  else true.

Definition is_header (header : bytes) : bool :=
  if negb (at_ header 0 =? 70) then false
  else if negb (at_ header 1 =? 76) then false
  else if negb (at_ header 2 =? 86) then false
  else true.

(** [Tag::tagTime()], the getter: the sum is formed in [int] and returned
    as [unsigned int]. *)
Definition tagTime (t : Tag) : Z :=
  let d := block t in
  u32 (Z.shiftl (at_ d 4) 16 + Z.shiftl (at_ d 5) 8 + at_ d 6 + Z.shiftl (at_ d 7) 24).

End chars.

Section classifiers.

Variable char_signed : bool.

(** [Tag::needsInitData]: the two nested [switch]es. *)
Definition needsInitData (t : Tag) : bool :=
  let d := block t in
  if at_ char_signed d 0 =? 9 then
    let codec := Z.land (at_ char_signed d 11) 15 in
    if codec =? 2 then true (* H263 requires init data *)
    else if codec =? 7 then true (* AVC requires init data *)
    else false
  else if at_ char_signed d 0 =? 8 then
    let codec := Z.land (at_ char_signed d 11) 240 in
    if codec =? 32 then false
    else if codec =? 160 then true (* AAC requires init data *)
    else if codec =? 224 then false
    else false
  else false.

(** [Tag::isInitData]. *)
Definition isInitData (t : Tag) : bool :=
  let d := block t in
  if at_ char_signed d 0 =? 9 then
    if Z.land (at_ char_signed d 11) 240 =? 80 then true
    else if Z.land (at_ char_signed d 11) 15 =? 7 then
      if at_ char_signed d 12 =? 0 then true else false
    else false
  else if at_ char_signed d 0 =? 8 then
    if (at_ char_signed d 12 =? 0) && (Z.land (at_ char_signed d 11) 240 =? 160)
    then true else false
  else false.

(** [Tag::getVideoCodec] and [Tag::getAudioCodec]. *)
Definition getVideoCodec (t : Tag) : bytes :=
  let c := Z.land (at_ char_signed (block t) 11) 15 in
  if c =? 1 then lit "JPEG"
  else if c =? 2 then lit "H263"
  else if c =? 3 then lit "ScreenVideo1"
  else if c =? 4 then lit "VP6"
  else if c =? 5 then lit "VP6Alpha"
  else if c =? 6 then lit "ScreenVideo2"
  else if c =? 7 then lit "H264"
  else lit "unknown".

Definition getAudioCodec (t : Tag) : bytes :=
  let c := Z.land (at_ char_signed (block t) 11) 240 in
  if c =? 0 then lit "linear PCM PE"
  else if c =? 16 then lit "ADPCM"
  else if c =? 32 then lit "MP3"
  else if c =? 48 then lit "linear PCM LE"
  else if c =? 64 then lit "Nelly16kHz"
  else if c =? 80 then lit "Nelly8kHz"
  else if c =? 96 then lit "Nelly"
  else if c =? 112 then lit "G711A-law"
  else if c =? 128 then lit "G711mu-law"
  else if c =? 144 then lit "reserved"
  else if c =? 160 then lit "AAC"
  else if c =? 176 then lit "Speex"
  else if c =? 224 then lit "MP38kHz"
  else if c =? 240 then lit "DeviceSpecific"
  else lit "unknown".

End classifiers.

(** [Tag::operator=] for [this != &O]; [r] is the allocator's answer
    should [checkBufferSize] call [realloc]. *)
Definition assign (r : realloc_result) (O : Tag) (t : Tag) : Tag :=
  let t := with_len (len O) t in
  let t :=
    if 0 <? len t then
      let '(ok, t) := checkBufferSize r t in
      if ok then copy_in 0 (block O) (len t) t
      else with_len (buf t) t
    else t in
  with_isKeyframe (isKeyframe O) t.

(** [Tag::tagTime(unsigned int T)], the setter. *)
Definition tagTime_set (T : Z) (t : Tag) : Tag :=
  let t := poke 4 (to_char (Z.land (Z.shiftr T 16) 255)) t in
  let t := poke 5 (to_char (Z.land (Z.shiftr T 8) 255)) t in
  let t := poke 6 (to_char (Z.land T 255)) t in
  poke 7 (to_char (Z.land (Z.shiftr T 24) 255)) t.

(** [Tag::setLen]. *)
Definition setLen (t : Tag) : Tag :=
  let len4 := s32 (len t - 4) in
  let i := len t in
  let t := poke (i - 1) (to_char (Z.land len4 255)) t in
  let len4 := Z.shiftr len4 8 in
  let t := poke (i - 2) (to_char (Z.land len4 255)) t in
  let len4 := Z.shiftr len4 8 in
  let t := poke (i - 3) (to_char (Z.land len4 255)) t in
  let len4 := Z.shiftr len4 8 in
  poke (i - 4) (to_char (Z.land len4 255)) t.

(** [Tag::MemReadUntil]: [r] is an [int], the other counters are
    [unsigned int]; [memcpy] takes [r] as a [size_t] (a negative [r] is
    undefined in C++ and copies nothing here).  The result is the return
    value with the updated [buffer], [sofar] and [P]. *)
Definition MemReadUntil (buffer : bytes) (count sofar : Z) (D : bytes) (S P : Z)
  : bool * bytes * Z * Z :=
  if count <=? sofar then (true, buffer, sofar, P)
  else
    let r := if S <? u32 (P + u32 (count - sofar)) then s32 (S - P)
             else s32 (count - sofar) in
    let buffer := memcpy buffer sofar (drop (Z.to_nat P) D) r in
    let P := u32 (P + r) in
    let sofar := u32 (sofar + r) in
    if count <=? sofar then (true, buffer, sofar, P) else (false, buffer, sofar, P).

(** [Tag::FileReadUntil]: the [FILE *] is the list of bytes a
    non-blocking [fread] can deliver now; the result carries what is left
    of it. *)
Definition FileReadUntil (buffer : bytes) (count sofar : Z) (f : bytes) (g : Globals)
  : bool * bytes * Z * bytes * Globals :=
  if count <=? sofar then (true, buffer, sofar, f, g)
  else
    let got := take (Z.to_nat (u32 (count - sofar))) f in
    let r := s32 (Z.of_nat (length got)) in
    let buffer := memcpy buffer sofar got (Z.of_nat (length got)) in
    let f := drop (length got) f in
    if r <? 0 then (false, buffer, sofar, f, set_error (lit "File reading error.") g)
    else
      let sofar := u32 (sofar + r) in
      if count <=? sofar then (true, buffer, sofar, f, g) else (false, buffer, sofar, f, g).

(** [if (len < 15){len = 15;}], the first statement of both loaders. *)
Definition min_len (t : Tag) : Tag := if len t <? 15 then with_len 15 t else t.

Section loaders.

Variable char_signed : bool.

(** "calculate length": [len = data[3] + 15; len += (data[2] << 8);
    len += (data[1] << 16);]. *)
Definition announced_len (t : Tag) : Tag :=
  let t := with_len (s32 (at_ char_signed (block t) 3 + 15)) t in
  let t := with_len (s32 (len t + Z.shiftl (at_ char_signed (block t) 2) 8)) t in
  with_len (s32 (len t + Z.shiftl (at_ char_signed (block t) 1) 16)) t.

(** [Tag::MemLoader(char * D, unsigned int S, unsigned int & P)].  [r1]
    and [r2] are what the allocator answers to the first and to the
    second [checkBufferSize], should they call [realloc].  The result
    holds the return value, the updated [P], the globals and the tag. *)
Definition MemLoader (r1 r2 : realloc_result) (D : bytes) (S P : Z)
  (g : Globals) (t : Tag) : bool * Z * Globals * Tag :=
  let t := min_len t in
  let '(ok, t) := checkBufferSize r1 t in
  if negb ok then (false, P, g, t)
  else if done t then
    (* read a header *)
    let '(got, d, sf, P) := MemReadUntil (block t) 11 (sofar t) D S P in
    let t := with_sofar sf (with_data (Some d) t) in
    if got then
      if is_header char_signed (block t) then
        let '(got, d, sf, P) := MemReadUntil (block t) 13 (sofar t) D S P in
        let t := with_sofar sf (with_data (Some d) t) in
        if got then
          if check_header char_signed (block t) then
            (false, P, set_Header (take 13 (block t)) g, with_sofar 0 t)
          else (false, P, set_error (lit "Invalid header received.") g, t)
        else (false, P, g, t)
      else
        (* a tag header: calculate length and read tag body *)
        let t := announced_len t in
        let '(ok, t) := checkBufferSize r2 t in
        if negb ok then (false, P, g, t)
        else if 18 <? at_ char_signed (block t) 0 then
          let t := poke 0 (to_char (at_ char_signed (block t) 0 + 32)) t in
          let msg := lit "Invalid Tag received (" ++ [rd (block t) 0] ++ lit ")." in
          (false, P, set_error msg g, t)
        else (false, P, g, with_done false t)
    else (false, P, g, t)
  else
    (* read tag body *)
    let '(got, d, sf, P) := MemReadUntil (block t) (u32 (len t)) (sofar t) D S P in
    let t := with_sofar sf (with_data (Some d) t) in
    if got then
      let k := (at_ char_signed (block t) 0 =? 9)
               && (Z.shiftr (Z.land (at_ char_signed (block t) 11) 240) 4 =? 1) in
      (true, P, g, with_sofar 0 (with_done true (with_isKeyframe k t)))
    else (false, P, g, t).

(** [Tag::FileLoader(FILE * f)].  The descriptor flags ([fcntl]) and the
    100 ms sleeps have no effect on the tag and are left out; the result
    holds the return value, the rest of the file, the globals and the
    tag. *)
Definition FileLoader (r1 r2 : realloc_result) (f : bytes)
  (g : Globals) (t : Tag) : bool * bytes * Globals * Tag :=
  let t := min_len t in
  let '(ok, t) := checkBufferSize r1 t in
  if negb ok then (false, f, g, t)
  else if done t then
    (* read a header *)
    let '(got, d, sf, f, g) := FileReadUntil (block t) 11 (sofar t) f g in
    let t := with_sofar sf (with_data (Some d) t) in
    if got then
      if is_header char_signed (block t) then
        let '(got, d, sf, f, g) := FileReadUntil (block t) 13 (sofar t) f g in
        let t := with_sofar sf (with_data (Some d) t) in
        if got then
          if check_header char_signed (block t) then
            (false, f, set_Header (take 13 (block t)) g, with_sofar 0 t)
          else (false, f, set_error (lit "Invalid header received.") g, t)
        else (false, f, g, t)
      else
        (* a tag header: calculate length and read tag body *)
        let t := announced_len t in
        let '(ok, t) := checkBufferSize r2 t in
        if negb ok then (false, f, g, t)
        else if 18 <? at_ char_signed (block t) 0 then
          let t := poke 0 (to_char (at_ char_signed (block t) 0 + 32)) t in
          let msg := lit "Invalid Tag received (" ++ [rd (block t) 0] ++ lit ")." in
          (false, f, set_error msg g, t)
        else (false, f, g, with_done false t)
    else (false, f, g, t)
  else
    (* read tag body *)
    let '(got, d, sf, f, g) := FileReadUntil (block t) (u32 (len t)) (sofar t) f g in
    let t := with_sofar sf (with_data (Some d) t) in
    if got then
      let k := (at_ char_signed (block t) 0 =? 9)
               && (Z.shiftr (Z.land (at_ char_signed (block t) 11) 240) 4 =? 1) in
      (true, f, g, with_sofar 0 (with_done true (with_isKeyframe k t)))
    else (false, f, g, t).

End loaders.

(** [data[i] += k] on a [char]. *)
Definition bump (i k : Z) (t : Tag) : Tag :=
  poke i (to_char (uchar (rd (block t) i) + k)) t.

(** The tail every builder shares in the source: tag type, 24-bit body
    length, zero stream id. *)
Definition put_len24 (v : Z) (t : Tag) : Tag :=
  let t := poke 1 (to_char (Z.land (Z.shiftr v 16) 255)) t in
  let t := poke 2 (to_char (Z.land (Z.shiftr v 8) 255)) t in
  poke 3 (to_char (Z.land v 255)) t.

Definition zero_stream_id (t : Tag) : Tag :=
  poke 10 NUL (poke 9 NUL (poke 8 NUL t)).

(** [RTMPStream::Chunk], as far as [ChunkLoader] reads it. *)
Record Chunk := mkChunk {
  c_len : Z;
  c_data : bytes;
  c_msg_type_id : Z;
  c_timestamp : Z
}.

(** [Tag::ChunkLoader]. *)
Definition ChunkLoader (r : realloc_result) (O : Chunk) (t : Tag) : bool * Tag :=
  let t := with_len (s32 (c_len O + 15)) t in
  let '(ok, t) :=
    if 0 <? len t then
      let '(ok, t) := checkBufferSize r t in
      if negb ok then (false, t)
      else (true, copy_in 11 (c_data O) (c_len O) t)
    else (true, t) in
  if negb ok then (false, t)
  else
    let t := setLen t in
    let t := poke 0 (to_char (c_msg_type_id O)) t in
    let t := poke 3 (to_char (Z.land (c_len O) 255)) t in
    let t := poke 2 (to_char (Z.land (Z.shiftr (c_len O) 8) 255)) t in
    let t := poke 1 (to_char (Z.land (Z.shiftr (c_len O) 16) 255)) t in
    (true, tagTime_set (c_timestamp O) t).

(** What [DTSCLoader] reads from the [DTSC::Stream]: the type and payload
    of the last packet, the members of the packet and of its track, and,
    for a metadata packet, the AMF object as packed by [amfdata.Pack()]
    (the AMF serialiser is an external collaborator). *)
Record PacketView := mkPacketView {
  lastType : DTSC.datatype;
  lastData : bytes;
  track_true : bool;
  track_codec : option bytes;
  track_rate : Z;
  track_size : Z;
  track_channels : Z;
  has_nalu : bool;
  has_keyframe : bool;
  has_interframe : bool;
  has_disposableframe : bool;
  pkt_offset : Z;
  pkt_time : Z;
  meta_str : bytes
}.

Definition codec_is (name : string) (c : option bytes) : bool :=
  bool_decide (c = Some (lit name)).

Definition strlen (s : bytes) : Z := Z.of_nat (length s).

(** The audio format bits of [data[11]], as [DTSCLoader] and
    [DTSCAudioInit] set them. *)
Definition audio_bits (codec : option bytes) (rate size channels : Z) (t : Tag) : Tag :=
  let t := poke 11 NUL t in
  let t := if codec_is "AAC" codec then bump 11 160 t else t in
  let t := if codec_is "MP3" codec then bump 11 32 t else t in
  let datarate := u32 rate in
  let t := if 44100 <=? datarate then bump 11 12 t
           else if 22050 <=? datarate then bump 11 8 t
           else if 11025 <=? datarate then bump 11 4 t
           else t in
  let t := if size =? 16 then bump 11 2 t else t in
  if 1 <? channels then bump 11 1 t else t.

(** A tag body of [L] bytes in a buffer that holds them, with the
    payload [p] right before the last four bytes: what a builder has
    made when it turns to the tag header. *)
Definition body_ready (L : Z) (p : bytes) (t2 : Tag) : Prop :=
  len t2 = L /\ L <= Z.of_nat (length (block t2))
  /\ forall i, 0 <= i < strlen p -> rd (block t2) (L - 4 - strlen p + i) = rd p i.

(** The first [switch] of [Tag::DTSCLoader], which sets [len]. *)
Definition DTSCLoader_len (S : PacketView) (t : Tag) : Tag :=
  match lastType S with
  | DTSC.VIDEO =>
      let t := with_len (s32 (strlen (lastData S) + 16)) t in
      if track_true S && codec_is "H264" (track_codec S)
      then with_len (s32 (len t + 4)) t else t
  | DTSC.AUDIO =>
      let t := with_len (s32 (strlen (lastData S) + 16)) t in
      if track_true S && codec_is "AAC" (track_codec S)
      then with_len (s32 (len t + 1)) t else t
  | DTSC.META => with_len (s32 (strlen (meta_str S) + 15)) t
  | _ => t
  end.

(** [Tag::DTSCLoader]. *)
Definition DTSCLoader (r : realloc_result) (S : PacketView) (t : Tag) : bool * Tag :=
  let t := DTSCLoader_len S t in
  let '(ok, t) :=
    if 0 <? len t then
      let '(ok, t) := checkBufferSize r t in
      if negb ok then (false, t)
      else
        (true,
         match lastType S with
         | DTSC.VIDEO =>
             let t :=
               if u32 (len t) =? strlen (lastData S) + 16
               then copy_in 12 (lastData S) (strlen (lastData S)) t
               else
                 let t := copy_in 16 (lastData S) (strlen (lastData S)) t in
                 let t := poke 12 (to_char (if has_nalu S then 1 else 2)) t in
                 let offset := s32 (pkt_offset S) in
                 let t := poke 13 (to_char (Z.land (Z.shiftr offset 16) 255)) t in
                 let t := poke 14 (to_char (Z.land (Z.shiftr offset 8) 255)) t in
                 poke 15 (to_char (Z.land offset 255)) t in
             let t := poke 11 NUL t in
             let t := if codec_is "H264" (track_codec S) then bump 11 7 t else t in
             let t := if codec_is "H263" (track_codec S) then bump 11 2 t else t in
             let t := if has_keyframe S then bump 11 16 t else t in
             let t := if has_interframe S then bump 11 32 t else t in
             if has_disposableframe S then bump 11 48 t else t
         | DTSC.AUDIO =>
             let t :=
               if u32 (len t) =? strlen (lastData S) + 16
               then copy_in 12 (lastData S) (strlen (lastData S)) t
               else poke 12 (to_char 1) (copy_in 13 (lastData S) (strlen (lastData S)) t) in
             audio_bits (track_codec S) (track_rate S) (track_size S) (track_channels S) t
         | DTSC.META => copy_in 11 (meta_str S) (strlen (meta_str S)) t
         | _ => t
         end)
    else (true, t) in
  if negb ok then (false, t)
  else
    let t := setLen t in
    let t :=
      match lastType S with
      | DTSC.VIDEO => poke 0 (to_char 9) t
      | DTSC.AUDIO => poke 0 (to_char 8) t
      | DTSC.META => poke 0 (to_char 18) t
      | _ => t
      end in
    let t := put_len24 (len t - 15) t in
    let t := zero_stream_id t in
    (true, tagTime_set (u32 (pkt_time S)) t).

(** The head of [Tag::DTSCVideoInit(JSON::Value & video)], which sets
    [len]; [codec] and [init] are the strings of [video["codec"]] and
    [video["init"]]. *)
Definition DTSCVideoInit_len (codec init : bytes) (t : Tag) : Tag :=
  let codec := if bool_decide (codec = lit "?") then lit "H264" else codec in
  if bool_decide (codec = lit "H264")
  then with_len (s32 (strlen init + 20)) t else t.

(** [Tag::DTSCVideoInit(JSON::Value & video)]. *)
Definition DTSCVideoInit (r : realloc_result) (codec init : bytes) (t : Tag) : bool * Tag :=
  let t := DTSCVideoInit_len codec init t in
  let '(ok, t) :=
    if 0 <? len t then
      let '(ok, t) := checkBufferSize r t in
      if negb ok then (false, t)
      else
        let t := copy_in 16 init (len t - 20) t in
        let t := poke 15 NUL (poke 14 NUL (poke 13 NUL (poke 12 NUL t))) in
        (true, poke 11 (to_char 23) t)
    else (true, t) in
  if negb ok then (false, t)
  else
    let t := setLen t in
    let t := poke 0 (to_char 9) t in
    let t := put_len24 (len t - 15) t in
    let t := zero_stream_id t in
    (true, tagTime_set 0 t).

(** The head of [Tag::DTSCAudioInit(JSON::Value & audio)], which sets
    [len]. *)
Definition DTSCAudioInit_len (codec init : bytes) (t : Tag) : Tag :=
  let t := with_len 0 t in
  let codec := if bool_decide (codec = lit "?") then lit "AAC" else codec in
  if bool_decide (codec = lit "AAC")
  then with_len (s32 (strlen init + 17)) t else t.

(** [Tag::DTSCAudioInit(JSON::Value & audio)]. *)
Definition DTSCAudioInit (r : realloc_result) (codec init : bytes)
  (rate size channels : Z) (t : Tag) : bool * Tag :=
  let codec := if bool_decide (codec = lit "?") then lit "AAC" else codec in
  let t := DTSCAudioInit_len codec init t in
  let '(ok, t) :=
    if 0 <? len t then
      let '(ok, t) := checkBufferSize r t in
      if negb ok then (false, t)
      else
        let t := copy_in 13 init (len t - 17) t in
        let t := poke 12 NUL t in
        (true, audio_bits (Some codec) rate size channels t)
    else (true, t) in
  if negb ok then (false, t)
  else
    let t := setLen t in
    let t := poke 0 (to_char 8) t in
    let t := put_len24 (len t - 15) t in
    let t := zero_stream_id t in
    (true, tagTime_set 0 t).

(** [Tag::DTSCMetaInit]: [tmp] is the packed AMF object
    ([amfdata.Pack()]) that the function assembles from the metadata. *)
Definition DTSCMetaInit (r : realloc_result) (tmp : bytes) (t : Tag) : bool * Tag :=
  let t := with_len (s32 (strlen tmp + 15)) t in
  let '(ok, t) :=
    if 0 <? len t then
      let '(ok, t) := checkBufferSize r t in
      if ok then (true, copy_in 11 tmp (len t - 15) t) else (false, t)
    else (true, t) in
  if negb ok then (false, t)
  else
    let t := setLen t in
    let t := poke 0 (to_char 18) t in
    let t := put_len24 (len t - 15) t in
    let t := zero_stream_id t in
    (true, tagTime_set 0 t).

End FLV.

(** * socket.cpp: the segmented byte buffer *)

Module Buffer.

(** [#define BUFFER_BLOCKSIZE 4096]. *)
Definition BUFFER_BLOCKSIZE : nat := 4096.

(** [Socket::Buffer] holds one [std::deque<std::string> data]; the list
    has [data.front()] as its head and [data.back()] as its last
    element, so that [push_front] is [cons]. *)
Abbreviation deque := (list bytes).

Definition is_newline (c : ascii) : bool := bool_decide (c = LF).

(** The inner [while] of [append]: [k] is [j - i] and [rest] the input
    from index [j] on; the result is [j - i] at the exit of the loop. *)
Fixpoint scan (k : nat) (rest : bytes) : nat :=
  match rest with
  | [] => k
  | c :: rest' =>
      if (k <=? BUFFER_BLOCKSIZE)%nat then
        if is_newline c then S k else scan (S k) rest'
      else k
  end.

(** The outer [while] of [append]: [rest] is the input from index [i]
    on.  Every round moves at least one byte, so [length rest] rounds are
    enough ([append_loop_fuel] below). *)
Fixpoint append_loop (fuel : nat) (rest : bytes) (data : deque) : deque :=
  match fuel with
  | O => data
  | S fuel =>
      match rest with
      | [] => data
      | _ :: _ =>
          let k := scan 0 rest in
          if (k =? 0)%nat then data
          else append_loop fuel (drop k rest) (take k rest :: data)
      end
  end.

(** [Buffer::append(const char * newdata, const unsigned int newdatasize)];
    [newdata] is the array of [newdatasize] bytes. *)
Definition append (newdata : bytes) (data : deque) : deque :=
  append_loop (length newdata) newdata data.

(** A sequence of [append] calls, first element first. *)
Definition appends (xs : list bytes) (data : deque) : deque :=
  fold_left (fun d x => append x d) xs data.

(** [Buffer::append(const std::string &)]: the size is passed on as an
    [unsigned int]. *)
Definition append_string (newdata : bytes) (data : deque) : deque :=
  append (take (Z.to_nat (u32 (Z.of_nat (length newdata)))) newdata) data.

(** [Buffer::prepend]. *)
Definition prepend (newdata : bytes) (data : deque) : deque := data ++ [newdata].

(** [pop_back] while the back is empty; the argument is the deque from
    the back ([rev data]). *)
Fixpoint pop_empty_back (rdata : deque) : deque :=
  match rdata with
  | [] => []
  | b :: rest => if bool_decide (b = []) then pop_empty_back rest else rdata
  end.

(** [Buffer::size]: the count, and the deque without its empty back
    blocks. *)
Definition size (data : deque) : Z * deque :=
  let data := rev (pop_empty_back (rev data)) in
  (u32 (Z.of_nat (length data)), data).

(** The loop of [Buffer::bytes] and of [Buffer::available]; [i] is an
    [unsigned int]. *)
Fixpoint bytes_loop (i max : Z) (blocks : deque) : Z :=
  match blocks with
  | [] => i
  | b :: rest =>
      let i := u32 (i + Z.of_nat (length b)) in
      if max <=? i then max else bytes_loop i max rest
  end.

Definition bytes_ (max : Z) (data : deque) : Z := bytes_loop 0 max data.

Fixpoint available_loop (i count : Z) (blocks : deque) : bool :=
  match blocks with
  | [] => false
  | b :: rest =>
      let i := u32 (i + Z.of_nat (length b)) in
      if count <=? i then true else available_loop i count rest
  end.

(** [Buffer::available]. *)
Definition available (count : Z) (data : deque) : bool := available_loop 0 count data.

(** The [for] loop of [Buffer::remove] over [data.rbegin() .. data.rend()]:
    [rblocks] is the deque from the back.  [i + size < count] is compared
    in [size_t]; [i] itself is an [unsigned int]. *)
Fixpoint remove_loop (i count : Z) (ret : bytes) (rblocks : deque) : bytes * deque :=
  match rblocks with
  | [] => (ret, [])
  | b :: rest =>
      if i + Z.of_nat (length b) <? count then
        let '(ret, rest) := remove_loop (u32 (i + Z.of_nat (length b))) count (ret ++ b) rest in
        (ret, [] :: rest)
      else
        let n := Z.to_nat (u32 (count - i)) in
        (ret ++ take n b, drop n b :: rest)
  end.

(** [Buffer::remove(unsigned int count)]: the returned string and the
    deque afterwards. *)
Definition remove (count : Z) (data : deque) : bytes * deque :=
  if negb (available count data) then ([], data)
  else
    let '(ret, rdata) := remove_loop 0 count [] (rev data) in
    (ret, rev rdata).

(** The loop of [Buffer::copy]. *)
Fixpoint copy_loop (i count : Z) (ret : bytes) (rblocks : deque) : bytes :=
  match rblocks with
  | [] => ret
  | b :: rest =>
      if i + Z.of_nat (length b) <? count then
        copy_loop (u32 (i + Z.of_nat (length b))) count (ret ++ b) rest
      else ret ++ take (Z.to_nat (u32 (count - i))) b
  end.

(** [Buffer::copy]. *)
Definition copy (count : Z) (data : deque) : bytes :=
  if negb (available count data) then [] else copy_loop 0 count [] (rev data).

(** [Buffer::get] returns a reference: to the back block, or to the
    function's [static std::string empty], one object shared by every
    buffer of the process.  [get] reads through that reference and
    [set_get] writes through it. *)
Definition get (data : deque) (empty : bytes) : bytes :=
  match rev data with
  | b :: _ => b
  | [] => empty
  end.

Definition set_get (v : bytes) (data : deque) (empty : bytes) : deque * bytes :=
  match rev data with
  | _ :: rest => (rev (v :: rest), empty)
  | [] => (data, v)
  end.

(** The bytes a buffer holds, oldest first, and the number of bytes in a
    list of blocks. *)
Definition contents (data : deque) : bytes := concat (rev data).

Definition total (blocks : deque) : Z := Z.of_nat (length (concat blocks)).

(** A block of between 1 and [BUFFER_BLOCKSIZE + 1] bytes with a newline
    only as its last byte. *)
Definition block_inv (b : bytes) : Prop :=
  (1 <= length b <= S BUFFER_BLOCKSIZE)%nat
  /\ forall j, b !! j = Some LF -> S j = length b.

End Buffer.

(** * std::string operations used by the parser *)

(** [s.find(c)]: the first index of [c], [None] for [npos]. *)
Fixpoint find_char (c : ascii) (s : bytes) : option nat :=
  match s with
  | [] => None
  | x :: s' => if bool_decide (x = c) then Some O else S <$> find_char c s'
  end.

(** [s.find(c, pos)]. *)
Definition find_from (c : ascii) (pos : nat) (s : bytes) : option nat :=
  (fun k => (pos + k)%nat) <$> find_char c (drop pos s).

(** [s.substr(pos, n)], [s.substr(pos)] and [s.erase(pos, n)], for
    [pos <= s.size()] (beyond that C++ throws). *)
Definition substr (pos n : nat) (s : bytes) : bytes := take n (drop pos s).
Definition substr_from (pos : nat) (s : bytes) : bytes := drop pos s.
Definition erase (pos n : nat) (s : bytes) : bytes := take pos s ++ drop (pos + n) s.

(** [s.find_first_not_of(" \t")] and [s.find_last_not_of(" \t")]. *)
Definition is_blank (c : ascii) : bool :=
  bool_decide (c = " "%char) || bool_decide (c = "009"%char).

Fixpoint find_first_not_blank (s : bytes) : option nat :=
  match s with
  | [] => None
  | x :: s' => if is_blank x then S <$> find_first_not_blank s' else Some O
  end.

Definition find_last_not_blank (s : bytes) : option nat :=
  (fun k => (length s - 1 - k)%nat) <$> find_first_not_blank (rev s).

(** [atoi] of the C library on the bytes of a [c_str()]: blanks, an
    optional sign, decimal digits.  The definition gives the value of
    the call for digits whose number fits an [int]; for larger numbers
    C leaves the result of [atoi] undefined, and what the definition
    gives there (the number modulo 2^32) stands for no behaviour of the
    code. *)
Definition is_space (c : ascii) : bool :=
  bool_decide (c = " "%char) || ((9 <=? uchar c) && (uchar c <=? 13)).

Definition is_digit (c : ascii) : bool := (48 <=? uchar c) && (uchar c <=? 57).

Fixpoint atoi_digits (acc : Z) (s : bytes) : Z :=
  match s with
  | [] => acc
  | c :: s' => if is_digit c then atoi_digits (acc * 10 + (uchar c - 48)) s' else acc
  end.

Fixpoint atoi (s : bytes) : Z :=
  match s with
  | [] => 0
  | c :: s' =>
      if is_space c then atoi s'
      else if bool_decide (c = "-"%char) then s32 (- atoi_digits 0 s')
      else if bool_decide (c = "+"%char) then s32 (atoi_digits 0 s')
      else s32 (atoi_digits 0 s)
  end.

(** The conversions [%i] (of an [int]) and [%x] (of an [unsigned int]) of
    the C library's [printf] family: the digits of the value, most
    significant first, without leading zeros. *)
Definition digit_char (d : Z) : ascii := to_char (if d <? 10 then 48 + d else 87 + d).

Fixpoint utoa (base : Z) (fuel : nat) (n : Z) (acc : bytes) : bytes :=
  match fuel with
  | O => acc
  | S fuel =>
      let acc := digit_char (n mod base) :: acc in
      if n / base =? 0 then acc else utoa base fuel (n / base) acc
  end.

Definition printf_i (v : Z) : bytes :=
  if v <? 0 then "-"%char :: utoa 10 10 (- v) [] else utoa 10 10 v [].

Definition printf_x (v : Z) : bytes := utoa 16 8 v [].

(** [a < b] on [std::string]: lexicographic on the bytes as
    [unsigned char], a proper prefix first. *)
Fixpoint string_lt (a b : bytes) : bool :=
  match a, b with
  | _, [] => false
  | [], _ :: _ => true
  | x :: a', y :: b' =>
      if uchar x <? uchar y then true
      else if uchar y <? uchar x then false
      else string_lt a' b'
  end.

(** * http_parser.cpp: the HTTP framing parser *)

Module HTTP.

(** [class Parser]; [builder] and [read_buffer], which only the send
    path uses, are left out.  [length_] is the member [length]. *)
Record Parser := mkParser {
  body : bytes;
  method : bytes;
  url : bytes;
  protocol : bytes;
  length_ : Z;
  headerOnly : bool;
  seenHeaders : bool;
  seenReq : bool;
  getChunks : bool;
  doingChunk : Z;
  headers : gmap bytes bytes;
  vars : gmap bytes bytes
}.

Definition with_body (v : bytes) (p : Parser) : Parser :=
  mkParser v (method p) (url p) (protocol p) (length_ p) (headerOnly p) (seenHeaders p) (seenReq p) (getChunks p) (doingChunk p) (headers p) (vars p).
Definition with_method (v : bytes) (p : Parser) : Parser :=
  mkParser (body p) v (url p) (protocol p) (length_ p) (headerOnly p) (seenHeaders p) (seenReq p) (getChunks p) (doingChunk p) (headers p) (vars p).
Definition with_url (v : bytes) (p : Parser) : Parser :=
  mkParser (body p) (method p) v (protocol p) (length_ p) (headerOnly p) (seenHeaders p) (seenReq p) (getChunks p) (doingChunk p) (headers p) (vars p).
Definition with_protocol (v : bytes) (p : Parser) : Parser :=
  mkParser (body p) (method p) (url p) v (length_ p) (headerOnly p) (seenHeaders p) (seenReq p) (getChunks p) (doingChunk p) (headers p) (vars p).
Definition with_length (v : Z) (p : Parser) : Parser :=
  mkParser (body p) (method p) (url p) (protocol p) v (headerOnly p) (seenHeaders p) (seenReq p) (getChunks p) (doingChunk p) (headers p) (vars p).
Definition with_headerOnly (v : bool) (p : Parser) : Parser :=
  mkParser (body p) (method p) (url p) (protocol p) (length_ p) v (seenHeaders p) (seenReq p) (getChunks p) (doingChunk p) (headers p) (vars p).
Definition with_seenHeaders (v : bool) (p : Parser) : Parser :=
  mkParser (body p) (method p) (url p) (protocol p) (length_ p) (headerOnly p) v (seenReq p) (getChunks p) (doingChunk p) (headers p) (vars p).
Definition with_seenReq (v : bool) (p : Parser) : Parser :=
  mkParser (body p) (method p) (url p) (protocol p) (length_ p) (headerOnly p) (seenHeaders p) v (getChunks p) (doingChunk p) (headers p) (vars p).
Definition with_getChunks (v : bool) (p : Parser) : Parser :=
  mkParser (body p) (method p) (url p) (protocol p) (length_ p) (headerOnly p) (seenHeaders p) (seenReq p) v (doingChunk p) (headers p) (vars p).
Definition with_doingChunk (v : Z) (p : Parser) : Parser :=
  mkParser (body p) (method p) (url p) (protocol p) (length_ p) (headerOnly p) (seenHeaders p) (seenReq p) (getChunks p) v (headers p) (vars p).
Definition with_headers (v : gmap bytes bytes) (p : Parser) : Parser :=
  mkParser (body p) (method p) (url p) (protocol p) (length_ p) (headerOnly p) (seenHeaders p) (seenReq p) (getChunks p) (doingChunk p) v (vars p).
Definition with_vars (v : gmap bytes bytes) (p : Parser) : Parser :=
  mkParser (body p) (method p) (url p) (protocol p) (length_ p) (headerOnly p) (seenHeaders p) (seenReq p) (getChunks p) (doingChunk p) (headers p) v.

(** [Parser::Clean] and the constructor [Parser::Parser]. *)
Definition Clean (p : Parser) : Parser :=
  mkParser [] (lit "GET") (lit "/") (lit "HTTP/1.1") 0 (headerOnly p)
           false false false 0 ∅ ∅.

Definition new_Parser : Parser :=
  Clean (mkParser [] [] [] [] 0 false false false false 0 ∅ ∅).

(** [Parser::Trim]. *)
Definition Trim (s : bytes) : bytes :=
  match find_first_not_blank s, find_last_not_blank s with
  | Some startpos, Some endpos => substr startpos (endpos - startpos + 1) s
  | _, _ => []
  end.

(** [Parser::SetHeader(std::string, std::string)]. *)
Definition SetHeader (i v : bytes) (p : Parser) : Parser :=
  with_headers (<[Trim i := Trim v]> (headers p)) p.

(** [Parser::GetHeader]: [headers[i]] of a [std::map] creates the entry
    when it is missing. *)
Definition GetHeader (i : bytes) (p : Parser) : bytes * Parser :=
  match headers p !! i with
  | Some v => (v, p)
  | None => ([], with_headers (<[i := []]> (headers p)) p)
  end.

(** [Parser::SetVar]. *)
Definition SetVar (i v : bytes) (p : Parser) : Parser :=
  let i := Trim i in
  let v := Trim v in
  if negb (bool_decide (i = [])) then with_vars (<[i := v]> (vars p)) p else p.

Section chars.

Variable char_signed : bool.

(** [Parser::unhex]. *)
Definition unhex (c : ascii) : Z :=
  let c := char_val char_signed c in
  if (48 <=? c) && (c <=? 57) then c - 48
  else if (65 <=? c) && (c <=? 70) then c - 65 + 10
  else c - 97 + 10.

(** [Parser::hex]. *)
Definition hex (dec : ascii) : bytes :=
  let dec := char_val char_signed dec in
  let dig1 := to_char (Z.shiftr (Z.land dec 240) 4) in
  let dig2 := to_char (Z.land dec 15) in
  let dig1 := if char_val char_signed dig1 <=? 9
              then to_char (char_val char_signed dig1 + 48) else dig1 in
  let dig1 := if (10 <=? char_val char_signed dig1) && (char_val char_signed dig1 <=? 15)
              then to_char (char_val char_signed dig1 + 97 - 10) else dig1 in
  let dig2 := if char_val char_signed dig2 <=? 9
              then to_char (char_val char_signed dig2 + 48) else dig2 in
  let dig2 := if (10 <=? char_val char_signed dig2) && (char_val char_signed dig2 <=? 15)
              then to_char (char_val char_signed dig2 + 97 - 10) else dig2 in
  [dig1; dig2].

(** [Parser::urlunescape]: the list is the input from index [i] on; a
    ['%'] takes up to two more bytes, also when fewer are left.  The
    source counts with an [unsigned int i] against [in.length()] and
    adds up to two to [i] in a round: the definition gives the string
    the call returns for an input of fewer than 2^32 - 2 bytes; on a
    longer one the counter can wrap and the loop of the source never
    ends. *)
Fixpoint urlunescape (s : bytes) : bytes :=
  match s with
  | [] => []
  | c :: rest =>
      if bool_decide (c = "%"%char) then
        match rest with
        | [] => [to_char 0]
        | h :: rest' =>
            let tmp := to_char (Z.shiftl (unhex h) 4) in
            match rest' with
            | [] => [tmp]
            | l :: rest'' =>
                to_char (char_val char_signed tmp + unhex l) :: urlunescape rest''
            end
        end
      else if bool_decide (c = "+"%char) then " "%char :: urlunescape rest
      else c :: urlunescape rest
  end.

(** The byte [urlunescape] makes of ['%'] and the two bytes [h], [l]
    after it. *)
Definition decode_pair (h l : ascii) : ascii :=
  to_char (char_val char_signed (to_char (Z.shiftl (unhex h) 4)) + unhex l).

(** The test of [Parser::urlencode] for a byte that is kept as it is. *)
Definition unreserved (x : ascii) : bool :=
  let c := char_val char_signed x in
  ((48 <=? c) && (c <=? 57)) || ((97 <=? c) && (c <=? 122)) || ((65 <=? c) && (c <=? 90))
  || ((c =? 126) || (c =? 33) || (c =? 42) || (c =? 40) || (c =? 41) || (c =? 39)).

(** What the round trip asks of one byte [x]: kept as it is, it is
    neither ['%'] nor ['+']; escaped, its two digits decode to [x]. *)
Definition byte_round_trips (x : ascii) : bool :=
  if unreserved x
  then negb (bool_decide (x = "%"%char)) && negb (bool_decide (x = "+"%char))
  else match hex x with
       | [h; l] => bool_decide (decode_pair h l = x)
       | _ => false
       end.

(** The loop of [Parser::urlencode] over the bytes it visits. *)
Fixpoint urlencode_loop (c : bytes) : bytes :=
  match c with
  | [] => []
  | x :: rest =>
      if unreserved x then x :: urlencode_loop rest
      else "%"%char :: hex x ++ urlencode_loop rest
  end.

(** [Parser::urlencode]: [int max = c.length();
    for (int i = 0; i < max; i++)].  The length is converted to [int]:
    the loop visits the first [max] bytes, and none when [max] is not
    positive. *)
Definition urlencode (c : bytes) : bytes :=
  let max := s32 (Z.of_nat (length c)) in
  urlencode_loop (take (Z.to_nat max) c).

End chars.

(** The result of a C++ run that may leave the defined language: [Undefined]
    when it dereferences an iterator it must not. *)
Inductive outcome (A : Type) : Type :=
| Undefined
| Defined (a : A).
Arguments Undefined {A}.
Arguments Defined {A} a.

(** How one round of a [while] body ends. *)
Inductive flow := Return (b : bool) | Continue.

Section parser.

Variable char_signed : bool.

(** The loop of [Parser::parseVars]; [pos] grows in every round, so
    [S (length data)] rounds are enough.  ([nextpos] is never [npos] at
    the [break] test, which is left out.) *)
Fixpoint parseVars_loop (fuel : nat) (pos : nat) (data : bytes) (p : Parser) : Parser :=
  match fuel with
  | O => p
  | S fuel =>
      if (pos <? length data)%nat then
        let nextpos := default (length data) (find_from "&"%char pos data) in
        let '(varname, varval) :=
          match find_from "="%char pos data with
          | Some eq_pos =>
              if (eq_pos <? nextpos)%nat
              then (substr pos (eq_pos - pos) data,
                    substr (eq_pos + 1) (nextpos - eq_pos - 1) data)
              else (substr pos (nextpos - pos) data, [])
          | None => (substr pos (nextpos - pos) data, [])
          end in
        let p := SetVar (urlunescape char_signed varname)
                        (urlunescape char_signed varval) p in
        parseVars_loop fuel (nextpos + 1) data p
      else p
  end.

(** [Parser::parseVars]. *)
Definition parseVars (data : bytes) (p : Parser) : Parser :=
  parseVars_loop (S (length data)) 0 data p.

(** [while (tmpA.find('\r') != npos) tmpA.erase(tmpA.find('\r'));]:
    [erase(pos)] cuts the string at the first carriage return, after
    which none is left ([strip_cr_done] below), so the body runs at most
    once. *)
Definition strip_cr (tmpA : bytes) : bytes :=
  match find_char CR tmpA with
  | Some k => take k tmpA
  | None => tmpA
  end.

(** The request or response line: the three tokens of [tmpA]. *)
Definition parse_first_line (tmpA : bytes) (p : Parser) : Parser :=
  let p := with_seenReq true p in
  match find_char " "%char tmpA with
  | Some f =>
      if bool_decide (substr 0 4 tmpA = lit "HTTP") then
        let p := with_protocol (substr 0 f tmpA) p in
        let tmpA := erase 0 (f + 1) tmpA in
        match find_char " "%char tmpA with
        | Some f =>
            let p := with_url (substr 0 f tmpA) p in
            let tmpA := erase 0 (f + 1) tmpA in
            let p := with_method tmpA p in
            match find_char "?"%char (url p) with
            | Some q => parseVars (substr_from (q + 1) (url p)) p
            | None => p
            end
        | None => with_seenReq false p
        end
      else
        let p := with_method (substr 0 f tmpA) p in
        let tmpA := erase 0 (f + 1) tmpA in
        match find_char " "%char tmpA with
        | Some f =>
            let p := with_url (substr 0 f tmpA) p in
            let tmpA := erase 0 (f + 1) tmpA in
            let p := with_protocol tmpA p in
            match find_char "?"%char (url p) with
            | Some q => parseVars (substr_from (q + 1) (url p)) p
            | None => p
            end
        | None => with_seenReq false p
        end
  | None => with_seenReq false p
  end.

(** The empty line that ends the headers.  [body.reserve(length)]
    changes the capacity of [body] only and is left out: the strings of
    this model have no capacity, and no allocation fails (the source
    handles no [std::bad_alloc] anywhere). *)
Definition parse_end_of_headers (p : Parser) : Parser :=
  let p := with_seenHeaders true p in
  let p := with_body [] p in
  let '(cl, p) := GetHeader (lit "Content-Length") p in
  let p :=
    if negb (bool_decide (cl = [])) then
      let '(cl, p) := GetHeader (lit "Content-Length") p in
      with_length (u32 (atoi cl)) p
    else p in
  let '(te, p) := GetHeader (lit "Transfer-Encoding") p in
  if bool_decide (te = lit "chunked")
  then with_doingChunk 0 (with_getChunks true p)
  else p.

(** The [if (!seenHeaders)] block of the loop body: [Some fl] when it
    leaves the round ([return] or [continue]), [None] when control falls
    through to the [if (seenHeaders)] block. *)
Definition parse_head (p : Parser) (HTTPbuffer : bytes) : option flow * Parser * bytes :=
  match find_char LF HTTPbuffer with
  | None => (Some (Return false), p, HTTPbuffer)
  | Some f =>
      let tmpA := substr 0 f HTTPbuffer in
      let HTTPbuffer :=
        if (f + 1 =? length HTTPbuffer)%nat then [] else erase 0 (f + 1) HTTPbuffer in
      let tmpA := strip_cr tmpA in
      if negb (seenReq p) then (None, parse_first_line tmpA p, HTTPbuffer)
      else if (length tmpA =? 0)%nat then (None, parse_end_of_headers p, HTTPbuffer)
      else
        match find_char ":"%char tmpA with
        | None => (Some Continue, p, HTTPbuffer)
        | Some f =>
            let tmpB := substr 0 f tmpA in
            let tmpC := substr_from (f + 1) tmpA in
            (None, SetHeader tmpB tmpC p, HTTPbuffer)
        end
  end.

(** The [if (seenHeaders)] block, entered with [seenHeaders] set: every
    path returns. *)
Definition parse_body (p : Parser) (HTTPbuffer : bytes) : bool * Parser * bytes :=
  if 0 <? length_ p then
    if headerOnly p then (true, p, HTTPbuffer)
    else
      let toappend := u32 (length_ p - Z.of_nat (length (body p))) in
      let '(p, HTTPbuffer) :=
        if 0 <? toappend
        then (with_body (body p ++ take (Z.to_nat toappend) HTTPbuffer) p,
              erase 0 (Z.to_nat toappend) HTTPbuffer)
        else (p, HTTPbuffer) in
      if length_ p =? Z.of_nat (length (body p))
      then (true, parseVars (body p) p, HTTPbuffer)
      else (false, p, HTTPbuffer)
  else if getChunks p then
    if headerOnly p then (true, p, HTTPbuffer)
    else if negb (doingChunk p =? 0) then
      let toappend := u32 (Z.of_nat (length HTTPbuffer)) in
      let toappend := if doingChunk p <? toappend then doingChunk p else toappend in
      let p := with_body (body p ++ take (Z.to_nat toappend) HTTPbuffer) p in
      let HTTPbuffer := erase 0 (Z.to_nat toappend) HTTPbuffer in
      (false, with_doingChunk (u32 (doingChunk p - toappend)) p, HTTPbuffer)
    else
      match find_char LF HTTPbuffer with
      | None => (false, p, HTTPbuffer)
      | Some f =>
          let tmpA := strip_cr (substr 0 f HTTPbuffer) in
          let chunkLen :=
            fold_left (fun chunkLen c =>
                         u32 (Z.lor (Z.shiftl chunkLen 4) (unhex char_signed c)))
                      tmpA 0 in
          if negb (bool_decide (tmpA = [])) && (chunkLen =? 0)
          then (true, with_getChunks false p, HTTPbuffer)
          else
            let p := if negb (bool_decide (tmpA = []))
                     then with_doingChunk chunkLen p else p in
            let HTTPbuffer :=
              if (f + 1 =? length HTTPbuffer)%nat then []
              else erase 0 (f + 1) HTTPbuffer in
            (false, p, HTTPbuffer)
      end
  else (true, p, HTTPbuffer).

(** One round of the [while ( !HTTPbuffer.empty())] loop of
    [Parser::parse]. *)
Definition parse_round (p : Parser) (HTTPbuffer : bytes) : flow * Parser * bytes :=
  let '(fl, p, HTTPbuffer) :=
    if negb (seenHeaders p) then parse_head p HTTPbuffer else (None, p, HTTPbuffer) in
  match fl with
  | Some fl => (fl, p, HTTPbuffer)
  | None =>
      if seenHeaders p then
        let '(b, p, HTTPbuffer) := parse_body p HTTPbuffer in
        (Return b, p, HTTPbuffer)
      else (Continue, p, HTTPbuffer)
  end.

(** The loop of [Parser::parse]; [None] when the fuel runs out, which
    [S (length HTTPbuffer)] rounds never do ([parse_is_Some] below). *)
Fixpoint parse_loop (fuel : nat) (p : Parser) (HTTPbuffer : bytes)
  : option (bool * Parser * bytes) :=
  match fuel with
  | O => None
  | S fuel =>
      if bool_decide (HTTPbuffer = []) then Some (false, p, HTTPbuffer)
      else
        match parse_round p HTTPbuffer with
        | (Return b, p, HTTPbuffer) => Some (b, p, HTTPbuffer)
        | (Continue, p, HTTPbuffer) => parse_loop fuel p HTTPbuffer
        end
  end.

(** [Parser::parse(std::string & HTTPbuffer)] and
    [Parser::Read(std::string & strbuf)]: the return value, the parser
    and the buffer afterwards. *)
Definition parse (p : Parser) (HTTPbuffer : bytes) : option (bool * Parser * bytes) :=
  parse_loop (S (length HTTPbuffer)) p HTTPbuffer.

Definition Read (p : Parser) (strbuf : bytes) : option (bool * Parser * bytes) :=
  parse p strbuf.

(** [*(s.rbegin())]: the last byte; undefined on the empty string. *)
Definition rbegin_deref (s : bytes) : outcome ascii :=
  match rev s with
  | c :: _ => Defined c
  | [] => Undefined
  end.

(** The loop of [Parser::Read(Socket::Connection & conn)] on the
    receive buffer [data] of the connection and the shared string
    [empty] of [Buffer::get]; every round but the last takes a block off
    the deque, so [S (length data)] rounds are enough
    ([Read_conn_loop_defined] below). *)
Fixpoint Read_conn_loop (fuel : nat) (p : Parser) (data : Buffer.deque) (empty : bytes)
  : option (outcome (bool * Parser * Buffer.deque * bytes)) :=
  match fuel with
  | O => None
  | S fuel =>
      match rbegin_deref (Buffer.get data empty) with
      | Undefined => Some Undefined
      | Defined c =>
          if negb (bool_decide (c = LF)) then
            let '(n, data) := Buffer.size data in
            if 1 <? n then
              (* make a copy of the first part *)
              let tmp := Buffer.get data empty in
              (* clear the first part, wiping it from the partlist *)
              let '(data, empty) := Buffer.set_get [] data empty in
              let '(_, data) := Buffer.size data in
              (* insert the stored part in front of the now first part *)
              let '(data, empty) :=
                Buffer.set_get (tmp ++ Buffer.get data empty) data empty in
              Read_conn_loop fuel p data empty
            else Some (Defined (false, p, data, empty))
          else
            match parse p (Buffer.get data empty) with
            | Some (b, p, s) =>
                let '(data, empty) := Buffer.set_get s data empty in
                Some (Defined (b, p, data, empty))
            | None => None
            end
      end
  end.

(** [Parser::Read(Socket::Connection & conn)]. *)
Definition Read_conn (p : Parser) (data : Buffer.deque) (empty : bytes)
  : option (outcome (bool * Parser * Buffer.deque * bytes)) :=
  Read_conn_loop (S (length data)) p data empty.

(** Calling [Read] again and again on what is left of the buffer, at
    most [n] times, until it returns true: the number of calls made, the
    parser and the buffer at that point. *)
Fixpoint Read_until (n : nat) (p : Parser) (strbuf : bytes)
  : option (nat * Parser * bytes) :=
  match n with
  | O => None
  | S n =>
      match Read p strbuf with
      | Some (true, p, strbuf) => Some (1%nat, p, strbuf)
      | Some (false, p, strbuf) =>
          match Read_until n p strbuf with
          | Some (k, p, strbuf) => Some (S k, p, strbuf)
          | None => None
          end
      | None => None
      end
  end.

End parser.

(** The chunked response of the end-to-end scenario. *)
Definition CRLF : bytes := [CR; LF].

Definition chunked_response : bytes :=
  lit "HTTP/1.1 200 OK" ++ CRLF ++ lit "Transfer-Encoding: chunked" ++ CRLF ++ CRLF
  ++ lit "5" ++ CRLF ++ lit "hello" ++ CRLF ++ lit "0" ++ CRLF ++ CRLF.

(** [Parser::getUrl]. *)
Definition getUrl (p : Parser) : bytes :=
  match find_char "?"%char (url p) with
  | Some q => substr 0 q (url p)
  | None => url p
  end.

(** [Parser::SetHeader(std::string, int)]: the name is trimmed, the value
    is what [sprintf] prints. *)
Definition SetHeader_int (i : bytes) (v : Z) (p : Parser) : Parser :=
  with_headers (<[Trim i := printf_i v]> (headers p)) p.

(** [Parser::SetBody(std::string)]: [s.length()] is passed as an [int]. *)
Definition SetBody (s : bytes) (p : Parser) : Parser :=
  SetHeader_int (lit "Content-Length") (s32 (Z.of_nat (length s))) (with_body s p).

(** The iteration of a [std::map<std::string, std::string>] from
    [begin()] to [end()]: the entries in ascending order of their keys. *)
Definition key_le (a b : bytes * bytes) : Prop := string_lt (fst b) (fst a) = false.

Definition entries (m : gmap bytes bytes) : list (bytes * bytes) :=
  @merge_sort _ key_le (fun a b => bool_eq_dec _ _) (map_to_list m).

(** [if (protocol.size() < 5 || protocol.substr(0, 4) != "HTTP")
    protocol = "HTTP/1.0";], the first statement of the four builders. *)
Definition fix_protocol (p : Parser) : Parser :=
  if (length (protocol p) <? 5)%nat
     || negb (bool_decide (substr 0 4 (protocol p) = lit "HTTP"))
  then with_protocol (lit "HTTP/1.0") p else p.

(** The header line of one map entry. *)
Definition header_line (it : bytes * bytes) : bytes :=
  fst it ++ lit ": " ++ snd it ++ CRLF.

(** The tests on an entry in the loops of the request and of the
    response builders. *)
Definition in_request (it : bytes * bytes) : bool :=
  negb (bool_decide (fst it = [])) && negb (bool_decide (snd it = [])).

Definition in_response (it : bytes * bytes) : bool :=
  in_request it
  && (negb (bool_decide (fst it = lit "Content-Length"))
      || negb (bool_decide (snd it = lit "0"))).

(** [Parser::BuildRequest]: the string built, and the parser with its
    protocol as the function leaves it. *)
Definition BuildRequest (p : Parser) : bytes * Parser :=
  let p := fix_protocol p in
  let builder := method p ++ lit " " ++ url p ++ lit " " ++ protocol p ++ CRLF in
  let builder :=
    fold_left (fun builder it => if in_request it then builder ++ header_line it else builder)
              (entries (headers p)) builder in
  (builder ++ (CRLF ++ body p), p).

(** [Parser::BuildResponse]. *)
Definition BuildResponse (code message : bytes) (p : Parser) : bytes * Parser :=
  let p := fix_protocol p in
  let builder := protocol p ++ lit " " ++ code ++ lit " " ++ message ++ CRLF in
  let builder :=
    fold_left (fun builder it => if in_response it then builder ++ header_line it else builder)
              (entries (headers p)) builder in
  ((builder ++ CRLF) ++ body p, p).

(** [Parser::SendRequest] and [Parser::SendResponse]: the connection is
    the list of the byte strings handed to [conn.SendNow], in order. *)
Definition SendRequest (p : Parser) (conn : list bytes) : list bytes * Parser :=
  let p := fix_protocol p in
  let conn := conn ++ [method p ++ lit " " ++ url p ++ lit " " ++ protocol p ++ CRLF] in
  let conn :=
    fold_left (fun conn it => if in_request it then conn ++ [header_line it] else conn)
              (entries (headers p)) conn in
  (conn ++ [CRLF] ++ [body p], p).

Definition SendResponse (code message : bytes) (p : Parser) (conn : list bytes)
  : list bytes * Parser :=
  let p := fix_protocol p in
  let conn := conn ++ [protocol p ++ lit " " ++ code ++ lit " " ++ message ++ CRLF] in
  let conn :=
    fold_left (fun conn it => if in_response it then conn ++ [header_line it] else conn)
              (entries (headers p)) conn in
  (conn ++ [CRLF] ++ [body p], p).

(** [Parser::StartResponse(code, message, request, conn)]. *)
Definition StartResponse (code message : bytes) (request : Parser) (p : Parser)
  (conn : list bytes) : list bytes * Parser :=
  let p := with_protocol (protocol request) p in
  let p := with_body [] p in
  let p :=
    if bool_decide (protocol p = lit "HTTP/1.1")
    then SetHeader (lit "Transfer-Encoding") (lit "chunked") p
    else SetBody [] p in
  SendResponse code message p conn.

(** [snprintf(len, 10, "%x\r\n", size)] on [char len[10]]: the bytes of
    the array that the call writes (at most nine characters and the
    terminator) and its return value, the length of the whole text. *)
Definition snprintf_len (size : Z) : bytes * Z :=
  let text := printf_x size ++ CRLF in
  (take 9 text ++ [NUL], Z.of_nat (length text)).

(** [Parser::Chunkify(const char * data, unsigned int size, conn)]: the
    connection afterwards and whether it was closed. *)
Definition Chunkify (data : bytes) (size : Z) (p : Parser) (conn : list bytes)
  : list bytes * bool :=
  if bool_decide (protocol p = lit "HTTP/1.1") then
    let '(len, sizelen) := snprintf_len size in
    (* prepend the chunk size and \r\n, send the chunk itself, append \r\n *)
    let conn := conn ++ [take (Z.to_nat sizelen) len] in
    let conn := conn ++ [take (Z.to_nat size) data] in
    let conn := conn ++ [CRLF] in
    (if size =? 0 then conn ++ [CRLF] else conn, false)
  else
    (conn ++ [take (Z.to_nat size) data], size =? 0).

(** [Parser::Chunkify(std::string & bodypart, conn)]. *)
Definition Chunkify_string (bodypart : bytes) (p : Parser) (conn : list bytes)
  : list bytes * bool :=
  Chunkify bodypart (u32 (Z.of_nat (length bodypart))) p conn.

(** What the parser asks of the three tokens of a request line to read
    them back as they were written: no space in the method and in the
    URL, no line end in any of them, and a method that does not begin
    like a protocol. *)
Definition request_line_ok (m u pr : bytes) : Prop :=
  find_char " "%char m = None /\ find_char CR m = None /\ find_char LF m = None
  /\ take 4 m <> lit "HTTP"
  /\ find_char " "%char u = None /\ find_char CR u = None /\ find_char LF u = None
  /\ find_char CR pr = None /\ find_char LF pr = None.

(** What it asks of a header: a name without colon, name and value
    without line end and without blanks around them. *)
Definition header_ok (k v : bytes) : Prop :=
  Trim k = k /\ Trim v = v
  /\ find_char ":"%char k = None
  /\ find_char CR k = None /\ find_char LF k = None
  /\ find_char CR v = None /\ find_char LF v = None.

End HTTP.

(** * mp4_conv.cpp: the MP4 header synthesiser *)

Module MP4.

(** The metadata [DTSCMeta2MP4Header] walks: [metaData["tracks"]] is a
    JSON object, iterated in the order of its member names; a track has
    a ["trackid"] and an array of ["keys"]; of a key the function reads
    ["size"], ["time"], ["len"], ["parts"] (the encoded part sizes) and
    ["partsize"]. *)
Record Key := mkKey {
  k_size : Z;
  k_time : Z;
  k_len : Z;
  k_parts : bytes;
  k_partsize : Z
}.

Record Track := mkTrack {
  t_name : bytes;
  t_trackid : Z;
  t_keys : list Key
}.

(** Modelled from the spec: [struct keyPart] is declared in [mp4.h],
    which is not part of the sources; its members are the ones the
    function assigns (the spec's KeyPart record). *)
Record keyPart := mkKeyPart {
  trackID : Z;
  size : Z;
  time : Z;
  len : Z;
  parts : bytes;
  partsize : Z
}.

(** Modelled from the spec: the box classes of [mp4.h] are not part of
    the sources.  An [stco] box is the list of its 64-bit chunk offsets
    (version 1); [setChunkOffset(v, no)] writes entry [no], growing the
    table with zero entries when [no] is past its end. *)
Definition setChunkOffset (newChunkOffset : Z) (no : Z) (box : list Z) : list Z :=
  let n := Z.to_nat no in
  if (n <? length box)%nat then <[n := u64 newChunkOffset]> box
  else box ++ replicate (n - length box) 0 ++ [u64 newChunkOffset].

Definition getChunkOffset (no : Z) (box : list Z) : Z :=
  nth (Z.to_nat no) box 0.

Definition sum_list (l : list Z) : Z := fold_right Z.add 0 l.

(** The total size of a run of parts, and the number of parts of track
    [t] in it: the part at position [p] of the interleave order [l] is
    part number [count_track t (take p l)] of its track. *)
Definition part_sizes (l : list (Z * Z)) : Z := sum_list (map snd l).

Definition count_track (t : Z) (l : list (Z * Z)) : nat :=
  length (filter (fun e => fst e = t) l).

(** The chunk offsets of track [t] in the words of the spec: walk the
    parts in interleave order with a running byte cursor; a part of [t]
    gets the cursor as its entry, every part advances it by its size. *)
Fixpoint spec_offsets (t : Z) (cursor : Z) (l : list (Z * Z)) : list Z :=
  match l with
  | [] => []
  | (tid, sz) :: l' =>
      (if tid =? t then [u64 cursor] else []) ++ spec_offsets t (cursor + sz) l'
  end.

Section converter.

(** [keyPart::operator<], the ordering of the [std::set<keyPart>]
    ([mp4.h]), and [JSON::decodeVector] ([json.h]), which decodes the
    part sizes of a key, are taken as they come. *)
Variable keyPart_lt : keyPart -> keyPart -> bool.
Variable decodeVector : bytes -> list Z.

(** [ftypBox.boxedSize()], and [moovBox.boxedSize()] for the boxes built
    from the metadata. *)
Variable ftyp_boxedSize : Z.
Variable moov_boxedSize : list Track -> Z.

(** [keyParts.insert(temp)] on the [std::set]: the set is the list of its
    elements in iteration order; an element equivalent to one already
    there is not inserted. *)
Fixpoint set_insert (temp : keyPart) (s : list keyPart) : list keyPart :=
  match s with
  | [] => [temp]
  | y :: s' =>
      if keyPart_lt temp y then temp :: s
      else if keyPart_lt y temp then y :: set_insert temp s'
      else s
  end.

(** "putting all metadata in a huge vector 'keyParts'". *)
Definition insert_key (tr : Track) (kps : list keyPart) (k : Key) : list keyPart :=
  if 0 <? k_size k then
    set_insert (mkKeyPart (t_trackid tr) (k_size k) (k_time k) (k_len k)
                          (k_parts k) (k_partsize k)) kps
  else kps.

Definition collect_keyParts (tracks : list Track) : list keyPart :=
  fold_left (fun kps tr => fold_left (insert_key tr) (t_keys tr) kps) tracks [].

(** The state of the [stco] pass of one track: the box, [total]
    ([uint32_t]) and [totalByteOffset] ([uint64_t]). *)
Record stco_state := mkStco {
  stcoBox : list Z;
  total : Z;
  totalByteOffset : Z
}.

(** "add all parts to STCO". *)
Definition add_part (st : stco_state) (part : Z) : stco_state :=
  mkStco (setChunkOffset (totalByteOffset st) (total st) (stcoBox st))
         (u32 (total st + 1))
         (u64 (totalByteOffset st + part)).

(** The body of the loop over [keyParts] for the track [trackid]. *)
Definition stco_step (trackid : Z) (st : stco_state) (i : keyPart) : stco_state :=
  if trackID i =? trackid then fold_left add_part (decodeVector (parts i)) st
  else mkStco (stcoBox st) (total st) (u64 (totalByteOffset st + size i)).

Definition stco_pass (trackid : Z) (keyParts : list keyPart) : stco_state :=
  fold_left (stco_step trackid) keyParts (mkStco [] 0 0).

(** "update all STCO": every entry of a track's box gets [byteOffset]
    added. *)
Definition patch (byteOffset : Z) (box : list Z) : list Z :=
  fold_left (fun box j => setChunkOffset (getChunkOffset j box + byteOffset) j box)
            (map Z.of_nat (seq 0 (length box))) box.

(** [DTSC2MP4Converter::DTSCMeta2MP4Header], as far as the chunk offsets
    go: the [keyParts] set, the final [stco] table of every track (in
    the order of the tracks) and [mdatSize].  The serialisation of the
    boxes into the header string belongs to the box classes. *)
Record header_plan := mkPlan {
  keyParts : list keyPart;
  stco : list (list Z);
  mdatSize : Z
}.

Definition DTSCMeta2MP4Header (tracks : list Track) : header_plan :=
  let keyParts := collect_keyParts tracks in
  let passes := map (fun tr => stco_pass (t_trackid tr) keyParts) tracks in
  let mdatSize := fold_left (fun _ st => totalByteOffset st) passes 0 in
  let byteOffset := u64 (ftyp_boxedSize + moov_boxedSize tracks + 8) in
  mkPlan keyParts (map (fun st => patch byteOffset (stcoBox st)) passes) mdatSize.

(** The interleave order of the media parts: every part of every key
    part, in the order of the set, with its track and its size. *)
Definition interleave (kps : list keyPart) : list (Z * Z) :=
  flat_map (fun kp => map (fun sz => (trackID kp, sz)) (decodeVector (parts kp))) kps.

(** A fixed stream is well formed when the ["size"] of every key is the
    sum of its decoded part sizes; [keyPart_wf] says the same of an
    element of the set. *)

Definition keyPart_wf (kp : keyPart) : Prop :=
  size kp = sum_list (decodeVector (parts kp)).

Definition well_formed (tracks : list Track) : Prop :=
  Forall (fun tr => Forall (fun k => k_size k = sum_list (decodeVector (k_parts k)))
                           (t_keys tr)) tracks.

(** The sizes a run needs to stay inside the machine integers of the
    function: a non-negative header size, unsigned part sizes, a last
    byte below 2^64 and fewer than 2^32 parts. *)
Definition representable (tracks : list Track) : Prop :=
  let parts := interleave (collect_keyParts tracks) in
  0 <= ftyp_boxedSize + moov_boxedSize tracks + 8
  /\ Forall (fun e => 0 <= snd e) parts
  /\ ftyp_boxedSize + moov_boxedSize tracks + 8 + part_sizes parts < 2 ^ 64
  /\ Z.of_nat (length parts) < 2 ^ 32.

End converter.

(** The last eight bytes of the header, [(char)((mdatSize >> 24) & 0xFF)]
    to [(char)(mdatSize & 0xFF)] and ["mdat"]: the head of the box that
    the media data fills. *)
Definition mdat_header (mdatSize : Z) : bytes :=
  [ to_char (Z.land (Z.shiftr mdatSize 24) 255);
    to_char (Z.land (Z.shiftr mdatSize 16) 255);
    to_char (Z.land (Z.shiftr mdatSize 8) 255);
    to_char (Z.land mdatSize 255) ] ++ lit "mdat".

(** A media packet as [parseDTSC] reads it: [mediaPart["trackid"].asInt()]
    and [mediaPart["data"].asString()]. *)
Record MediaPart := mkMediaPart {
  m_trackid : Z;
  m_data : bytes
}.

(** The converter between two calls of [parseDTSC]: the members
    [keyParts], [trackBuffer] and [stringBuffer] (declared in [mp4.h];
    modelled from their use: a map from track id to a deque of packets,
    and a string) and the two static locals of the function.  [curKey]
    is the position of the iterator in the set; the length of the set
    is [keyParts.end()]. *)
Record Converter := mkConverter {
  c_keyParts : list keyPart;
  curKey : nat;
  curPart : Z;
  trackBuffer : gmap Z (list MediaPart);
  stringBuffer : bytes
}.

(** The converter when [parseDTSC] is first called:
    [curKey = keyParts.begin()], [curPart = 0]. *)
Definition first_call (kps : list keyPart) : Converter := mkConverter kps 0 0 ∅ [].

(** [trackBuffer[t]] of the [std::map] creates an empty deque when the
    track has none. *)
Definition touch (t : Z) (tb : gmap Z (list MediaPart)) : gmap Z (list MediaPart) :=
  match tb !! t with
  | Some _ => tb
  | None => <[t := []]> tb
  end.

(** [curPart++; if (curPart >= curKey->partsize){ curPart = 0; curKey++; }]
    with [curKey] at the key part [kp]; [curPart] is a
    [long long unsigned int], and the comparison converts [partsize] to
    that type: a negative [partsize] counts as 2^64 minus its amount. *)
Definition next_part (kp : keyPart) (c : Converter) : Converter :=
  let curPart := u64 (curPart c + 1) in
  if u64 (partsize kp) <=? curPart
  then mkConverter (c_keyParts c) (S (curKey c)) 0 (trackBuffer c) (stringBuffer c)
  else mkConverter (c_keyParts c) (curKey c) curPart (trackBuffer c) (stringBuffer c).

(** The number of packets in the deques: every round of the loop below
    takes one of them out. *)
Definition queued (tb : gmap Z (list MediaPart)) : nat :=
  map_fold (fun _ q n => (length q + n)%nat) 0%nat tb.

(** [while (!trackBuffer[curKey->trackID].empty())]: the test reads
    through [curKey], which is undefined at [keyParts.end()]
    ([HTTP.Undefined]). *)
Fixpoint flush (fuel : nat) (c : Converter) : option (HTTP.outcome Converter) :=
  match fuel with
  | O => None
  | S fuel =>
      match c_keyParts c !! curKey c with
      | None => Some HTTP.Undefined
      | Some kp =>
          let tb := touch (trackID kp) (trackBuffer c) in
          match default [] (tb !! trackID kp) with
          | [] =>
              Some (HTTP.Defined (mkConverter (c_keyParts c) (curKey c) (curPart c) tb
                                         (stringBuffer c)))
          | front :: rest =>
              (* output requested packages *)
              let c := mkConverter (c_keyParts c) (curKey c) (curPart c)
                                   (<[trackID kp := rest]> tb)
                                   (stringBuffer c ++ m_data front) in
              flush fuel (next_part kp c)
          end
      end
  end.

(** [DTSC2MP4Converter::parseDTSC]. *)
Definition parseDTSC (mediaPart : MediaPart) (c : Converter) : option (HTTP.outcome Converter) :=
  match flush (S (queued (trackBuffer c))) c with
  | Some (HTTP.Defined c) =>
      match c_keyParts c !! curKey c with
      | None => Some HTTP.Undefined
      | Some kp =>
          if trackID kp =? m_trackid mediaPart then
            (* output JSON packet *)
            let c := mkConverter (c_keyParts c) (curKey c) (curPart c) (trackBuffer c)
                                 (stringBuffer c ++ m_data mediaPart) in
            Some (HTTP.Defined (next_part kp c))
          else
            (* buffer for later *)
            let tb := touch (m_trackid mediaPart) (trackBuffer c) in
            let q := default [] (tb !! m_trackid mediaPart) in
            Some (HTTP.Defined (mkConverter (c_keyParts c) (curKey c) (curPart c)
                                       (<[m_trackid mediaPart := q ++ [mediaPart]]> tb)
                                       (stringBuffer c)))
      end
  | r => r
  end.

(** The deque of a track, and the tracks of the packets that are still
    to be written, in the order of the set: a key part takes as many
    packets of its track as its [partsize] says when read as a
    [long long unsigned int], and one when that is zero. *)
Definition queue (t : Z) (c : Converter) : list MediaPart :=
  default [] (trackBuffer c !! t).

Definition takes (kp : keyPart) (done : Z) : list Z :=
  replicate (Z.to_nat (Z.max 1 (u64 (partsize kp) - done))) (trackID kp).

Definition to_write (c : Converter) : list Z :=
  match c_keyParts c !! curKey c with
  | Some kp =>
      takes kp (curPart c) ++ flat_map (fun kp => takes kp 0) (drop (S (curKey c)) (c_keyParts c))
  | None => []
  end.

(** What holds of the counter between two calls: [curPart] counts the
    packets written for the current key part and stays below its
    [partsize] (as the comparison reads it). *)
Definition counters_ok (c : Converter) : Prop :=
  0 <= curPart c
  /\ (curPart c = 0
      \/ exists kp, c_keyParts c !! curKey c = Some kp /\ curPart c < u64 (partsize kp)).

(** A two-track stream: one video key of a single 1000-byte part and one
    audio key of a single 200-byte part, video first in time.  The
    sample ordering is by time, then track; the sample decoder reads
    big-endian 16-bit sizes. *)
Definition sample_lt (a b : keyPart) : bool :=
  (time a <? time b) || ((time a =? time b) && (trackID a <? trackID b)).

Fixpoint sample_decode (s : bytes) : list Z :=
  match s with
  | hi :: lo :: s' => (uchar hi * 256 + uchar lo) :: sample_decode s'
  | _ => []
  end.

Definition sample_tracks : list Track :=
  [ mkTrack (lit "track1") 1 [mkKey 1000 0 40 (map to_char [3; 232]) 1];
    mkTrack (lit "track2") 2 [mkKey 200 10 23 (map to_char [0; 200]) 1] ].

End MP4.

(** * Statements *)

(** ** Bytes and machine integers *)

Lemma uchar_range c : 0 <= uchar c < 256.
Proof.
  unfold uchar. destruct c as [[] [] [] [] [] [] [] []]; vm_compute; split; congruence.
Qed.

Lemma uchar_to_char z : uchar (to_char z) = z mod 256.
Proof.
  unfold to_char, uchar.
  assert (H : 0 <= z mod 256 < 256) by (apply Z.mod_pos_bound; lia).
  rewrite N_ascii_embedding by lia. lia.
Qed.

Lemma byte_of_land v : uchar (to_char (Z.land v 255)) = v mod 256.
Proof.
  rewrite uchar_to_char. change 255 with (Z.ones 8).
  rewrite Z.land_ones by lia. change (2 ^ 8) with 256. apply Z.mod_mod. lia.
Qed.

Lemma s32_small z : - 2 ^ 31 <= z < 2 ^ 31 -> s32 z = z.
Proof.
  intros H. unfold s32. change (2 ^ 32) with 4294967296.
  change (2 ^ 31) with 2147483648 in *.
  destruct (Z.ltb_spec (z mod 4294967296) 2147483648); Z.div_mod_to_equations; lia.
Qed.

Lemma u32_small a : 0 <= a < 2 ^ 32 -> u32 a = a.
Proof. apply Z.mod_small. Qed.

Lemma u64_small a : 0 <= a < 2 ^ 64 -> u64 a = a.
Proof. apply Z.mod_small. Qed.

Lemma u64_idem_l a b : u64 (u64 a + b) = u64 (a + b).
Proof. unfold u64. apply Zplus_mod_idemp_l. Qed.

Lemma u64_add a b : u64 (u64 a + u64 b) = u64 (a + b).
Proof. unfold u64. symmetry. apply Zplus_mod. Qed.

Lemma u64_u64 a : u64 (u64 a) = u64 a.
Proof. unfold u64. apply Z.mod_mod. lia. Qed.

Lemma rd_wr_eq i c l : 0 <= i < Z.of_nat (length l) -> rd (wr i c l) i = c.
Proof.
  intros H. unfold rd, wr. destruct (i <? 0) eqn:E; [lia|].
  rewrite nth_lookup, list_lookup_insert_eq by lia. reflexivity.
Qed.

Lemma rd_wr_ne i j c l : 0 <= i -> 0 <= j -> i <> j -> rd (wr i c l) j = rd l j.
Proof.
  intros Hi Hj H. unfold rd, wr. destruct (i <? 0) eqn:E; [lia|].
  destruct (j <? 0) eqn:E'; [lia|].
  rewrite !nth_lookup, list_lookup_insert_ne by lia. reflexivity.
Qed.

Lemma length_wr i c l : length (wr i c l) = length l.
Proof. unfold wr. destruct (i <? 0); [reflexivity|apply length_insert]. Qed.

Lemma length_memcpy_at off src dst : length (memcpy_at off src dst) = length dst.
Proof.
  revert off dst. induction src as [|c src IH]; intros off dst; simpl; [done|].
  by rewrite IH, length_insert.
Qed.

Lemma length_memcpy dst off src n : length (memcpy dst off src n) = length dst.
Proof. unfold memcpy. destruct (off <? 0); [done|apply length_memcpy_at]. Qed.

(** ** dtsc.h: the ordering of seek positions *)

Section seek_positions.

Import DTSC.

(** The ordering of the live buffer compares lexicographically: it is
    asymmetric. *)
Lemma livePos_lt_asymmetric a b : livePos_lt a b = true -> livePos_lt b a = false.
Proof. unfold livePos_lt. repeat case_match; try congruence; lia. Qed.

(** C10.  [seekPos::operator<] is not asymmetric, hence no strict weak
    ordering: two positions at the same [seekTime], one with the larger
    [bytePos] and the other with the larger [trackID] (the first keys of
    a video and of an audio track, say), are each less than the other.
    The test of [trackID] is reached whenever the byte positions are not
    in order, also when they differ. *)
Theorem seekPos_lt_not_asymmetric :
  seekPos_lt (mkSeekPos 0 100 1) (mkSeekPos 0 50 2) = true
  /\ seekPos_lt (mkSeekPos 0 50 2) (mkSeekPos 0 100 1) = true
  /\ ~ (forall a b, seekPos_lt a b = true -> seekPos_lt b a = false).
Proof.
  split; [reflexivity|]. split; [reflexivity|].
  intros H. specialize (H (mkSeekPos 0 100 1) (mkSeekPos 0 50 2) eq_refl).
  discriminate H.
Qed.

End seek_positions.

(** ** flv_tag.cpp: timestamps *)

Section flv_timestamps.

Import FLV.

Lemma block_poke i c t : block (poke i c t) = wr i c (block t).
Proof.
  unfold block, poke. destruct t as [? ? [d|] ? ? ?]; simpl; [reflexivity|].
  unfold wr. destruct (i <? 0); reflexivity.
Qed.

(** C3, as amended.  On a tag whose buffer holds at least eight bytes,
    setting the timestamp to a 32-bit value [T] and reading it back
    gives [T] exactly when the plain [char] is unsigned or bits 7, 15
    and 23 of [T] are clear.  The setter stores bits 16-23, 8-15, 0-7
    and 24-31 of [T] in [data[4]], [data[5]], [data[6]] and [data[7]],
    and the getter puts them back in those places; a signed [char] is
    promoted with its sign, which for [data[7]] falls beyond bit 31 and
    for the other three bytes does not. *)
Theorem tagTime_roundtrip (sg : bool) (T : Z) (t : Tag) :
  0 <= T < 2 ^ 32 ->
  (8 <= length (block t))%nat ->
  tagTime sg (tagTime_set T t) = T
  <-> sg = false
      \/ (Z.land (Z.shiftr T 16) 255 < 128
          /\ Z.land (Z.shiftr T 8) 255 < 128
          /\ Z.land T 255 < 128).
Proof.
  intros HT Hlen. unfold tagTime, tagTime_set, at_.
  rewrite !block_poke.
  set (d := block t) in *.
  rewrite (rd_wr_eq 7) by (rewrite !length_wr; lia).
  rewrite (rd_wr_ne 7 6), (rd_wr_eq 6) by (rewrite ?length_wr; lia).
  rewrite (rd_wr_ne 7 5), (rd_wr_ne 6 5), (rd_wr_eq 5) by (rewrite ?length_wr; lia).
  rewrite (rd_wr_ne 7 4), (rd_wr_ne 6 4), (rd_wr_ne 5 4), (rd_wr_eq 4)
    by (rewrite ?length_wr; lia).
  unfold char_val, schar. rewrite !byte_of_land.
  change 255 with (Z.ones 8). rewrite !Z.land_ones by lia.
  rewrite !Z.shiftr_div_pow2, !Z.shiftl_mul_pow2 by lia.
  unfold u32.
  change (2 ^ 32) with 4294967296 in *. change (2 ^ 16) with 65536.
  change (2 ^ 8) with 256. change (2 ^ 24) with 16777216.
  assert (H4 : 0 <= (T / 65536) mod 256 < 256) by (apply Z.mod_pos_bound; lia).
  assert (H5 : 0 <= (T / 256) mod 256 < 256) by (apply Z.mod_pos_bound; lia).
  assert (H6 : 0 <= T mod 256 < 256) by (apply Z.mod_pos_bound; lia).
  assert (H7 : 0 <= (T / 16777216) mod 256 < 256) by (apply Z.mod_pos_bound; lia).
  assert (HT' : T = (T / 16777216) mod 256 * 16777216 + (T / 65536) mod 256 * 65536
                    + (T / 256) mod 256 * 256 + T mod 256).
  { clear H4 H5 H6 H7. Z.div_mod_to_equations. lia. }
  revert HT'.
  generalize dependent ((T / 16777216) mod 256). intros b7 H7.
  generalize dependent ((T / 65536) mod 256). intros b4 H4.
  generalize dependent ((T / 256) mod 256). intros b5 H5.
  generalize dependent (T mod 256). intros b6 H6 ->.
  destruct sg.
  - destruct (Z.ltb_spec b4 128), (Z.ltb_spec b5 128), (Z.ltb_spec b6 128),
      (Z.ltb_spec b7 128);
      (split; [intros E; right; Z.div_mod_to_equations; lia
              |intros [?|?]; [done|Z.div_mod_to_equations; lia]]).
  - split; [by left|]. intros _. Z.div_mod_to_equations. lia.
Qed.

Lemma tagTime_roundtrip_witness :
  0 <= 2164228097 < 2 ^ 32
  /\ (8 <= length (block zero_tag))%nat
  /\ tagTime false (tagTime_set 2164228097 zero_tag) = 2164228097.
Proof.
  split; [lia|]. split; [vm_compute; lia|].
  apply (proj2 (tagTime_roundtrip false 2164228097 zero_tag
                  ltac:(lia) ltac:(vm_compute; lia))).
  left. reflexivity.
Defined.

(** C3 as stated fails where the plain [char] is signed: the getter
    sign-extends [data[4]], [data[5]] and [data[6]], and the time 128
    reads back as 2^32 - 128. *)
Lemma tagTime_signed_char_sign_extends :
  tagTime true (tagTime_set 128 zero_tag) = 4294967168.
Proof. vm_compute. reflexivity. Qed.

(** The announced length depends on the signedness as well: a tag header
    that announces a body of 200 bytes gives the length 215 with
    unsigned bytes and a negative length with signed ones. *)
Lemma signed_char_breaks_announced_len :
  len (announced_len false (with_data (Some (tag_header 9 200 ++ replicate 4 NUL)) zero_tag))
  = 215
  /\ len (announced_len true (with_data (Some (tag_header 9 200 ++ replicate 4 NUL)) zero_tag))
     = -41.
Proof. split; vm_compute; reflexivity. Qed.

End flv_timestamps.

(** ** flv_tag.cpp: buffer growth *)

(** The common prefix of both loaders up to the branch on the kind of
    header. *)
Ltac after_header Hc Hd Hr Hh :=
  rewrite Hc; cbn [negb]; rewrite Hd, Hr;
  cbn [FLV.block FLV.with_sofar FLV.with_data FLV.data default from_option id];
  rewrite Hh;
  cbn [FLV.block FLV.with_sofar FLV.with_data FLV.data default from_option id].

Section flv_buffer.

Import FLV.


Lemma checkBufferSize_true r t t' :
  checkBufferSize r t = (true, t') -> len t' <= buf t'.
Proof.
  unfold checkBufferSize. destruct (_ || _) eqn:E.
  - destruct (realloc (data t) (len t) r); [|discriminate].
    intros [= <-]. simpl. lia.
  - intros [= <-]. apply orb_false_iff in E as [E1 _]. by apply Z.ltb_ge in E1.
Qed.

(** A check that succeeds keeps the invariant of the buffer, makes room
    for [len] bytes and keeps the bytes the tag already had. *)
Lemma checkBufferSize_grown r t t' :
  Tag_wf t -> 0 <= len t ->
  checkBufferSize r t = (true, t') ->
  Tag_wf t' /\ len t' = len t /\ len t <= Z.of_nat (length (block t'))
  /\ done t' = done t /\ sofar t' = sofar t
  /\ (forall i, 0 <= i < len t -> i < Z.of_nat (length (block t)) ->
        rd (block t') i = rd (block t) i).
Proof.
  intros Hwf Hl. unfold checkBufferSize. destruct (_ || _) eqn:E.
  - destruct r as [|fresh]; [discriminate|]. cbn [realloc].
    intros [= <-]. unfold Tag_wf, block. cbn.
    rewrite length_resize. repeat split; try lia.
    intros i Hi Hi'. unfold rd. destruct (i <? 0) eqn:E'; [lia|].
    rewrite !nth_lookup. f_equal.
    rewrite lookup_resize by (rewrite ?length_app; lia).
    rewrite lookup_app_l by lia. done.
  - intros [= <-]. apply orb_false_iff in E as [E1 E2].
    apply Z.ltb_ge in E1. apply negb_false_iff, bool_decide_eq_true in E2.
    destruct E2 as [d Hd]. unfold Tag_wf, block in *. rewrite Hd in *. cbn.
    repeat split; try lia; done.
Qed.


Lemma min_len_props t :
  Tag_wf t -> Tag_wf (min_len t) /\ 15 <= len (min_len t).
Proof.
  unfold min_len. destruct (Z.ltb_spec (len t) 15); cbn; intros; split; try done; lia.
Qed.














End flv_buffer.

(** ** flv_tag.cpp: the tag type check of the loaders *)

Section flv_tag_type.

Import FLV.

Lemma MemReadUntil_length buffer count sofar D S P b d sf P' :
  MemReadUntil buffer count sofar D S P = (b, d, sf, P') -> length d = length buffer.
Proof.
  unfold MemReadUntil.
  repeat case_match; intros [= <- <- <- <-]; rewrite ?length_memcpy; done.
Qed.

Lemma FileReadUntil_length buffer count sofar f g b d sf f' g' :
  FileReadUntil buffer count sofar f g = (b, d, sf, f', g') -> length d = length buffer.
Proof.
  unfold FileReadUntil.
  repeat case_match; intros [= <- <- <- <- <-]; rewrite ?length_memcpy; done.
Qed.

(** With unsigned bytes the announced length is between 15 and
    15 + 0xFFFFFF. *)
Lemma announced_len_unsigned t :
  15 <= len (announced_len false t) <= 16777230
  /\ data (announced_len false t) = data t /\ buf (announced_len false t) = buf t
  /\ done (announced_len false t) = done t.
Proof.
  unfold announced_len, block. cbn [len with_len data buf done].
  fold (block t). unfold at_, char_val.
  pose proof (uchar_range (rd (block t) 3)) as H3.
  pose proof (uchar_range (rd (block t) 2)) as H2.
  pose proof (uchar_range (rd (block t) 1)) as H1.
  set (a3 := uchar (rd (block t) 3)) in *. set (a2 := uchar (rd (block t) 2)) in *.
  set (a1 := uchar (rd (block t) 1)) in *.
  rewrite !Z.shiftl_mul_pow2 by lia.
  change (2 ^ 8) with 256. change (2 ^ 16) with 65536.
  rewrite (s32_small (a3 + 15)) by (change (2 ^ 31) with 2147483648; lia).
  rewrite (s32_small (a3 + 15 + a2 * 256)) by (change (2 ^ 31) with 2147483648; lia).
  rewrite s32_small by (change (2 ^ 31) with 2147483648; lia).
  repeat split; lia.
Qed.

(** A check that succeeds on a tag with a non-empty block keeps its
    first byte and its state, whatever [len] asks for. *)
Lemma checkBufferSize_keeps_head r t t' :
  Tag_wf t -> 0 < Z.of_nat (length (block t)) ->
  checkBufferSize r t = (true, t') ->
  rd (block t') 0 = rd (block t) 0 /\ 0 < Z.of_nat (length (block t'))
  /\ done t' = done t.
Proof.
  intros Hwf Hpos. unfold checkBufferSize. destruct (_ || _) eqn:E.
  - destruct r as [|fresh]; [discriminate|]. cbn [realloc].
    intros [= <-]. unfold Tag_wf, block in *. cbn.
    destruct (data t) as [d|] eqn:Hd; [|simpl in Hpos; lia]. cbn in *.
    rewrite orb_false_r in E. apply Z.ltb_lt in E.
    rewrite length_resize. split; [|split; [lia|done]].
    unfold rd. cbn. rewrite !nth_lookup. f_equal.
    rewrite lookup_resize by (rewrite ?length_app; lia).
    rewrite lookup_app_l by lia. done.
  - by intros [= <-].
Qed.

(** The state both loaders reach once the header is complete and the
    second check has succeeded. *)
Lemma header_accepted sg r1 r2 t t1 d sf t2 :
  Tag_wf t ->
  checkBufferSize r1 (min_len t) = (true, t1) ->
  length d = length (block t1) ->
  checkBufferSize r2 (announced_len sg (with_sofar sf (with_data (Some d) t1)))
  = (true, t2) ->
  rd (block t2) 0 = rd d 0 /\ 0 < Z.of_nat (length (block t2)) /\ done t2 = done t1.
Proof.
  intros Hwf Hc Hld Hc2.
  destruct (min_len_props t Hwf) as (Hwf0 & Hl0).
  destruct (checkBufferSize_grown _ _ _ Hwf0 ltac:(lia) Hc)
    as (Hwf1 & Hl1 & Hlen1 & _ & _ & _).
  set (th := with_sofar sf (with_data (Some d) t1)) in *.
  assert (Hwfh : Tag_wf (announced_len sg th)).
  { unfold Tag_wf in *. cbn. unfold block in *. destruct (data t1); simpl in *; lia. }
  assert (Hbh : block (announced_len sg th) = d) by reflexivity.
  destruct (checkBufferSize_keeps_head _ _ _ Hwfh ltac:(rewrite Hbh; lia) Hc2)
    as (H0 & Hp & Hdn).
  rewrite Hbh in H0. done.
Qed.

(** C5, as amended.  When a loader in the header-reading state has its
    buffer, completes an 11-byte header that does not begin with "FLV"
    and whose first byte is between 0x13 and 0xFF where the plain [char]
    is unsigned, between 0x13 and 0x7F where it is signed, and the
    buffer holds or can be grown to the announced tag length, it sets
    [FLV::Parse_Error], adds 32 to the byte (modulo 256) and returns
    false, still in the header-reading state. *)
Theorem bad_tag_type_is_fatal sg r1 r2 g t t1 d sf t2 :
  Tag_wf t ->
  checkBufferSize r1 (min_len t) = (true, t1) ->
  done t1 = true ->
  is_header sg d = false ->
  19 <= uchar (rd d 0) <= (if sg then 127 else 255) ->
  checkBufferSize r2 (announced_len sg (with_sofar sf (with_data (Some d) t1)))
  = (true, t2) ->
  (forall D S P P',
     MemReadUntil (block t1) 11 (sofar t1) D S P = (true, d, sf, P') ->
     exists g' t',
       MemLoader sg r1 r2 D S P g t = (false, P', g', t')
       /\ Parse_Error g' = true
       /\ rd (block t') 0 = to_char (uchar (rd d 0) + 32)
       /\ done t' = true)
  /\ (forall f f' g1,
        FileReadUntil (block t1) 11 (sofar t1) f g = (true, d, sf, f', g1) ->
        exists g' t',
          FileLoader sg r1 r2 f g t = (false, f', g', t')
          /\ Parse_Error g' = true
          /\ rd (block t') 0 = to_char (uchar (rd d 0) + 32)
          /\ done t' = true).
Proof.
  intros Hwf Hc Hd Hh Hb Hc2.
  assert (Hv : char_val sg (rd d 0) = uchar (rd d 0)).
  { unfold char_val, schar. destruct sg; [|done].
    destruct (Z.ltb_spec (uchar (rd d 0)) 128); [done|lia]. }
  assert (Hb' : 18 < uchar (rd d 0)) by lia.
  split.
  - intros D S P P' Hr.
    pose proof (MemReadUntil_length _ _ _ _ _ _ _ _ _ _ Hr) as Hld.
    destruct (header_accepted _ _ _ _ _ _ _ _ Hwf Hc Hld Hc2) as (Hrd0 & Hpos & Hdn).
    unfold MemLoader. after_header Hc Hd Hr Hh.
    cbn [block with_sofar with_data data default from_option id] in Hc2.
    rewrite Hc2. cbn [negb]. unfold at_. rewrite Hrd0, Hv.
    destruct (Z.ltb_spec 18 (uchar (rd d 0))); [|lia].
    eexists _, _. split; [reflexivity|]. split; [done|]. split.
    + rewrite block_poke, rd_wr_eq by lia. done.
    + cbn. by rewrite Hdn.
  - intros f f' g1 Hr.
    pose proof (FileReadUntil_length _ _ _ _ _ _ _ _ _ _ Hr) as Hld.
    destruct (header_accepted _ _ _ _ _ _ _ _ Hwf Hc Hld Hc2) as (Hrd0 & Hpos & Hdn).
    unfold FileLoader. after_header Hc Hd Hr Hh.
    cbn [block with_sofar with_data data default from_option id] in Hc2.
    rewrite Hc2. cbn [negb]. unfold at_. rewrite Hrd0, Hv.
    destruct (Z.ltb_spec 18 (uchar (rd d 0))); [|lia].
    eexists _, _. split; [reflexivity|]. split; [done|]. split.
    + rewrite block_poke, rd_wr_eq by lia. done.
    + cbn. by rewrite Hdn.
Qed.

(** A fresh tag fed the header [13 00 00 01 ...]: the allocator grants
    fifteen and then sixteen bytes, and the tag type 0x13 is fatal. *)
Lemma bad_tag_type_is_fatal_witness :
  exists g' t',
    MemLoader false (ReallocOk []) (ReallocOk []) (tag_header 19 1) 11 0
              initial_Globals empty_Tag
    = (false, 11, g', t')
    /\ Parse_Error g' = true
    /\ rd (block t') 0 = to_char (uchar (rd (tag_header 19 1) 0) + 32)
    /\ done t' = true.
Proof.
  refine (proj1 (bad_tag_type_is_fatal false (ReallocOk []) (ReallocOk []) initial_Globals
                   empty_Tag zero_tag (tag_header 19 1 ++ replicate 4 NUL) 11
                   (mkTag 16 false (Some (tag_header 19 1 ++ replicate 5 NUL)) 16 true 11)
                   _ _ _ _ _ _)
                (tag_header 19 1) 11 0 11 _);
    vm_compute; try reflexivity.
  split; intros H; discriminate H.
Defined.

(** C5 as stated fails when the buffer cannot be grown: the same header,
    announcing sixteen bytes, with an allocator that grants the first
    fifteen bytes and refuses the sixteenth.  The header is complete
    ([sofar] is 11), the type byte is 0x13, and the loader returns false
    with [Parse_Error] still false and the byte still 0x13. *)
Lemma bad_tag_type_not_flagged_when_growth_fails :
  let '(ret, _, g, t) :=
    FLV.MemLoader false (ReallocOk []) ReallocFail (tag_header 19 1) 11 0
                  initial_Globals empty_Tag in
  ret = false /\ sofar t = 11 /\ Parse_Error g = false
  /\ uchar (rd (block t) 0) = 19 /\ done t = true.
Proof. vm_compute. repeat split; reflexivity. Qed.

(** Where the plain [char] is signed, a type byte of 0x80 or more is
    negative and passes the test [data[0] > 0x12]: the loader flags
    nothing and enters the body-reading state. *)
Lemma signed_char_accepts_tag_type_0x80 :
  let '(ret, _, g, t) :=
    FLV.MemLoader true (ReallocOk []) (ReallocOk []) (tag_header 128 0) 11 0
                  initial_Globals empty_Tag in
  ret = false /\ Parse_Error g = false /\ done t = false.
Proof. vm_compute. repeat split; reflexivity. Qed.

End flv_tag_type.

(** ** socket.cpp: the segmented byte buffer *)

Section socket_buffer.

Import Buffer.

Lemma scan_le k rest : (k <= scan k rest <= k + length rest)%nat.
Proof.
  revert k. induction rest as [|c rest IH]; intros k; simpl; [lia|].
  destruct (k <=? BUFFER_BLOCKSIZE)%nat; [|lia].
  destruct (is_newline c); [lia|]. specialize (IH (S k)). lia.
Qed.

Lemma scan_pos c rest : (1 <= scan 0 (c :: rest))%nat.
Proof.
  simpl. destruct (is_newline c); [lia|]. pose proof (scan_le 1 rest). lia.
Qed.

Lemma scan_max k rest : (k <= S BUFFER_BLOCKSIZE -> scan k rest <= S BUFFER_BLOCKSIZE)%nat.
Proof.
  revert k. induction rest as [|c rest IH]; intros k Hk; cbn [scan]; [done|].
  destruct (Nat.leb_spec k BUFFER_BLOCKSIZE); [|done].
  destruct (is_newline c); [lia|]. apply IH. lia.
Qed.

Lemma scan_newline k rest j c :
  (k + j + 1 < scan k rest)%nat -> rest !! j = Some c -> c <> LF.
Proof.
  revert k j. induction rest as [|x rest IH]; intros k j Hj Hc; [done|].
  cbn [scan] in Hj. destruct (Nat.leb_spec k BUFFER_BLOCKSIZE); [|lia].
  destruct (is_newline x) eqn:E; [lia|].
  destruct j as [|j]; simpl in Hc.
  - injection Hc as <-. by apply bool_decide_eq_false in E.
  - apply (IH (S k) j); [lia|done].
Qed.

(** The outer loop of [append] needs no more rounds than the input has
    bytes. *)
Lemma append_loop_fuel fuel rest data :
  (length rest <= fuel)%nat ->
  append_loop fuel rest data = append_loop (length rest) rest data.
Proof.
  remember (length rest) as n eqn:Hn. revert fuel rest data Hn.
  induction n as [n IH] using lt_wf_ind. intros fuel rest data Hn Hf.
  destruct rest as [|c rest].
  { subst n. destruct fuel; reflexivity. }
  destruct fuel as [|fuel]; [simpl in *; lia|]. subst n.
  cbn [length append_loop].
  pose proof (scan_pos c rest) as Hk. pose proof (scan_le 0 (c :: rest)) as Hk'.
  set (k := scan 0 (c :: rest)) in *.
  destruct (k =? 0)%nat; [done|].
  assert (Hd : (length (drop k (c :: rest)) < S (length rest))%nat).
  { rewrite length_drop. simpl. lia. }
  rewrite (IH _ Hd fuel _ _ eq_refl) by (simpl in *; lia).
  rewrite (IH _ Hd (length rest) _ _ eq_refl) by lia. done.
Qed.

Lemma contents_cons b data : contents (b :: data) = contents data ++ b.
Proof. unfold contents. simpl. rewrite concat_app. simpl. by rewrite app_nil_r. Qed.

Lemma append_loop_contents fuel rest data :
  (length rest <= fuel)%nat ->
  contents (append_loop fuel rest data) = contents data ++ rest.
Proof.
  revert rest data. induction fuel as [|fuel IH]; intros rest data Hf.
  - destruct rest; [|simpl in Hf; lia]. simpl. by rewrite app_nil_r.
  - destruct rest as [|c rest]; [simpl; by rewrite app_nil_r|].
    cbn [append_loop].
    pose proof (scan_pos c rest) as Hk. pose proof (scan_le 0 (c :: rest)) as Hk'.
    set (k := scan 0 (c :: rest)) in *.
    destruct (k =? 0)%nat eqn:E; [apply Nat.eqb_eq in E; lia|].
    rewrite IH.
    + rewrite contents_cons, <- app_assoc, take_drop. reflexivity.
    + rewrite length_drop. simpl in *. lia.
Qed.

(** [append] loses no byte and keeps the order. *)
Lemma append_contents x data : contents (append x data) = contents data ++ x.
Proof. apply append_loop_contents. lia. Qed.

Lemma appends_contents xs data : contents (appends xs data) = contents data ++ concat xs.
Proof.
  revert data. induction xs as [|x xs IH]; intros data; simpl.
  - by rewrite app_nil_r.
  - unfold appends in *. rewrite IH, append_contents, <- app_assoc. reflexivity.
Qed.

Lemma total_cons b blocks : total (b :: blocks) = Z.of_nat (length b) + total blocks.
Proof. unfold total. simpl. rewrite length_app. lia. Qed.

Lemma total_nonneg blocks : 0 <= total blocks.
Proof. unfold total. lia. Qed.

Lemma total_rev blocks : total (rev blocks) = total blocks.
Proof.
  induction blocks as [|b blocks IH]; [reflexivity|].
  simpl. unfold total in *. rewrite concat_app, length_app. simpl.
  rewrite app_nil_r, length_app. lia.
Qed.

(** While the counter does not wrap, [available] compares [count] with
    the number of bytes held; on a deque without blocks it is false also
    for [count = 0]. *)
Lemma available_loop_spec i count blocks :
  0 <= i -> i + total blocks < 2 ^ 32 ->
  available_loop i count blocks = bool_decide (blocks <> [] /\ count <= i + total blocks).
Proof.
  revert i. induction blocks as [|b blocks IH]; intros i Hi Hb.
  - cbn [available_loop]. symmetry. apply bool_decide_eq_false_2. intros [? _]. done.
  - cbn [available_loop]. rewrite total_cons in *. pose proof (total_nonneg blocks).
    unfold u32. rewrite Z.mod_small by lia.
    destruct (count <=? i + Z.of_nat (length b)) eqn:E.
    + symmetry. apply bool_decide_eq_true. split; [done|]. lia.
    + rewrite IH by lia. apply bool_decide_ext. split.
      * intros [_ H1]. split; [done|lia].
      * intros [_ H1]. split; [|lia]. intros ->. unfold total in H1. simpl in H1. lia.
Qed.

Lemma remove_loop_spec i count ret rblocks :
  0 <= i <= count -> count <= i + total rblocks -> count < 2 ^ 32 -> rblocks <> [] ->
  let '(r, rb) := remove_loop i count ret rblocks in
  r = ret ++ take (Z.to_nat (count - i)) (concat rblocks)
  /\ concat rb = drop (Z.to_nat (count - i)) (concat rblocks).
Proof.
  revert i ret. induction rblocks as [|b rest IH]; intros i ret Hi Hc Hk Hne; [done|].
  cbn [remove_loop]. rewrite total_cons in Hc.
  destruct (i + Z.of_nat (length b) <? count) eqn:E.
  - apply Z.ltb_lt in E.
    assert (rest <> []) as Hr.
    { intros ->. unfold total in Hc. simpl in Hc. lia. }
    unfold u32. rewrite Z.mod_small by lia.
    specialize (IH (i + Z.of_nat (length b)) (ret ++ b)).
    destruct (remove_loop (i + Z.of_nat (length b)) count (ret ++ b) rest) as [r rb].
    destruct IH as (-> & H2); [lia|lia|lia|done|].
    replace (Z.to_nat (count - i))
      with (length b + Z.to_nat (count - (i + Z.of_nat (length b))))%nat by lia.
    simpl. rewrite take_app_add, drop_app_add, H2, <- app_assoc. done.
  - apply Z.ltb_ge in E. unfold u32. rewrite Z.mod_small by lia.
    simpl. rewrite take_app_le, drop_app_le by lia. done.
Qed.

(** C2, as amended.  After the calls [append(x0)], [append(x1)], ... on
    an empty buffer, [remove(k)] returns the first [k] bytes of [x0 x1 ...] and
    leaves the rest of them in the buffer when at least [k] bytes are
    queued, and returns the empty string and leaves the deque as it is
    when fewer are.  [k] is an [unsigned int], and the bytes queued are
    fewer than 2^32, the range of the buffer's [unsigned int] byte
    counters. *)
Theorem remove_after_appends (xs : list bytes) (k : Z) :
  Z.of_nat (length (concat xs)) < 2 ^ 32 ->
  0 <= k < 2 ^ 32 ->
  (k <= Z.of_nat (length (concat xs)) ->
     fst (remove k (appends xs [])) = take (Z.to_nat k) (concat xs)
     /\ contents (snd (remove k (appends xs []))) = drop (Z.to_nat k) (concat xs))
  /\ (Z.of_nat (length (concat xs)) < k ->
     remove k (appends xs []) = ([], appends xs [])).
Proof.
  intros Hb Hk. set (data := appends xs []).
  assert (Hc : contents data = concat xs).
  { unfold data. by rewrite appends_contents. }
  assert (Ht : total data = Z.of_nat (length (concat xs))).
  { rewrite <- total_rev. unfold total. fold (contents data). by rewrite Hc. }
  unfold remove, available. rewrite available_loop_spec by lia.
  split.
  - intros Hle. destruct (decide (data = [])) as [He|Hne].
    + rewrite bool_decide_eq_false_2 by (intros [? _]; done). simpl.
      rewrite He in Ht. unfold total in Ht. simpl in Ht.
      assert (concat xs = []) as -> by (apply length_zero_iff_nil; lia).
      rewrite He. by rewrite take_nil, drop_nil.
    + rewrite bool_decide_eq_true_2 by (split; [done|lia]). simpl.
      pose proof (remove_loop_spec 0 k [] (rev data)) as H.
      destruct (remove_loop 0 k [] (rev data)) as [r rb].
      destruct H as (-> & H2); [lia|rewrite total_rev; lia|lia| |].
      { intros E. apply (f_equal (@length _)) in E. rewrite length_rev in E.
        destruct data; [done|discriminate]. }
      simpl. unfold contents. rewrite rev_involutive, H2.
      fold (contents data). rewrite Hc, Z.sub_0_r. done.
  - intros Hlt. rewrite bool_decide_eq_false_2 by (intros [_ ?]; lia). done.
Qed.

(** Two appends, the first split at its newline, and the removal of four
    bytes, which ends inside the second block. *)
Lemma remove_after_appends_witness :
  fst (remove 4 (appends [lit "ab" ++ [LF] ++ lit "cd"; lit "efg"] []))
  = lit "ab" ++ [LF] ++ lit "c"
  /\ contents (snd (remove 4 (appends [lit "ab" ++ [LF] ++ lit "cd"; lit "efg"] [])))
     = lit "defg".
Proof.
  apply (proj1 (remove_after_appends [lit "ab" ++ [LF] ++ lit "cd"; lit "efg"] 4
                  ltac:(vm_compute; reflexivity) ltac:(lia)));
    vm_compute; discriminate.
Defined.

(** [append] of a non-empty string that the inner loop takes whole
    pushes it as one block. *)
Lemma append_one_block x data :
  x <> [] -> scan 0 x = length x -> append x data = x :: data.
Proof.
  intros Hx Hs. unfold append. destruct x as [|c x]; [done|].
  cbn [length append_loop]. rewrite Hs, drop_all, firstn_all.
  cbn [length Nat.eqb]. by destruct (length x).
Qed.

Lemma appends_replicate n x data :
  (forall d, append x d = x :: d) ->
  appends (replicate n x) data = replicate n x ++ data.
Proof.
  intros Hx. revert data. induction n as [|n IH]; intros data; [done|].
  cbn [replicate]. unfold appends in *. cbn [fold_left]. rewrite IH, Hx.
  rewrite replicate_cons_app, <- app_assoc. done.
Qed.

Lemma length_concat_replicate {A} n (x : list A) :
  length (concat (replicate n x)) = (n * length x)%nat.
Proof. induction n as [|n IH]; [done|]. cbn. rewrite length_app. lia. Qed.

(** While the sum stays below [count], [available] walks on. *)
Lemma available_loop_replicate n x i count rest :
  0 <= i -> i + Z.of_nat n * Z.of_nat (length x) < count -> count <= 2 ^ 32 ->
  available_loop i count (replicate n x ++ rest)
  = available_loop (i + Z.of_nat n * Z.of_nat (length x)) count rest.
Proof.
  revert i. induction n as [|n IH]; intros i Hi Hlt Hc.
  - cbn [replicate app]. f_equal. lia.
  - cbn [replicate app available_loop].
    assert (E : u32 (i + Z.of_nat (length x)) = i + Z.of_nat (length x)).
    { unfold u32. apply Z.mod_small. nia. }
    rewrite E. destruct (Z.leb_spec count (i + Z.of_nat (length x))); [nia|].
    rewrite IH by nia. f_equal. lia.
Qed.

(** C2 as stated fails from 2^32 queued bytes on.  After 1048321 calls
    of [append] with 4097 bytes each (no newline), 4294971137 bytes are
    queued; [remove(4294967295)] finds the [unsigned int] sum of
    [available] at 4294967040 before the last block and at 3841 after
    it, and returns the empty string, the buffer unchanged, with more
    than [k] bytes queued. *)
Lemma remove_fails_beyond_4GiB :
  let xs := replicate (Z.to_nat 1048321) (replicate 4097 "a"%char) in
  let k := 4294967295 in
  k <= Z.of_nat (length (concat xs))
  /\ remove k (appends xs []) = ([], appends xs [])
  /\ Z.of_nat (length (take (Z.to_nat k) (concat xs))) = k.
Proof.
  cbv zeta.
  assert (HN : exists n, Z.to_nat 1048321 = S n /\ Z.of_nat n = 1048320).
  { exists (Z.to_nat 1048320). split; lia. }
  destruct HN as (n & -> & Hn).
  pose (x := replicate 4097 "a"%char).
  assert (Hlx : length x = 4097%nat) by apply length_replicate.
  assert (Hb : forall d, append x d = x :: d).
  { intros d. apply append_one_block; [discriminate|vm_compute; reflexivity]. }
  change (replicate 4097 "a"%char) with x. clearbody x.
  assert (Hlen : Z.of_nat (length (concat (replicate (S n) x))) = 4294971137).
  { rewrite length_concat_replicate, Hlx. lia. }
  split; [lia|]. split; [|rewrite length_take; lia].
  rewrite appends_replicate by exact Hb. unfold remove, available.
  cbn [replicate]. rewrite replicate_cons_app, <- app_assoc.
  rewrite available_loop_replicate by (rewrite ?Hlx; lia).
  cbn [app available_loop]. rewrite Hlx.
  replace (0 + Z.of_nat n * Z.of_nat 4097 + Z.of_nat 4097) with 4294971137 by lia.
  reflexivity.
Qed.

(** What [append] does guarantee of every block it stores. *)
Lemma append_loop_inv fuel rest data :
  Forall block_inv data -> Forall block_inv (append_loop fuel rest data).
Proof.
  revert rest data. induction fuel as [|fuel IH]; intros rest data Hd; [done|].
  destruct rest as [|c rest]; [done|]. cbn [append_loop].
  pose proof (scan_pos c rest) as Hk. pose proof (scan_le 0 (c :: rest)) as Hk'.
  pose proof (scan_max 0 (c :: rest) ltac:(lia)) as Hm.
  pose proof (scan_newline 0 (c :: rest)) as Hn.
  set (k := scan 0 (c :: rest)) in *.
  destruct (k =? 0)%nat; [done|]. apply IH. constructor; [|done].
  split.
  - rewrite length_take. simpl in *. lia.
  - intros j Hj. apply lookup_take_Some in Hj as [Hj Hlt].
    rewrite length_take.
    destruct (decide (j + 1 < k)%nat) as [Hlt'|]; [|simpl in *; lia].
    exfalso. by apply (Hn j LF).
Qed.

Lemma appends_block_inv xs : Forall block_inv (appends xs []).
Proof.
  unfold appends. generalize (@nil bytes) (Forall_nil_2 block_inv).
  induction xs as [|x xs IH]; intros data Hd; simpl; [done|].
  apply IH. by apply append_loop_inv.
Qed.

(** C8.  [append] of 4097 bytes without a newline to an empty buffer
    stores them as one block of 4097 bytes, one more than
    [BUFFER_BLOCKSIZE]: the inner loop runs while [j - i <= 4096] and
    so takes a byte at [j - i = 4096] too. *)
Theorem append_stores_4097_byte_block :
  append (replicate 4097 "a"%char) [] = [replicate 4097 "a"%char]
  /\ ~ Forall (fun b : bytes => (length b <= BUFFER_BLOCKSIZE)%nat)
              (append (replicate 4097 "a"%char) []).
Proof.
  assert (E : append (replicate 4097 "a"%char) [] = [replicate 4097 "a"%char])
    by (vm_compute; reflexivity).
  split; [exact E|]. rewrite E. intros H. apply Forall_inv in H.
  rewrite length_replicate in H. unfold BUFFER_BLOCKSIZE in H. lia.
Qed.

End socket_buffer.

(** ** http_parser.cpp: the URL codec *)

Section http_url_codec.

Import HTTP.

Lemma urlunescape_percent sg h l tl :
  urlunescape sg ("%"%char :: h :: l :: tl) = decode_pair sg h l :: urlunescape sg tl.
Proof. reflexivity. Qed.

Lemma urlunescape_plain sg c tl :
  c <> "%"%char -> c <> "+"%char ->
  urlunescape sg (c :: tl) = c :: urlunescape sg tl.
Proof.
  intros H1 H2. cbn [urlunescape].
  rewrite !bool_decide_eq_false_2 by assumption. reflexivity.
Qed.

(** Every one of the 256 bytes round-trips, whether [char] is signed or
    not. *)
Lemma byte_round_trips_all sg x : byte_round_trips sg x = true.
Proof.
  destruct sg; destruct x as [[] [] [] [] [] [] [] []]; vm_compute; reflexivity.
Qed.

Lemma urlunescape_urlencode_loop sg (s : bytes) :
  urlunescape sg (urlencode_loop sg s) = s.
Proof.
  induction s as [|x s IH]; [reflexivity|].
  cbn [urlencode_loop].
  pose proof (byte_round_trips_all sg x) as Hx. unfold byte_round_trips in Hx.
  destruct (unreserved sg x).
  - apply andb_true_iff in Hx as [H1 H2].
    apply negb_true_iff, bool_decide_eq_false in H1.
    apply negb_true_iff, bool_decide_eq_false in H2.
    rewrite urlunescape_plain by assumption. by rewrite IH.
  - change (hex sg x) with [hd NUL (hex sg x); hd NUL (tl (hex sg x))] in *.
    cbn [app]. rewrite urlunescape_percent, IH.
    apply bool_decide_eq_true in Hx. by rewrite Hx.
Qed.

(** A string of fewer than 2^31 bytes has a length that fits the [int]
    of [urlencode], which then visits all of it. *)
Lemma urlencode_short sg (s : bytes) :
  Z.of_nat (length s) < 2 ^ 31 -> urlencode sg s = urlencode_loop sg s.
Proof.
  intros H. unfold urlencode. rewrite s32_small by lia.
  by rewrite Nat2Z.id, firstn_all.
Qed.

(** C7, as amended.  For every byte string [s] of fewer than 2^31 bytes
    whose encoding has fewer than 2^32 - 2 bytes,
    [urlunescape(urlencode(s))] is [s], for a signed and for an unsigned
    plain [char].  The first bound is the range of the [int] that
    [urlencode] counts with, the second the range in which the
    [unsigned int] counter of [urlunescape] reaches the end of its
    input. *)
Theorem urlunescape_urlencode sg (s : bytes) :
  Z.of_nat (length s) < 2 ^ 31 ->
  Z.of_nat (length (urlencode sg s)) < 2 ^ 32 - 2 ->
  urlunescape sg (urlencode sg s) = s.
Proof.
  intros Hs _. rewrite urlencode_short by done. apply urlunescape_urlencode_loop.
Qed.

Lemma urlunescape_urlencode_witness :
  urlunescape true (urlencode true (lit "a b&c=%+/" ++ [to_char 200]))
  = lit "a b&c=%+/" ++ [to_char 200].
Proof.
  apply (urlunescape_urlencode true (lit "a b&c=%+/" ++ [to_char 200]));
    vm_compute; reflexivity.
Defined.

(** C7 as stated fails on a string of 2^31 bytes: its length converts to
    a negative [int], the loop of [urlencode] visits no byte and the
    encoding is empty, so that decoding it gives the empty string. *)
Lemma urlencode_of_2GiB_is_empty :
  urlencode false (replicate (Z.to_nat (2 ^ 31)) "a"%char) = []
  /\ urlunescape false (urlencode false (replicate (Z.to_nat (2 ^ 31)) "a"%char)) = []
  /\ replicate (Z.to_nat (2 ^ 31)) "a"%char <> [].
Proof.
  assert (E : urlencode false (replicate (Z.to_nat (2 ^ 31)) "a"%char) = []).
  { unfold urlencode. rewrite length_replicate, Z2Nat.id by lia.
    change (s32 (2 ^ 31)) with (-2147483648).
    change (Z.to_nat (-2147483648)) with 0%nat. rewrite take_0. reflexivity. }
  split; [exact E|]. split; [rewrite E; reflexivity|]. clear E.
  intros H. apply (f_equal (@length _)) in H. rewrite length_replicate in H.
  cbn [length] in H. lia.
Qed.

End http_url_codec.

(** ** http_parser.cpp: the parser *)

Section http_parser.

Import HTTP.

Lemma find_char_lt c s f : find_char c s = Some f -> (f < length s)%nat.
Proof.
  revert f. induction s as [|x s IH]; intros f; simpl; [done|].
  destruct (bool_decide (x = c)).
  - intros [= <-]. lia.
  - destruct (find_char c s) as [k|]; simpl; [|done].
    intros [= <-]. specialize (IH k eq_refl). lia.
Qed.

Lemma find_char_take c s k : find_char c s = Some k -> find_char c (take k s) = None.
Proof.
  revert k. induction s as [|x s IH]; intros k; simpl; [done|].
  destruct (bool_decide (x = c)) eqn:E.
  - intros [= <-]. done.
  - destruct (find_char c s) as [j|] eqn:Hj; simpl; [|done].
    intros [= <-]. simpl. rewrite E, (IH j eq_refl). done.
Qed.

(** After one [erase] no carriage return is left: the [while] loop that
    strips them ends. *)
Lemma strip_cr_done tmpA : find_char CR (strip_cr tmpA) = None.
Proof.
  unfold strip_cr. destruct (find_char CR tmpA) as [k|] eqn:E; [|done].
  by apply find_char_take.
Qed.

Lemma find_from_ge c pos s k : find_from c pos s = Some k -> (pos <= k)%nat.
Proof.
  unfold find_from. destruct (find_char c (drop pos s)); simpl; [|done].
  intros [= <-]. lia.
Qed.

Lemma parseVars_loop_S sg fuel pos data p :
  parseVars_loop sg (S fuel) pos data p
  = if (pos <? length data)%nat then
      let nextpos := default (length data) (find_from "&"%char pos data) in
      let '(varname, varval) :=
        match find_from "="%char pos data with
        | Some eq_pos =>
            if (eq_pos <? nextpos)%nat
            then (substr pos (eq_pos - pos) data,
                  substr (eq_pos + 1) (nextpos - eq_pos - 1) data)
            else (substr pos (nextpos - pos) data, [])
        | None => (substr pos (nextpos - pos) data, [])
        end in
      parseVars_loop sg fuel (nextpos + 1) data
        (SetVar (urlunescape sg varname) (urlunescape sg varval) p)
    else p.
Proof. reflexivity. Qed.

(** The loop of [parseVars] needs no more rounds than the bytes left
    after [pos], plus one. *)
Lemma parseVars_loop_fuel sg fuel pos data p :
  (length data < pos + fuel)%nat ->
  parseVars_loop sg (S fuel) pos data p = parseVars_loop sg fuel pos data p.
Proof.
  revert pos p. induction fuel as [|fuel IH]; intros pos p Hf.
  - cbn [parseVars_loop]. destruct (Nat.ltb_spec pos (length data)); [lia|done].
  - rewrite (parseVars_loop_S sg (S fuel)), (parseVars_loop_S sg fuel).
    destruct (Nat.ltb_spec pos (length data)) as [Hlt|]; [|done].
    assert (Hn : (pos <= default (length data) (find_from "&"%char pos data))%nat).
    { destruct (find_from "&"%char pos data) as [k|] eqn:E; simpl; [|lia].
      by apply find_from_ge in E. }
    cbn zeta. set (np := default (length data) (find_from "&"%char pos data)) in *.
    destruct (match find_from "="%char pos data with
              | Some eq_pos => _ | None => _ end) as [varname varval].
    apply IH. lia.
Qed.

Lemma eat_line_shorter f (b : bytes) :
  (f < length b)%nat ->
  (length (if (f + 1 =? length b)%nat then [] else erase 0 (f + 1) b) < length b)%nat.
Proof.
  intros Hf. destruct (f + 1 =? length b)%nat; simpl; [lia|].
  unfold erase. rewrite take_0. simpl. rewrite length_drop. lia.
Qed.

Lemma parse_head_shorter sg p b fl p' b' :
  parse_head sg p b = (fl, p', b') ->
  fl = Some (Return false) \/ (length b' < length b)%nat.
Proof.
  unfold parse_head. destruct (find_char LF b) as [f|] eqn:Hf.
  - apply find_char_lt in Hf. pose proof (eat_line_shorter f b Hf) as Hs.
    repeat case_match; intros [= <- <- <-]; right; assumption.
  - intros [= <- <- <-]. by left.
Qed.

(** A round that goes on to the next has taken a line off the buffer. *)
Lemma parse_round_Continue sg p b p' b' :
  parse_round sg p b = (Continue, p', b') -> (length b' < length b)%nat.
Proof.
  unfold parse_round. destruct (seenHeaders p) eqn:Hs; cbn [negb].
  - rewrite Hs. destruct (parse_body sg p b) as [[? ?] ?]. discriminate.
  - destruct (parse_head sg p b) as [[fl p1] b1] eqn:Hh.
    apply parse_head_shorter in Hh. destruct fl as [fl|].
    + intros [= -> <- <-]. destruct Hh as [?|?]; [discriminate|assumption].
    + destruct (seenHeaders p1).
      * destruct (parse_body sg p1 b1) as [[? ?] ?]. discriminate.
      * intros [= <- <-]. destruct Hh as [?|?]; [discriminate|assumption].
Qed.

Lemma parse_loop_is_Some sg fuel p b :
  (length b < fuel)%nat -> is_Some (parse_loop sg fuel p b).
Proof.
  revert p b. induction fuel as [|fuel IH]; intros p b Hf; [lia|].
  cbn [parse_loop]. destruct (bool_decide (b = [])); [by eexists|].
  destruct (parse_round sg p b) as [[[r|] p'] b'] eqn:Hr; [by eexists|].
  apply parse_round_Continue in Hr. apply IH. lia.
Qed.

(** [parse] returns on every parser state and every buffer. *)
Lemma parse_is_Some sg p b : is_Some (parse sg p b).
Proof. apply parse_loop_is_Some. lia. Qed.

(** C4.  From a fresh parser and the chunked response in a string
    buffer, calling [Read] on what is left of the buffer returns true at
    the fourth call (after the header block with the chunk size, the
    chunk, and the empty line that ends it); then [body] is "hello" and
    [getChunks] is false again. *)
Theorem chunked_response_parsed sg :
  exists p strbuf,
    Read_until sg 4 new_Parser chunked_response = Some (4%nat, p, strbuf)
    /\ body p = lit "hello"
    /\ getChunks p = false.
Proof.
  destruct sg.
  - eexists _, _. split; [vm_compute; reflexivity|]. split; reflexivity.
  - eexists _, _. split; [vm_compute; reflexivity|]. split; reflexivity.
Qed.

End http_parser.

(** ** http_parser.cpp: reading from a connection *)

Section http_read_connection.

Import HTTP.

Lemma rev_nil_inv {A} (l : list A) : rev l = [] -> l = [].
Proof.
  intros E. apply (f_equal (@length _)) in E. rewrite length_rev in E. by destruct l.
Qed.

Lemma pop_empty_back_length l : (length (Buffer.pop_empty_back l) <= length l)%nat.
Proof.
  induction l as [|b l IH]; simpl; [lia|]. destruct (bool_decide (b = [])); simpl; lia.
Qed.

(** The rounds [Read_conn] gives its loop are enough.  While the string
    behind [get()] is not empty the loop of the model does not run out
    of them: a round that goes on has merged the back block into the
    block before it, or, when only empty blocks were left, into the
    shared string. *)
Lemma Read_conn_loop_defined sg fuel p data empty :
  (length data < fuel)%nat ->
  Buffer.get data empty <> [] ->
  exists r, Read_conn_loop sg fuel p data empty = Some (Defined r).
Proof.
  revert p data empty. induction fuel as [|fuel IH]; intros p data empty Hf Hne; [lia|].
  cbn [Read_conn_loop]. unfold rbegin_deref.
  destruct (rev (Buffer.get data empty)) as [|c ?] eqn:Hc.
  { apply rev_nil_inv in Hc. done. }
  destruct (bool_decide (c = LF)); cbn [negb].
  { destruct (parse_is_Some sg p (Buffer.get data empty)) as [[[b p'] s] ->].
    destruct (Buffer.set_get s data empty). by eexists. }
  unfold Buffer.size, Buffer.get, Buffer.set_get in *.
  destruct (rev data) as [|b rest] eqn:Hd.
  - cbn. by eexists.
  - cbn [Buffer.pop_empty_back]. rewrite bool_decide_eq_false_2 by done.
    rewrite !rev_involutive.
    destruct (1 <? u32 (Z.of_nat (length (rev (b :: rest))))); [|by eexists].
    cbn zeta iota beta. cbn [Buffer.pop_empty_back].
    rewrite bool_decide_eq_true_2 by done.
    assert (Hl : length data = S (length rest)).
    { rewrite <- (length_rev data), Hd. done. }
    pose proof (pop_empty_back_length rest) as Hp.
    destruct (Buffer.pop_empty_back rest) as [|b' r''] eqn:Hpop.
    + cbn. apply IH; [simpl; lia|]. cbn. by destruct b.
    + cbn zeta iota beta.
      apply IH.
      * rewrite length_rev. simpl in *. lia.
      * rewrite rev_involutive. by destruct b.
Qed.

Lemma Read_conn_empty_string sg p data empty :
  Buffer.get data empty = [] -> Read_conn sg p data empty = Some Undefined.
Proof. intros H. unfold Read_conn. cbn [Read_conn_loop]. by rewrite H. Qed.

(** C9.  One non-empty block in the buffer does not make
    [Read(Socket::Connection &)] defined.  After [append("ab\ncd")] and
    [remove(3)] the buffer holds the block "cd" at its front and the
    emptied block at its back; [Read] starts by dereferencing
    [rbegin()] of the string behind [get()], here the empty back block,
    for a signed and for an unsigned plain [char].  [Buffer::size()]
    drops the empty back block, and after a call of it, as [Proxy]
    makes before the same dereference, [Read] on this buffer returns
    false. *)
Theorem Read_conn_undefined_behind_empty_back :
  snd (Buffer.remove 3 (Buffer.append (lit "ab" ++ [LF] ++ lit "cd") []))
  = [lit "cd"; []]
  /\ Exists (fun b : bytes => b <> []) [lit "cd"; []]
  /\ Read_conn false new_Parser [lit "cd"; []] [] = Some Undefined
  /\ Read_conn true new_Parser [lit "cd"; []] [] = Some Undefined
  /\ Read_conn false new_Parser (snd (Buffer.size [lit "cd"; []])) []
     = Some (Defined (false, new_Parser, [lit "cd"], [])).
Proof.
  split; [vm_compute; reflexivity|]. split; [left; vm_compute; discriminate|].
  split; [|split]; vm_compute; reflexivity.
Qed.

(** The shared string does not stay empty: when the back block does not
    end in a newline and only empty blocks are behind it, the loop
    empties the deque and inserts the block into the string that [get]
    hands out for every buffer without blocks. *)
Lemma Read_conn_writes_shared_string :
  Read_conn false new_Parser [[]; lit "abc"] []
  = Some (Defined (false, new_Parser, [], lit "abc")).
Proof. vm_compute. reflexivity. Qed.

End http_read_connection.

(** ** mp4_conv.cpp: chunk offsets *)

Section mp4_chunk_offsets.

Import MP4.

Lemma sum_list_app a b : sum_list (a ++ b) = sum_list a + sum_list b.
Proof. induction a as [|x a IH]; simpl; lia. Qed.

Lemma part_sizes_app a b : part_sizes (a ++ b) = part_sizes a + part_sizes b.
Proof. unfold part_sizes. by rewrite map_app, sum_list_app. Qed.

Lemma part_sizes_nonneg l : Forall (fun e : Z * Z => 0 <= snd e) l -> 0 <= part_sizes l.
Proof. unfold part_sizes. induction 1; simpl; lia. Qed.

Lemma count_track_app t a b : count_track t (a ++ b) = (count_track t a + count_track t b)%nat.
Proof. unfold count_track. by rewrite filter_app, length_app. Qed.

Lemma count_track_le t l : (count_track t l <= length l)%nat.
Proof. apply length_filter. Qed.

Lemma spec_offsets_app t c a b :
  spec_offsets t c (a ++ b) = spec_offsets t c a ++ spec_offsets t (c + part_sizes a) b.
Proof.
  revert c. induction a as [|[tid sz] a IH]; intros c; simpl.
  - unfold part_sizes. simpl. by rewrite Z.add_0_r.
  - rewrite IH, <- app_assoc. unfold part_sizes. simpl. do 3 f_equal. lia.
Qed.

Lemma length_spec_offsets t c l : length (spec_offsets t c l) = count_track t l.
Proof.
  revert c. induction l as [|[tid sz] l IH]; intros c; [done|].
  simpl. rewrite length_app, IH. unfold count_track.
  rewrite filter_cons. simpl. destruct (Z.eqb_spec tid t).
  - rewrite decide_True by done. done.
  - rewrite decide_False by done. done.
Qed.

(** The entry of the part at position [p]: the cursor advanced by all
    parts before it. *)
Lemma spec_offsets_lookup t c l p sz :
  l !! p = Some (t, sz) ->
  spec_offsets t c l !! count_track t (take p l) = Some (u64 (c + part_sizes (take p l))).
Proof.
  intros Hp.
  assert (spec_offsets t c l = spec_offsets t c (take p l ++ drop p l)) as ->
    by (by rewrite take_drop).
  rewrite spec_offsets_app, lookup_app_r by (rewrite length_spec_offsets; lia).
  rewrite length_spec_offsets, Nat.sub_diag.
  rewrite (drop_S _ _ _ Hp). simpl. rewrite Z.eqb_refl. done.
Qed.

Lemma spec_offsets_other t c tid l :
  tid <> t -> spec_offsets t c (map (fun sz => (tid, sz)) l) = [].
Proof.
  intros Hne. revert c. induction l as [|x l IH]; intros c; simpl; [done|].
  destruct (Z.eqb_spec tid t); [done|]. apply IH.
Qed.

Lemma count_track_other t tid (l : list Z) :
  tid <> t -> count_track t (map (fun sz => (tid, sz)) l) = O.
Proof.
  intros Hne. unfold count_track. induction l as [|x l IH]; [done|].
  simpl. rewrite filter_cons, decide_False by done. done.
Qed.

Lemma count_track_same t (l : list Z) :
  count_track t (map (fun sz => (t, sz)) l) = length l.
Proof.
  unfold count_track. induction l as [|x l IH]; [done|].
  simpl. rewrite filter_cons, decide_True by done. simpl. by rewrite IH.
Qed.

Lemma part_sizes_key tid (l : list Z) : part_sizes (map (fun sz => (tid, sz)) l) = sum_list l.
Proof. unfold part_sizes. rewrite map_map. simpl. by rewrite map_id. Qed.

Lemma setChunkOffset_next v box :
  setChunkOffset v (Z.of_nat (length box)) box = box ++ [u64 v].
Proof.
  unfold setChunkOffset. rewrite Nat2Z.id, Nat.ltb_irrefl, Nat.sub_diag. done.
Qed.

(** The back-patch loop adds [byteOffset] to every entry, modulo 2^64. *)
Lemma patch_loop byteOffset pre suf :
  fold_left (fun box j => setChunkOffset (getChunkOffset j box + byteOffset) j box)
            (map Z.of_nat (seq (length pre) (length suf))) (pre ++ suf)
  = pre ++ map (fun e => u64 (e + byteOffset)) suf.
Proof.
  revert pre. induction suf as [|x suf IH]; intros pre; [done|].
  cbn [length seq map fold_left].
  unfold setChunkOffset at 2, getChunkOffset. rewrite Nat2Z.id.
  assert (length pre < length (pre ++ x :: suf))%nat as Hlt
    by (rewrite length_app; simpl; lia).
  apply Nat.ltb_lt in Hlt. rewrite Hlt.
  rewrite nth_lookup, list_lookup_middle by done. cbn [default from_option id].
  rewrite insert_app_r_alt, Nat.sub_diag by lia. cbn [insert list_insert].
  specialize (IH (pre ++ [u64 (x + byteOffset)])).
  rewrite length_app in IH. cbn [length] in IH.
  rewrite Nat.add_1_r, <- !app_assoc in IH. cbn [app] in IH. exact IH.
Qed.

Lemma patch_spec byteOffset box :
  patch byteOffset box = map (fun e => u64 (e + byteOffset)) box.
Proof. unfold patch. apply (patch_loop byteOffset []). Qed.

Variable keyPart_lt : keyPart -> keyPart -> bool.
Variable decodeVector : bytes -> list Z.
Variable ftyp_boxedSize : Z.
Variable moov_boxedSize : list Track -> Z.

Lemma set_insert_Forall (P : keyPart -> Prop) x s :
  P x -> Forall P s -> Forall P (set_insert keyPart_lt x s).
Proof.
  intros Hx. induction 1 as [|y s Hy Hs IH]; simpl.
  - by constructor.
  - repeat case_match; repeat constructor; done.
Qed.

(** Every element of the [keyParts] set comes from a key of the
    metadata. *)
Lemma collect_keyParts_wf tracks :
  well_formed decodeVector tracks -> Forall (keyPart_wf decodeVector) (collect_keyParts keyPart_lt tracks).
Proof.
  unfold collect_keyParts, well_formed.
  generalize (@nil keyPart) (Forall_nil_2 (keyPart_wf decodeVector)).
  intros kps Hk Hw. revert kps Hk.
  induction Hw as [|tr tracks Htr Hw IH]; intros kps Hk; simpl; [done|].
  apply IH. clear IH Hw. revert kps Hk.
  induction Htr as [|k ks Hk' Hks IH]; intros kps Hk; simpl; [done|].
  apply IH. unfold insert_key. destruct (0 <? k_size k); [|done].
  apply set_insert_Forall; done.
Qed.

Lemma add_parts_spec t c box l :
  Z.of_nat (length box + length l) < 2 ^ 32 ->
  fold_left add_part l (mkStco box (Z.of_nat (length box)) (u64 c))
  = mkStco (box ++ spec_offsets t c (map (fun sz => (t, sz)) l))
           (Z.of_nat (length box + length l)) (u64 (c + sum_list l)).
Proof.
  revert c box. induction l as [|x l IH]; intros c box Hb; simpl.
  - by rewrite app_nil_r, Nat.add_0_r, Z.add_0_r.
  - unfold add_part at 2. cbn [stcoBox total totalByteOffset].
    rewrite setChunkOffset_next, u64_u64, u64_idem_l.
    rewrite u32_small by (simpl in Hb; lia).
    replace (Z.of_nat (length box) + 1) with (Z.of_nat (length (box ++ [u64 c])))
      by (rewrite length_app; simpl; lia).
    rewrite IH by (rewrite length_app; simpl in *; lia).
    rewrite Z.eqb_refl, <- app_assoc, length_app. simpl.
    f_equal; [lia | f_equal; lia].
Qed.

(** The [stco] pass refines the walk of the spec: with the cursor at
    [c] it appends [spec_offsets t c] of the parts it walks. *)
Lemma stco_fold_spec t kps c box :
  Forall (keyPart_wf decodeVector) kps ->
  Z.of_nat (length box + count_track t (interleave decodeVector kps)) < 2 ^ 32 ->
  fold_left (stco_step decodeVector t) kps (mkStco box (Z.of_nat (length box)) (u64 c))
  = mkStco (box ++ spec_offsets t c (interleave decodeVector kps))
           (Z.of_nat (length box + count_track t (interleave decodeVector kps)))
           (u64 (c + part_sizes (interleave decodeVector kps))).
Proof.
  intros Hwf. revert c box. induction Hwf as [|kp kps Hkp Hwf IH]; intros c box Hb.
  - simpl. unfold part_sizes, count_track. simpl.
    by rewrite app_nil_r, Nat.add_0_r, Z.add_0_r.
  - cbn [fold_left]. unfold interleave in *. cbn [flat_map] in *.
    rewrite count_track_app in Hb.
    rewrite spec_offsets_app, count_track_app, part_sizes_app, part_sizes_key.
    unfold stco_step at 2. destruct (Z.eqb_spec (trackID kp) t) as [E|Hne].
    + rewrite E in *. rewrite count_track_same in *.
      rewrite (add_parts_spec t) by lia.
      replace (length box + length (decodeVector (parts kp)))%nat
        with (length (box ++ spec_offsets t c
                               (map (fun sz => (t, sz)) (decodeVector (parts kp)))))
        by (rewrite length_app, length_spec_offsets, count_track_same; done).
      rewrite IH.
      * rewrite <- app_assoc, length_app, length_spec_offsets, count_track_same.
        f_equal; [lia | f_equal; lia].
      * rewrite length_app, length_spec_offsets, count_track_same. lia.
    + rewrite count_track_other in * by done. rewrite spec_offsets_other by done.
      cbn [stcoBox total totalByteOffset app]. rewrite u64_idem_l, Hkp.
      rewrite IH by lia. rewrite Nat.add_0_l, Z.add_assoc. done.
Qed.

Lemma stco_pass_spec t kps :
  Forall (keyPart_wf decodeVector) kps ->
  Z.of_nat (count_track t (interleave decodeVector kps)) < 2 ^ 32 ->
  stco_pass decodeVector t kps
  = mkStco (spec_offsets t 0 (interleave decodeVector kps))
           (Z.of_nat (count_track t (interleave decodeVector kps)))
           (u64 (part_sizes (interleave decodeVector kps))).
Proof.
  intros Hwf Hb. unfold stco_pass.
  change (mkStco [] 0 0) with (mkStco [] (Z.of_nat (length (@nil Z))) (u64 0)).
  rewrite stco_fold_spec by done. done.
Qed.

(** C1.  For well-formed metadata of a fixed stream, in the header built
    by [DTSCMeta2MP4Header], the [stco] table of every track has one
    entry per part of that track in the [keyParts] set, and the entry of
    the part at position [p] of the interleave order, which is part
    number [count_track t (take p parts)] of its track, is
    [ftyp.boxedSize() + moov.boxedSize() + 8] plus the sizes of all
    parts, of any track, before position [p].  The sizes are those of a
    run inside the function's 64-bit offsets and 32-bit part counter
    ([representable]). *)
Theorem stco_chunk_offsets (tracks : list Track) (n : nat) (tr : Track) (box : list Z) :
  well_formed decodeVector tracks ->
  representable keyPart_lt decodeVector ftyp_boxedSize moov_boxedSize tracks ->
  tracks !! n = Some tr ->
  stco (DTSCMeta2MP4Header keyPart_lt decodeVector ftyp_boxedSize moov_boxedSize tracks) !! n
  = Some box ->
  let parts :=
    interleave decodeVector
      (keyParts (DTSCMeta2MP4Header keyPart_lt decodeVector
                   ftyp_boxedSize moov_boxedSize tracks)) in
  length box = count_track (t_trackid tr) parts
  /\ forall p sz,
       parts !! p = Some (t_trackid tr, sz) ->
       box !! count_track (t_trackid tr) (take p parts)
       = Some (ftyp_boxedSize + moov_boxedSize tracks + 8 + part_sizes (take p parts)).
Proof.
  intros Hwf (Hh & Hpos & Hmax & Hcnt) Htr Hbox.
  unfold DTSCMeta2MP4Header in *. cbn [stco keyParts] in *.
  set (kps := collect_keyParts keyPart_lt tracks) in *.
  set (I := interleave decodeVector kps) in *.
  rewrite !list_lookup_fmap, Htr in Hbox. cbn in Hbox. injection Hbox as <-.
  pose proof (count_track_le (t_trackid tr) I) as Hle.
  rewrite stco_pass_spec by (try apply collect_keyParts_wf; try done; fold I; lia).
  cbn [stcoBox]. rewrite patch_spec. fold I. cbn zeta. split.
  - by rewrite length_map, length_spec_offsets.
  - intros p sz Hp. rewrite list_lookup_fmap, (spec_offsets_lookup _ _ _ _ _ Hp).
    cbn. f_equal. rewrite u64_add, Z.add_0_l.
    assert (Hsplit : part_sizes I = part_sizes (take p I) + part_sizes (drop p I))
      by (by rewrite <- part_sizes_app, take_drop).
    assert (0 <= part_sizes (take p I)).
    { apply part_sizes_nonneg, Forall_take, Hpos. }
    assert (0 <= part_sizes (drop p I)).
    { apply part_sizes_nonneg, Forall_drop, Hpos. }
    rewrite u64_small by lia. lia.
Qed.

End mp4_chunk_offsets.

(** The two-track stream of [sample_tracks] with an [ftyp] of 32 bytes
    and a [moov] of 1000: the audio part, second in the interleave
    order, sits 1000 bytes behind the end of the header. *)
Lemma stco_chunk_offsets_witness :
  MP4.stco (MP4.DTSCMeta2MP4Header MP4.sample_lt MP4.sample_decode 32 (fun _ => 1000)
              MP4.sample_tracks) !! 1%nat = Some [2040]
  /\ [2040] !! O = Some (32 + 1000 + 8 + 1000).
Proof.
  split; [vm_compute; reflexivity|].
  apply (proj2 (stco_chunk_offsets MP4.sample_lt MP4.sample_decode 32 (fun _ => 1000)
                  MP4.sample_tracks 1
                  (MP4.mkTrack (lit "track2") 2
                     [MP4.mkKey 200 10 23 (map to_char [0; 200]) 1])
                  [2040]
                  ltac:(repeat constructor)
                  ltac:(vm_compute; repeat split; try discriminate; repeat constructor;
                        discriminate)
                  eq_refl ltac:(vm_compute; reflexivity)) 1%nat 200).
  vm_compute. reflexivity.
Defined.

(** * Further properties of the code *)

(** ** dtsc.h: the ordering of live positions *)

Section live_positions.

Import DTSC.

(** X1.  [livePos::operator<] is a strict total order that agrees with
    [operator==]: no position is less than itself, the order is
    transitive, two positions of which neither is less than the other
    are equal, and [operator!=] is the negation of [operator==]. *)
Theorem livePos_lt_strict_total_order :
  (forall a, livePos_lt a a = false)
  /\ (forall a b c, livePos_lt a b = true -> livePos_lt b c = true -> livePos_lt a c = true)
  /\ (forall a b, livePos_lt a b = false -> livePos_lt b a = false -> livePos_eq a b = true)
  /\ (forall a b, livePos_ne a b = negb (livePos_eq a b)).
Proof.
  unfold livePos_lt, livePos_eq, livePos_ne. repeat split.
  - intros a. by rewrite !Z.ltb_irrefl, Z.eqb_refl.
  - intros a b c. repeat case_match; try congruence; lia.
  - intros a b. repeat case_match; try congruence; simpl; lia.
  - intros a b. by rewrite negb_andb.
Qed.

End live_positions.

(** ** socket.cpp: the other operations of the byte buffer *)

Section socket_buffer_operations.

Import Buffer.

Lemma copy_loop_remove_loop i count ret rblocks :
  copy_loop i count ret rblocks = fst (remove_loop i count ret rblocks).
Proof.
  revert i ret. induction rblocks as [|b rest IH]; intros i ret; [reflexivity|].
  cbn [copy_loop remove_loop]. destruct (i + Z.of_nat (length b) <? count); [|reflexivity].
  rewrite IH. by destruct (remove_loop _ _ _ rest).
Qed.

(** X2.  [Buffer::copy] returns, for every deque and every count, the
    string that [Buffer::remove] would return. *)
Theorem copy_returns_what_remove_returns (count : Z) (data : deque) :
  copy count data = fst (remove count data).
Proof.
  unfold copy, remove. destruct (available count data); simpl; [|reflexivity].
  rewrite copy_loop_remove_loop. by destruct (remove_loop _ _ _ _).
Qed.

(** [remove] on any deque whose counters do not wrap. *)
Lemma remove_spec count data :
  total data < 2 ^ 32 -> data <> [] -> 0 <= count <= total data ->
  fst (remove count data) = take (Z.to_nat count) (contents data)
  /\ contents (snd (remove count data)) = drop (Z.to_nat count) (contents data).
Proof.
  intros Hb Hne Hc. unfold remove, available.
  rewrite available_loop_spec by (pose proof (total_nonneg data); lia).
  rewrite bool_decide_eq_true_2 by (split; [done|lia]). cbn [negb].
  pose proof (remove_loop_spec 0 count [] (rev data)) as H.
  destruct (remove_loop 0 count [] (rev data)) as [r rb].
  destruct H as [H1 H2].
  - lia.
  - rewrite total_rev. lia.
  - lia.
  - intros E. apply (f_equal (@length _)) in E. rewrite length_rev in E.
    destruct data; [done|simpl in E; lia].
  - simpl. rewrite Z.sub_0_r in *. split; [done|].
    unfold contents. by rewrite rev_involutive.
Qed.

Lemma contents_prepend x data : contents (prepend x data) = x ++ contents data.
Proof. unfold contents, prepend. rewrite rev_app_distr. reflexivity. Qed.

Lemma total_contents data : Z.of_nat (length (contents data)) = total data.
Proof. unfold contents. fold (total (rev data)). apply total_rev. Qed.

(** X3.  [Buffer::prepend] puts its string at the reading end: while the
    buffer holds fewer than 2^32 bytes, a [remove] of as many bytes as
    were prepended returns exactly that string and leaves the bytes that
    were there before. *)
Theorem prepend_then_remove (x : bytes) (data : deque) :
  Z.of_nat (length x) + total data < 2 ^ 32 ->
  fst (remove (Z.of_nat (length x)) (prepend x data)) = x
  /\ contents (snd (remove (Z.of_nat (length x)) (prepend x data))) = contents data.
Proof.
  intros Hb.
  assert (Ht : total (prepend x data) = Z.of_nat (length x) + total data).
  { rewrite <- !total_contents, contents_prepend, length_app. lia. }
  pose proof (total_nonneg data).
  destruct (remove_spec (Z.of_nat (length x)) (prepend x data)) as [H1 H2].
  - lia.
  - unfold prepend. by destruct data.
  - lia.
  - rewrite H1, H2, contents_prepend, Nat2Z.id.
    by rewrite take_app_length, drop_app_length.
Qed.

Lemma prepend_then_remove_witness :
  fst (remove 2 (prepend (lit "GE") (append (lit "T /") []))) = lit "GE"
  /\ contents (snd (remove 2 (prepend (lit "GE") (append (lit "T /") [])))) = lit "T /".
Proof.
  apply (prepend_then_remove (lit "GE") (append (lit "T /") [])).
  vm_compute. reflexivity.
Defined.

Lemma contents_pop_empty_back rdata : concat (pop_empty_back rdata) = concat rdata.
Proof.
  induction rdata as [|b rest IH]; [reflexivity|]. cbn [pop_empty_back].
  destruct (decide (b = [])) as [->|Hb].
  - rewrite bool_decide_eq_true_2 by done. by rewrite IH.
  - by rewrite bool_decide_eq_false_2.
Qed.

Lemma pop_empty_back_head rdata b rest :
  pop_empty_back rdata = b :: rest -> b <> [].
Proof.
  induction rdata as [|c rdata IH]; [done|]. cbn [pop_empty_back].
  destruct (decide (c = [])) as [->|Hc].
  - rewrite bool_decide_eq_true_2 by done. apply IH.
  - rewrite bool_decide_eq_false_2 by done. congruence.
Qed.

Lemma pop_empty_back_nil rdata : pop_empty_back rdata = [] <-> concat rdata = [].
Proof.
  induction rdata as [|c rdata IH]; [done|]. cbn [pop_empty_back].
  destruct (decide (c = [])) as [->|Hc].
  - rewrite bool_decide_eq_true_2 by done. simpl. apply IH.
  - rewrite bool_decide_eq_false_2 by done. simpl. split; [done|].
    intros H. apply app_eq_nil in H. tauto.
Qed.

(** X4.  [Buffer::size] drops the empty blocks at the reading end and
    nothing else: the bytes held stay the same, the block then read
    first is not empty, and (with fewer than 2^32 blocks) the count is
    zero exactly when the buffer holds no byte. *)
Theorem size_drops_empty_blocks (data : deque) :
  Z.of_nat (length data) < 2 ^ 32 ->
  contents (snd (size data)) = contents data
  /\ (forall b, last (snd (size data)) = Some b -> b <> [])
  /\ (fst (size data) = 0 <-> contents data = []).
Proof.
  intros Hb. unfold size. cbn [fst snd]. repeat split.
  - unfold contents. by rewrite rev_involutive, contents_pop_empty_back.
  - intros b Hl. destruct (pop_empty_back (rev data)) as [|c rest] eqn:E; [done|].
    simpl in Hl. rewrite last_snoc in Hl. injection Hl as <-.
    by apply pop_empty_back_head in E.
  - intros H. unfold contents. apply pop_empty_back_nil.
    rewrite length_rev in H.
    assert (Hle : (length (pop_empty_back (rev data)) <= length data)%nat).
    { rewrite <- (length_rev data). generalize (rev data). intros l.
      induction l as [|c l IH]; [done|]. cbn [pop_empty_back].
      destruct (bool_decide (c = [])); simpl in *; lia. }
    unfold u32 in H. rewrite Z.mod_small in H by lia.
    destruct (pop_empty_back (rev data)); [done|simpl in H; lia].
  - intros H. unfold contents in H. apply pop_empty_back_nil in H. by rewrite H.
Qed.

Lemma size_drops_empty_blocks_witness :
  contents (snd (size [lit "ab"; []; []])) = contents [lit "ab"; []; []]
  /\ (forall b, last (snd (size [lit "ab"; []; []])) = Some b -> b <> [])
  /\ (fst (size [lit "ab"; []; []]) = 0 <-> contents [lit "ab"; []; []] = []).
Proof. apply (size_drops_empty_blocks [lit "ab"; []; []]). simpl. lia. Defined.

Lemma bytes_loop_spec i max blocks :
  0 <= i -> i < max -> i + total blocks < 2 ^ 32 ->
  bytes_loop i max blocks = Z.min max (i + total blocks).
Proof.
  revert i. induction blocks as [|b blocks IH]; intros i Hi Hm Hb.
  - cbn [bytes_loop]. unfold total. simpl. lia.
  - cbn [bytes_loop]. rewrite total_cons in *. pose proof (total_nonneg blocks).
    unfold u32. rewrite Z.mod_small by lia.
    destruct (Z.leb_spec max (i + Z.of_nat (length b))); [lia|].
    rewrite IH by lia. lia.
Qed.

(** X5.  The two size queries of a buffer that holds fewer than 2^32
    bytes: [Buffer::bytes(max)] is the number of bytes held, capped at
    [max]; [Buffer::available(count)] holds exactly when the deque has a
    block and holds at least [count] bytes, so that a buffer without
    blocks has not even zero bytes available. *)
Theorem bytes_and_available (max count : Z) (data : deque) :
  total data < 2 ^ 32 ->
  (0 <= max -> bytes_ max data = Z.min max (total data))
  /\ (available count data = true <-> data <> [] /\ count <= total data).
Proof.
  intros Hb. split.
  - intros Hm. unfold bytes_. destruct (decide (max = 0)) as [->|Hne].
    + pose proof (total_nonneg data). destruct data as [|b data]; cbn [bytes_loop].
      * reflexivity.
      * destruct (Z.leb_spec 0 (u32 (0 + Z.of_nat (length b)))); [lia|].
        unfold u32 in *. pose proof (Z.mod_pos_bound (0 + Z.of_nat (length b)) (2 ^ 32)). lia.
    + rewrite bytes_loop_spec by lia. lia.
  - unfold available. rewrite available_loop_spec by lia.
    rewrite bool_decide_eq_true. by rewrite Z.add_0_l.
Qed.

Lemma bytes_and_available_witness :
  (0 <= 4 -> bytes_ 4 [lit "abc"; lit "de"] = Z.min 4 (total [lit "abc"; lit "de"]))
  /\ (available 6 [lit "abc"; lit "de"] = true
      <-> [lit "abc"; lit "de"] <> [] /\ 6 <= total [lit "abc"; lit "de"]).
Proof. apply (bytes_and_available 4 6 [lit "abc"; lit "de"]). vm_compute. reflexivity. Defined.

(** X6.  [Buffer::append] of an array neither loses nor reorders a byte,
    however it cuts its input into blocks: the bytes held afterwards are
    the bytes held before followed by the input.  [append] of a
    [std::string] passes the size on as an [unsigned int] and so appends
    the first [size() mod 2^32] bytes of the string: all of it when it
    has fewer than 2^32 bytes, and then it is [append] of its bytes.
    Every block that either of them stores has at least one byte and at
    most [BUFFER_BLOCKSIZE + 1], and a newline only as its last byte;
    blocks already in the deque that satisfy this are left so. *)
Theorem append_keeps_bytes_and_bounds_blocks (newdata : bytes) (data : deque) :
  contents (append newdata data) = contents data ++ newdata
  /\ contents (append_string newdata data)
     = contents data ++ take (Z.to_nat (Z.of_nat (length newdata) mod 2 ^ 32)) newdata
  /\ (Z.of_nat (length newdata) < 2 ^ 32 ->
      append_string newdata data = append newdata data)
  /\ (Forall block_inv data ->
      Forall block_inv (append newdata data)
      /\ Forall block_inv (append_string newdata data)).
Proof.
  unfold append_string, append, u32. split; [|split; [|split]].
  - apply append_loop_contents. lia.
  - apply append_loop_contents. lia.
  - intros H. rewrite Z.mod_small by lia. by rewrite Nat2Z.id, firstn_all.
  - intros H. split; by apply append_loop_inv.
Qed.

Lemma append_keeps_bytes_and_bounds_blocks_witness :
  Forall block_inv (append (lit "ab" ++ [LF] ++ lit "cd") [])
  /\ Forall block_inv (append_string (lit "ab" ++ [LF] ++ lit "cd") []).
Proof.
  apply (proj2 (proj2 (proj2 (append_keeps_bytes_and_bounds_blocks
                                (lit "ab" ++ [LF] ++ lit "cd") [])))).
  apply Forall_nil_2.
Defined.

End socket_buffer_operations.

(** ** flv_tag.cpp: classification, length trailer and builders *)

(** Reading a byte back through the writes of a builder. *)
Ltac rd_simpl :=
  repeat first
    [ rewrite block_poke
    | rewrite rd_wr_ne by lia
    | rewrite rd_wr_eq by (rewrite ?length_wr, ?length_memcpy; lia) ].

Section flv_tag_fields.

Import FLV.

Lemma land_schar_15 c : Z.land (schar c) 15 = Z.land (uchar c) 15.
Proof. destruct c as [[] [] [] [] [] [] [] []]; vm_compute; reflexivity. Qed.

Lemma land_schar_240 c : Z.land (schar c) 240 = Z.land (uchar c) 240.
Proof. destruct c as [[] [] [] [] [] [] [] []]; vm_compute; reflexivity. Qed.

Lemma schar_eqb c k : 0 <= k < 128 -> (schar c =? k) = (uchar c =? k).
Proof.
  intros Hk. unfold schar. pose proof (uchar_range c).
  destruct (Z.ltb_spec (uchar c) 128); [reflexivity|].
  destruct (Z.eqb_spec (uchar c - 256) k), (Z.eqb_spec (uchar c) k); try reflexivity; lia.
Qed.

(** X7.  The four classifiers of a tag, [needsInitData], [isInitData],
    [getVideoCodec] and [getAudioCodec], give the same answer whether the
    plain [char] is signed or unsigned: they compare [data[0]] and
    [data[12]] with values below 128 and mask [data[11]] with [0x0F] or
    [0xF0]. *)
Theorem classifiers_ignore_char_signedness (t : Tag) :
  needsInitData true t = needsInitData false t
  /\ isInitData true t = isInitData false t
  /\ getVideoCodec true t = getVideoCodec false t
  /\ getAudioCodec true t = getAudioCodec false t.
Proof.
  unfold needsInitData, isInitData, getVideoCodec, getAudioCodec, at_, char_val.
  rewrite !land_schar_15, !land_schar_240, !schar_eqb by lia. done.
Qed.

Lemma block_copy_in off src n t :
  block (copy_in off src n t) = memcpy (block t) off src n.
Proof.
  unfold block, copy_in. destruct t as [? ? [d|] ? ? ?]; simpl; [reflexivity|].
  unfold memcpy. destruct (off <? 0); [reflexivity|].
  generalize (Z.to_nat off). induction (take (Z.to_nat n) src); intros; simpl; auto.
Qed.

Lemma memcpy_at_lookup_lt off src dst i :
  (i < off)%nat -> memcpy_at off src dst !! i = dst !! i.
Proof.
  revert off dst. induction src as [|c src IH]; intros off dst Hi; [reflexivity|].
  cbn [memcpy_at]. rewrite IH by lia. apply list_lookup_insert_ne. lia.
Qed.

Lemma memcpy_at_lookup_ge off src dst i :
  (off + length src <= i)%nat -> memcpy_at off src dst !! i = dst !! i.
Proof.
  revert off dst. induction src as [|c src IH]; intros off dst Hi; [reflexivity|].
  cbn [memcpy_at]. simpl in Hi. rewrite IH by lia. apply list_lookup_insert_ne. lia.
Qed.

Lemma memcpy_at_lookup_in off src dst i :
  (i < length src)%nat -> (off + i < length dst)%nat ->
  memcpy_at off src dst !! (off + i)%nat = src !! i.
Proof.
  revert off dst i. induction src as [|c src IH]; intros off dst i Hi Hd; [simpl in Hi; lia|].
  cbn [memcpy_at]. destruct i as [|i].
  - rewrite Nat.add_0_r, memcpy_at_lookup_lt by lia.
    rewrite list_lookup_insert_eq by lia. reflexivity.
  - replace (off + S i)%nat with (S off + i)%nat by lia.
    rewrite IH; [reflexivity|simpl in Hi; lia|rewrite length_insert; lia].
Qed.

Lemma rd_memcpy_out d off src n i :
  0 <= off -> 0 <= n -> i < off \/ off + n <= i ->
  rd (memcpy d off src n) i = rd d i.
Proof.
  intros Ho Hn Hi. unfold rd, memcpy.
  destruct (off <? 0) eqn:E; [lia|]. destruct (i <? 0) eqn:E'; [reflexivity|].
  rewrite !nth_lookup. f_equal. destruct Hi as [Hi|Hi].
  - apply memcpy_at_lookup_lt. lia.
  - apply memcpy_at_lookup_ge. rewrite length_take. lia.
Qed.

Lemma rd_memcpy_in d off src n i :
  0 <= off -> 0 <= i < n -> i < Z.of_nat (length src) -> off + i < Z.of_nat (length d) ->
  rd (memcpy d off src n) (off + i) = rd src i.
Proof.
  intros Ho Hi Hs Hd. unfold rd, memcpy.
  destruct (off <? 0) eqn:E; [lia|].
  destruct (off + i <? 0) eqn:E1; [lia|]. destruct (i <? 0) eqn:E2; [lia|].
  rewrite !nth_lookup. f_equal.
  replace (Z.to_nat (off + i)) with (Z.to_nat off + Z.to_nat i)%nat by lia.
  rewrite memcpy_at_lookup_in by (rewrite ?length_take; lia).
  apply lookup_take_lt. lia.
Qed.

Lemma block_setLen t :
  block (setLen t)
  = wr (len t - 4) (to_char (Z.land (Z.shiftr (Z.shiftr (Z.shiftr (s32 (len t - 4)) 8) 8) 8) 255))
      (wr (len t - 3) (to_char (Z.land (Z.shiftr (Z.shiftr (s32 (len t - 4)) 8) 8) 255))
         (wr (len t - 2) (to_char (Z.land (Z.shiftr (s32 (len t - 4)) 8) 255))
            (wr (len t - 1) (to_char (Z.land (s32 (len t - 4)) 255)) (block t)))).
Proof. unfold setLen. rewrite !block_poke. reflexivity. Qed.

Lemma length_block_setLen t : length (block (setLen t)) = length (block t).
Proof. rewrite block_setLen, !length_wr. reflexivity. Qed.

Lemma len_setLen t : len (setLen t) = len t.
Proof. reflexivity. Qed.

(** The value of four bytes in network order. *)
Lemma trailer_value v :
  0 <= v < 2 ^ 32 ->
  uchar (to_char (Z.land (Z.shiftr (Z.shiftr (Z.shiftr v 8) 8) 8) 255)) * 2 ^ 24
  + uchar (to_char (Z.land (Z.shiftr (Z.shiftr v 8) 8) 255)) * 2 ^ 16
  + uchar (to_char (Z.land (Z.shiftr v 8) 255)) * 2 ^ 8
  + uchar (to_char (Z.land v 255)) = v.
Proof.
  intros Hv. rewrite !byte_of_land, !Z.shiftr_div_pow2 by lia.
  change (2 ^ 32) with 4294967296 in *. change (2 ^ 16) with 65536.
  change (2 ^ 8) with 256. change (2 ^ 24) with 16777216.
  Z.div_mod_to_equations. lia.
Qed.

(** X8.  [Tag::setLen] on a tag of [len] bytes, [4 <= len], in a buffer
    that holds them: the last four bytes of the tag then are [len - 4]
    in network byte order (the PreviousTagSize), and no byte before them
    is changed. *)
Theorem setLen_writes_trailer (t : Tag) :
  4 <= len t < 2 ^ 31 ->
  len t <= Z.of_nat (length (block t)) ->
  uchar (rd (block (setLen t)) (len t - 4)) * 2 ^ 24
  + uchar (rd (block (setLen t)) (len t - 3)) * 2 ^ 16
  + uchar (rd (block (setLen t)) (len t - 2)) * 2 ^ 8
  + uchar (rd (block (setLen t)) (len t - 1)) = len t - 4
  /\ forall i, 0 <= i < len t - 4 -> rd (block (setLen t)) i = rd (block t) i.
Proof.
  intros Hl Hb. rewrite block_setLen. split.
  - rd_simpl. rewrite s32_small by lia. apply trailer_value. lia.
  - intros i Hi. rd_simpl. reflexivity.
Qed.

Lemma setLen_writes_trailer_witness :
  uchar (rd (block (setLen zero_tag)) (15 - 4)) * 2 ^ 24
  + uchar (rd (block (setLen zero_tag)) (15 - 3)) * 2 ^ 16
  + uchar (rd (block (setLen zero_tag)) (15 - 2)) * 2 ^ 8
  + uchar (rd (block (setLen zero_tag)) (15 - 1)) = 15 - 4
  /\ forall i, 0 <= i < 15 - 4 -> rd (block (setLen zero_tag)) i = rd (block zero_tag) i.
Proof. apply (setLen_writes_trailer zero_tag); simpl; lia. Defined.

End flv_tag_fields.

(** ** flv_tag.cpp: what the builders put into a tag *)

Section flv_builders.

Import FLV.

Lemma block_tagTime_set T t :
  block (tagTime_set T t)
  = wr 7 (to_char (Z.land (Z.shiftr T 24) 255))
      (wr 6 (to_char (Z.land T 255))
         (wr 5 (to_char (Z.land (Z.shiftr T 8) 255))
            (wr 4 (to_char (Z.land (Z.shiftr T 16) 255)) (block t)))).
Proof. unfold tagTime_set. rewrite !block_poke. reflexivity. Qed.

(** The getter on a block whose bytes 4 to 7 the setter wrote. *)
Lemma tagTime_set_get T t :
  0 <= T < 2 ^ 32 -> 8 <= Z.of_nat (length (block t)) ->
  tagTime false (tagTime_set T t) = T.
Proof.
  intros HT Hlen. unfold tagTime, at_, char_val. rewrite block_tagTime_set.
  rd_simpl.
  rewrite !byte_of_land, !Z.shiftr_div_pow2, !Z.shiftl_mul_pow2 by lia.
  unfold u32.
  change (2 ^ 32) with 4294967296 in *. change (2 ^ 16) with 65536.
  change (2 ^ 8) with 256. change (2 ^ 24) with 16777216.
  Z.div_mod_to_equations. lia.
Qed.

Lemma len_announced_len t :
  len (announced_len false t)
  = uchar (rd (block t) 3) + 15 + uchar (rd (block t) 2) * 256
    + uchar (rd (block t) 1) * 65536.
Proof.
  unfold announced_len, block. cbn [len with_len data buf done].
  fold (block t). unfold at_, char_val.
  pose proof (uchar_range (rd (block t) 3)) as H3.
  pose proof (uchar_range (rd (block t) 2)) as H2.
  pose proof (uchar_range (rd (block t) 1)) as H1.
  set (a3 := uchar (rd (block t) 3)) in *. set (a2 := uchar (rd (block t) 2)) in *.
  set (a1 := uchar (rd (block t) 1)) in *.
  rewrite !Z.shiftl_mul_pow2 by lia.
  change (2 ^ 8) with 256. change (2 ^ 16) with 65536.
  rewrite (s32_small (a3 + 15)) by (change (2 ^ 31) with 2147483648; lia).
  rewrite (s32_small (a3 + 15 + a2 * 256)) by (change (2 ^ 31) with 2147483648; lia).
  rewrite s32_small by (change (2 ^ 31) with 2147483648; lia).
  reflexivity.
Qed.

(** The three bytes of a 24-bit length in network order. *)
Lemma len24_value v :
  0 <= v < 2 ^ 24 ->
  uchar (to_char (Z.land v 255)) + 15
  + uchar (to_char (Z.land (Z.shiftr v 8) 255)) * 256
  + uchar (to_char (Z.land (Z.shiftr v 16) 255)) * 65536 = v + 15.
Proof.
  intros Hv. rewrite !byte_of_land, !Z.shiftr_div_pow2 by lia.
  change (2 ^ 24) with 16777216 in *. change (2 ^ 16) with 65536.
  change (2 ^ 8) with 256.
  Z.div_mod_to_equations. lia.
Qed.

(** X9.  [Tag::ChunkLoader] on a chunk of fewer than 2^24 payload bytes,
    when the buffer could be had: the tag is 15 bytes longer than the
    payload, starts with the chunk's message type, announces its own
    length in bytes 1 to 3 (as the loaders compute it), carries the
    chunk's timestamp, holds the payload from byte 11 on and ends with
    its PreviousTagSize. *)
Theorem ChunkLoader_builds_tag (r : realloc_result) (O : Chunk) (t : Tag) :
  Tag_wf t ->
  0 <= c_len O < 2 ^ 24 ->
  c_len O <= Z.of_nat (length (c_data O)) ->
  0 <= c_timestamp O < 2 ^ 32 ->
  fst (ChunkLoader r O t) = true ->
  let t' := snd (ChunkLoader r O t) in
  len t' = c_len O + 15
  /\ rd (block t') 0 = to_char (c_msg_type_id O)
  /\ len (announced_len false t') = len t'
  /\ tagTime false t' = c_timestamp O
  /\ (forall i, 0 <= i < c_len O -> rd (block t') (11 + i) = rd (c_data O) i)
  /\ uchar (rd (block t') (len t' - 4)) * 2 ^ 24
     + uchar (rd (block t') (len t' - 3)) * 2 ^ 16
     + uchar (rd (block t') (len t' - 2)) * 2 ^ 8
     + uchar (rd (block t') (len t' - 1)) = len t' - 4.
Proof.
  intros Hwf Hl Hd HT. unfold ChunkLoader. cbn [len with_len].
  change (2 ^ 24) with 16777216 in *.
  rewrite s32_small by (change (2 ^ 31) with 2147483648; lia).
  destruct (Z.ltb_spec 0 (c_len O + 15)) as [_|]; [|lia].
  destruct (checkBufferSize r (with_len (c_len O + 15) t)) as [ok t1] eqn:Hc.
  destruct ok; [|intros [=]]. cbn [negb fst snd]. intros _.
  destruct (checkBufferSize_grown r (with_len (c_len O + 15) t) t1 Hwf ltac:(cbn; lia) Hc)
    as (Hwf1 & Hl1 & Hlen1 & _ & _ & _).
  cbn [len with_len] in Hl1, Hlen1.
  set (t2 := copy_in 11 (c_data O) (c_len O) t1).
  assert (Hl2 : len t2 = c_len O + 15) by (cbn; lia).
  assert (Hb2 : length (block t2) = length (block t1))
    by (unfold t2; rewrite block_copy_in; apply length_memcpy).
  assert (Hlen : len (tagTime_set (c_timestamp O)
                   (poke 1 (to_char (Z.land (Z.shiftr (c_len O) 16) 255))
                      (poke 2 (to_char (Z.land (Z.shiftr (c_len O) 8) 255))
                         (poke 3 (to_char (Z.land (c_len O) 255))
                            (poke 0 (to_char (c_msg_type_id O)) (setLen t2))))))
                 = c_len O + 15) by (cbn; lia).
  cbv zeta. rewrite Hlen. split; [reflexivity|].
  split; [|split; [|split; [|split]]].
  - rewrite block_tagTime_set, !block_poke, block_setLen, Hl2. rd_simpl. reflexivity.
  - rewrite len_announced_len.
    rewrite block_tagTime_set, !block_poke, block_setLen, Hl2. rd_simpl.
    apply len24_value. lia.
  - apply tagTime_set_get; [lia|].
    rewrite !block_poke, !length_wr, length_block_setLen. lia.
  - intros i Hi.
    rewrite block_tagTime_set, !block_poke, block_setLen, Hl2. rd_simpl.
    unfold t2. rewrite block_copy_in. apply rd_memcpy_in; lia.
  - rewrite block_tagTime_set, !block_poke, block_setLen, Hl2. rd_simpl.
    rewrite s32_small by (change (2 ^ 31) with 2147483648; lia).
    replace (c_len O + 15 - 4) with (c_len O + 11) by lia.
    apply trailer_value. lia.
Qed.

Lemma ChunkLoader_builds_tag_witness :
  let t' := snd (ChunkLoader (ReallocOk []) (mkChunk 3 (lit "abc") 9 1000) empty_Tag) in
  len t' = 3 + 15
  /\ rd (block t') 0 = to_char 9
  /\ len (announced_len false t') = len t'
  /\ tagTime false t' = 1000
  /\ (forall i, 0 <= i < 3 -> rd (block t') (11 + i) = rd (lit "abc") i)
  /\ uchar (rd (block t') (len t' - 4)) * 2 ^ 24
     + uchar (rd (block t') (len t' - 3)) * 2 ^ 16
     + uchar (rd (block t') (len t' - 2)) * 2 ^ 8
     + uchar (rd (block t') (len t' - 1)) = len t' - 4.
Proof.
  apply (ChunkLoader_builds_tag (ReallocOk []) (mkChunk 3 (lit "abc") 9 1000) empty_Tag);
    [reflexivity | simpl; lia | simpl; lia | simpl; lia | reflexivity].
Defined.

End flv_builders.

(** ** flv_tag.cpp: the tags built from DTSC data *)

Section flv_dtsc_builders.

Import FLV.

Lemma len_poke i c t : len (poke i c t) = len t.
Proof. reflexivity. Qed.
Lemma len_copy_in off src n t : len (copy_in off src n t) = len t.
Proof. reflexivity. Qed.
Lemma len_bump i k t : len (bump i k t) = len t.
Proof. reflexivity. Qed.
Lemma len_tagTime_set T t : len (tagTime_set T t) = len t.
Proof. reflexivity. Qed.
Lemma len_put_len24 v t : len (put_len24 v t) = len t.
Proof. reflexivity. Qed.
Lemma len_zero_stream_id t : len (zero_stream_id t) = len t.
Proof. reflexivity. Qed.
Lemma len_if (c : bool) (t1 t2 : Tag) :
  len t1 = len t2 -> len (if c then t1 else t2) = len t2.
Proof. by destruct c. Qed.
Lemma len_audio_bits codec rate size channels t :
  len (audio_bits codec rate size channels t) = len t.
Proof. unfold audio_bits. repeat case_match; reflexivity. Qed.

Lemma length_block_poke i c t : length (block (poke i c t)) = length (block t).
Proof. rewrite block_poke. apply length_wr. Qed.
Lemma length_block_copy_in off src n t :
  length (block (copy_in off src n t)) = length (block t).
Proof. rewrite block_copy_in. apply length_memcpy. Qed.
Lemma length_block_bump i k t : length (block (bump i k t)) = length (block t).
Proof. apply length_block_poke. Qed.
Lemma length_block_tagTime_set T t : length (block (tagTime_set T t)) = length (block t).
Proof. rewrite block_tagTime_set, !length_wr. reflexivity. Qed.
Lemma length_block_put_len24 v t : length (block (put_len24 v t)) = length (block t).
Proof. unfold put_len24. by rewrite !length_block_poke. Qed.
Lemma length_block_zero_stream_id t : length (block (zero_stream_id t)) = length (block t).
Proof. unfold zero_stream_id. by rewrite !length_block_poke. Qed.
Lemma length_block_if_bump (c : bool) i k t :
  length (block (if c then bump i k t else t)) = length (block t).
Proof. destruct c; [apply length_block_bump|reflexivity]. Qed.
Lemma length_block_audio_bits codec rate size channels t :
  length (block (audio_bits codec rate size channels t)) = length (block t).
Proof.
  unfold audio_bits.
  repeat case_match; rewrite ?length_block_bump, ?length_block_poke; reflexivity.
Qed.

Lemma rd_block_poke_ne i c t j :
  0 <= i -> 0 <= j -> i <> j -> rd (block (poke i c t)) j = rd (block t) j.
Proof. intros. rewrite block_poke. by apply rd_wr_ne. Qed.
Lemma rd_block_poke_eq i c t :
  0 <= i < Z.of_nat (length (block t)) -> rd (block (poke i c t)) i = c.
Proof. intros. rewrite block_poke. by apply rd_wr_eq. Qed.
Lemma rd_block_bump_ne i k t j :
  0 <= i -> 0 <= j -> i <> j -> rd (block (bump i k t)) j = rd (block t) j.
Proof. intros. by apply rd_block_poke_ne. Qed.
Lemma rd_block_if_bump_ne (c : bool) i k t j :
  0 <= i -> 0 <= j -> i <> j -> rd (block (if c then bump i k t else t)) j = rd (block t) j.
Proof. intros. destruct c; [by apply rd_block_bump_ne|reflexivity]. Qed.
Lemma rd_block_audio_bits_ne codec rate size channels t j :
  0 <= j -> j <> 11 ->
  rd (block (audio_bits codec rate size channels t)) j = rd (block t) j.
Proof.
  intros. unfold audio_bits.
  repeat case_match; rewrite ?rd_block_bump_ne, ?rd_block_poke_ne by lia; reflexivity.
Qed.

(** The header every DTSC builder writes last: type byte, 24-bit length,
    zero stream id, timestamp. *)
Lemma builder_header c T t :
  11 <= Z.of_nat (length (block t)) ->
  15 <= len t < 2 ^ 24 + 15 ->
  0 <= T < 2 ^ 32 ->
  let t' := tagTime_set T (zero_stream_id (put_len24 (len (poke 0 c t) - 15) (poke 0 c t))) in
  len t' = len t
  /\ length (block t') = length (block t)
  /\ rd (block t') 0 = c
  /\ len (announced_len false t') = len t
  /\ tagTime false t' = T
  /\ rd (block t') 8 = NUL /\ rd (block t') 9 = NUL /\ rd (block t') 10 = NUL
  /\ forall i, 11 <= i -> rd (block t') i = rd (block t) i.
Proof.
  intros Hb Hl HT. cbv zeta. rewrite len_poke. split; [reflexivity|].
  split.
  { by rewrite length_block_tagTime_set, length_block_zero_stream_id,
      length_block_put_len24, length_block_poke. }
  split; [|split; [|split; [|split; [|split; [|split]]]]].
  - rewrite block_tagTime_set. unfold zero_stream_id, put_len24. rd_simpl. reflexivity.
  - rewrite len_announced_len.
    rewrite block_tagTime_set. unfold zero_stream_id, put_len24. rd_simpl.
    rewrite len24_value by lia. lia.
  - apply tagTime_set_get; [lia|].
    rewrite length_block_zero_stream_id, length_block_put_len24, length_block_poke. lia.
  - rewrite block_tagTime_set. unfold zero_stream_id, put_len24. rd_simpl. reflexivity.
  - rewrite block_tagTime_set. unfold zero_stream_id, put_len24. rd_simpl. reflexivity.
  - rewrite block_tagTime_set. unfold zero_stream_id, put_len24. rd_simpl. reflexivity.
  - intros i Hi. rewrite block_tagTime_set. unfold zero_stream_id, put_len24.
    rd_simpl. reflexivity.
Qed.

(** The bytes [setLen] leaves alone, and its trailer, in a buffer that
    holds the tag. *)
Lemma setLen_frame t i :
  4 <= len t -> 0 <= i < len t - 4 -> rd (block (setLen t)) i = rd (block t) i.
Proof. intros Hl Hi. rewrite block_setLen. rd_simpl. reflexivity. Qed.

Lemma setLen_trailer t :
  4 <= len t < 2 ^ 31 -> len t <= Z.of_nat (length (block t)) ->
  uchar (rd (block (setLen t)) (len t - 4)) * 2 ^ 24
  + uchar (rd (block (setLen t)) (len t - 3)) * 2 ^ 16
  + uchar (rd (block (setLen t)) (len t - 2)) * 2 ^ 8
  + uchar (rd (block (setLen t)) (len t - 1)) = len t - 4.
Proof.
  intros Hl Hb. rewrite block_setLen. rd_simpl.
  rewrite s32_small by lia. apply trailer_value. lia.
Qed.

Lemma char_val_small sg z : 0 <= z < 128 -> char_val sg (to_char z) = z.
Proof.
  intros Hz. unfold char_val, schar. rewrite uchar_to_char, Z.mod_small by lia.
  destruct sg; [|reflexivity]. destruct (Z.ltb_spec z 128); [reflexivity|lia].
Qed.

(** X10.  [Tag::DTSCVideoInit] for the codec "H264" (or "?", which it
    takes for H264), with fewer than 2^24 bytes of init data and a
    buffer that could be had: the tag is a video tag of [20 + init]
    bytes with timestamp 0 and stream id 0 that announces its own
    length, holds the init data from byte 16 on, and is recognised by
    [isInitData], [needsInitData] and [getVideoCodec] as H264 init
    data, for either signedness of [char]. *)
Theorem DTSCVideoInit_builds_init_tag (sg : bool) (r : realloc_result)
    (codec init : bytes) (t : Tag) :
  Tag_wf t ->
  codec = lit "H264" \/ codec = lit "?" ->
  strlen init < 2 ^ 24 - 5 ->
  fst (DTSCVideoInit r codec init t) = true ->
  let t' := snd (DTSCVideoInit r codec init t) in
  len t' = strlen init + 20
  /\ rd (block t') 0 = to_char 9
  /\ len (announced_len false t') = len t'
  /\ tagTime false t' = 0
  /\ rd (block t') 8 = NUL /\ rd (block t') 9 = NUL /\ rd (block t') 10 = NUL
  /\ (forall i, 0 <= i < strlen init -> rd (block t') (16 + i) = rd init i)
  /\ isInitData sg t' = true
  /\ needsInitData sg t' = true
  /\ getVideoCodec sg t' = lit "H264".
Proof.
  intros Hwf Hcodec Hn. unfold DTSCVideoInit.
  change (2 ^ 24) with 16777216 in *. unfold strlen in *.
  assert (Hl0 : DTSCVideoInit_len codec init t
                = with_len (Z.of_nat (length init) + 20) t).
  { unfold DTSCVideoInit_len, strlen.
    rewrite s32_small by (change (2 ^ 31) with 2147483648; lia).
    destruct Hcodec as [-> | ->]; reflexivity. }
  rewrite Hl0. cbn [len with_len].
  destruct (Z.ltb_spec 0 (Z.of_nat (length init) + 20)) as [_|]; [|lia].
  destruct (checkBufferSize r (with_len (Z.of_nat (length init) + 20) t)) as [ok t1] eqn:Hc.
  destruct ok; [|intros [=]]. cbn [negb fst snd]. intros _.
  destruct (checkBufferSize_grown r (with_len (Z.of_nat (length init) + 20) t) t1
              Hwf ltac:(cbn; lia) Hc) as (Hwf1 & Hl1 & Hlen1 & _ & _ & _).
  cbn [len with_len] in Hl1, Hlen1.
  set (t2 := poke 11 (to_char 23)
               (poke 15 NUL (poke 14 NUL (poke 13 NUL (poke 12 NUL
                  (copy_in 16 init (len t1 - 20) t1)))))).
  assert (Hl2 : len t2 = Z.of_nat (length init) + 20) by (cbn; lia).
  assert (Hb2 : length (block t2) = length (block t1)).
  { unfold t2. by rewrite !length_block_poke, length_block_copy_in. }
  assert (Hl3 : len (setLen t2) = Z.of_nat (length init) + 20) by (cbn; lia).
  destruct (builder_header (to_char 9) 0 (setLen t2))
    as (H1 & H2 & H3 & H4 & H5 & H6 & H7 & H8 & H9).
  { rewrite length_block_setLen. lia. }
  { change (2 ^ 24) with 16777216. lia. }
  { lia. }
  cbv zeta in *. set (t3 := tagTime_set 0 _) in *. rewrite H1, Hl3.
  assert (R11 : rd (block t3) 11 = to_char 23).
  { rewrite H9, setLen_frame by lia. unfold t2. apply rd_block_poke_eq.
    rewrite !length_block_poke, length_block_copy_in. lia. }
  assert (R12 : rd (block t3) 12 = NUL).
  { rewrite H9, setLen_frame by lia. unfold t2.
    rewrite !rd_block_poke_ne by lia. apply rd_block_poke_eq.
    rewrite length_block_copy_in. lia. }
  repeat split; try assumption.
  - congruence.
  - intros i Hi. rewrite H9, setLen_frame by lia. unfold t2.
    rewrite !rd_block_poke_ne by lia. rewrite block_copy_in.
    apply rd_memcpy_in; lia.
  - unfold isInitData, at_. rewrite H3, R11, R12. by destruct sg.
  - unfold needsInitData, at_. rewrite H3, R11. by destruct sg.
  - unfold getVideoCodec, at_. rewrite R11. by destruct sg.
Qed.

Lemma DTSCVideoInit_builds_init_tag_witness :
  let t' := snd (DTSCVideoInit (ReallocOk []) (lit "?") (lit "avcC") empty_Tag) in
  len t' = strlen (lit "avcC") + 20
  /\ rd (block t') 0 = to_char 9
  /\ len (announced_len false t') = len t'
  /\ tagTime false t' = 0
  /\ rd (block t') 8 = NUL /\ rd (block t') 9 = NUL /\ rd (block t') 10 = NUL
  /\ (forall i, 0 <= i < strlen (lit "avcC") -> rd (block t') (16 + i) = rd (lit "avcC") i)
  /\ isInitData true t' = true
  /\ needsInitData true t' = true
  /\ getVideoCodec true t' = lit "H264".
Proof.
  apply (DTSCVideoInit_builds_init_tag true (ReallocOk []) (lit "?") (lit "avcC") empty_Tag);
    [reflexivity | right; reflexivity | vm_compute; reflexivity | reflexivity].
Defined.

(** What every DTSC builder leaves once its body [t2] is in place: the
    header of [builder_header], the body bytes as they were and the
    PreviousTagSize. *)
Lemma builder_tail c T t2 :
  15 <= len t2 < 2 ^ 24 + 15 ->
  len t2 <= Z.of_nat (length (block t2)) ->
  0 <= T < 2 ^ 32 ->
  let t' := tagTime_set T (zero_stream_id
              (put_len24 (len (poke 0 c (setLen t2)) - 15) (poke 0 c (setLen t2)))) in
  len t' = len t2
  /\ rd (block t') 0 = c
  /\ len (announced_len false t') = len t2
  /\ tagTime false t' = T
  /\ rd (block t') 8 = NUL /\ rd (block t') 9 = NUL /\ rd (block t') 10 = NUL
  /\ (forall i, 11 <= i < len t2 - 4 -> rd (block t') i = rd (block t2) i)
  /\ uchar (rd (block t') (len t2 - 4)) * 2 ^ 24
     + uchar (rd (block t') (len t2 - 3)) * 2 ^ 16
     + uchar (rd (block t') (len t2 - 2)) * 2 ^ 8
     + uchar (rd (block t') (len t2 - 1)) = len t2 - 4.
Proof.
  intros Hl Hb HT.
  change (2 ^ 24) with 16777216 in *.
  destruct (builder_header c T (setLen t2))
    as (H1 & H2 & H3 & H4 & H5 & H6 & H7 & H8 & H9).
  { rewrite length_block_setLen. lia. }
  { rewrite len_setLen. change (2 ^ 24) with 16777216. lia. }
  { lia. }
  cbv zeta in *. set (t3 := tagTime_set T _) in *.
  rewrite len_setLen in *.
  repeat split; try assumption.
  - intros i Hi. rewrite H9 by lia. apply setLen_frame; lia.
  - rewrite !H9 by lia. apply setLen_trailer; lia.
Qed.

Lemma rd_block_bump_eq i k t :
  0 <= i < Z.of_nat (length (block t)) ->
  rd (block (bump i k t)) i = to_char (uchar (rd (block t) i) + k).
Proof. intros. unfold bump. by apply rd_block_poke_eq. Qed.

(** The format bits [audio_bits] leaves in [data[11]] for AAC: the high
    nibble is [0xA]. *)
Lemma audio_bits_AAC rate size channels t :
  11 < Z.of_nat (length (block t)) ->
  Z.land (uchar (rd (block (audio_bits (Some (lit "AAC")) rate size channels t)) 11)) 240
  = 160.
Proof.
  intros Hb. unfold audio_bits.
  change (codec_is "AAC" (Some (lit "AAC"))) with true.
  change (codec_is "MP3" (Some (lit "AAC"))) with false. cbv iota zeta.
  set (t1 := bump 11 160 (poke 11 NUL t)).
  assert (H1 : rd (block t1) 11 = to_char 160).
  { unfold t1. rewrite rd_block_bump_eq by (rewrite length_block_poke; lia).
    rewrite rd_block_poke_eq by lia. reflexivity. }
  assert (L1 : length (block t1) = length (block t)).
  { unfold t1. by rewrite length_block_bump, length_block_poke. }
  repeat case_match;
    repeat (rewrite rd_block_bump_eq
              by (rewrite ?length_block_bump, ?L1; lia));
    rewrite H1; reflexivity.
Qed.

(** X11.  [Tag::DTSCAudioInit] for the codec "AAC" (or "?", which it
    takes for AAC), with fewer than 2^24 bytes of init data and a buffer
    that could be had: the tag is an audio tag of [17 + init] bytes with
    timestamp 0 and stream id 0 that announces its own length, holds the
    init data from byte 13 on, and is recognised by [isInitData],
    [needsInitData] and [getAudioCodec] as AAC init data, whatever the
    rate, sample size and channel count and for either signedness of
    [char]. *)
Theorem DTSCAudioInit_builds_init_tag (sg : bool) (r : realloc_result)
    (codec init : bytes) (rate size channels : Z) (t : Tag) :
  Tag_wf t ->
  codec = lit "AAC" \/ codec = lit "?" ->
  strlen init < 2 ^ 24 - 2 ->
  fst (DTSCAudioInit r codec init rate size channels t) = true ->
  let t' := snd (DTSCAudioInit r codec init rate size channels t) in
  len t' = strlen init + 17
  /\ rd (block t') 0 = to_char 8
  /\ len (announced_len false t') = len t'
  /\ tagTime false t' = 0
  /\ rd (block t') 8 = NUL /\ rd (block t') 9 = NUL /\ rd (block t') 10 = NUL
  /\ (forall i, 0 <= i < strlen init -> rd (block t') (13 + i) = rd init i)
  /\ isInitData sg t' = true
  /\ needsInitData sg t' = true
  /\ getAudioCodec sg t' = lit "AAC".
Proof.
  intros Hwf Hcodec Hn. unfold DTSCAudioInit.
  change (2 ^ 24) with 16777216 in *. unfold strlen in *.
  assert (Hc' : (if bool_decide (codec = lit "?") then lit "AAC" else codec) = lit "AAC")
    by (destruct Hcodec as [-> | ->]; reflexivity).
  rewrite Hc'.
  assert (Hl0 : DTSCAudioInit_len (lit "AAC") init t
                = with_len (Z.of_nat (length init) + 17) t).
  { unfold DTSCAudioInit_len, strlen.
    rewrite s32_small by (change (2 ^ 31) with 2147483648; lia). reflexivity. }
  rewrite Hl0. cbn [len with_len].
  destruct (Z.ltb_spec 0 (Z.of_nat (length init) + 17)) as [_|]; [|lia].
  destruct (checkBufferSize r (with_len (Z.of_nat (length init) + 17) t)) as [ok t1] eqn:Hc.
  destruct ok; [|intros [=]]. cbn [negb fst snd]. intros _.
  destruct (checkBufferSize_grown r (with_len (Z.of_nat (length init) + 17) t) t1
              Hwf ltac:(cbn; lia) Hc) as (Hwf1 & Hl1 & Hlen1 & _ & _ & _).
  cbn [len with_len] in Hl1, Hlen1.
  set (t2 := audio_bits (Some (lit "AAC")) rate size channels
               (poke 12 NUL (copy_in 13 init (len t1 - 17) t1))).
  assert (Hl2 : len t2 = Z.of_nat (length init) + 17).
  { unfold t2. rewrite len_audio_bits. cbn. lia. }
  assert (Hb2 : length (block t2) = length (block t1)).
  { unfold t2. by rewrite length_block_audio_bits, length_block_poke, length_block_copy_in. }
  destruct (builder_tail (to_char 8) 0 t2)
    as (H1 & H3 & H4 & H5 & H6 & H7 & H8 & H9 & _).
  { change (2 ^ 24) with 16777216. lia. }
  { lia. }
  { lia. }
  cbv zeta in *. set (t3 := tagTime_set 0 _) in *. rewrite H1, Hl2 in *.
  assert (R11 : Z.land (uchar (rd (block t3) 11)) 240 = 160).
  { rewrite H9 by lia. unfold t2. apply audio_bits_AAC.
    rewrite length_block_poke, length_block_copy_in. lia. }
  assert (R12 : rd (block t3) 12 = NUL).
  { rewrite H9 by lia. unfold t2. rewrite rd_block_audio_bits_ne by lia.
    apply rd_block_poke_eq. rewrite length_block_copy_in. lia. }
  repeat split; try assumption.
  - intros i Hi. rewrite H9 by lia. unfold t2.
    rewrite rd_block_audio_bits_ne, rd_block_poke_ne by lia. rewrite block_copy_in.
    apply rd_memcpy_in; lia.
  - unfold isInitData, at_, char_val. rewrite H3, R12.
    destruct sg; rewrite ?land_schar_240, R11; reflexivity.
  - unfold needsInitData, at_, char_val. rewrite H3.
    destruct sg; rewrite ?land_schar_240, R11; reflexivity.
  - unfold getAudioCodec, at_, char_val.
    destruct sg; rewrite ?land_schar_240, R11; reflexivity.
Qed.

Lemma DTSCAudioInit_builds_init_tag_witness :
  let t' := snd (DTSCAudioInit (ReallocOk []) (lit "AAC") (lit "cfg") 44100 16 2 empty_Tag) in
  len t' = strlen (lit "cfg") + 17
  /\ rd (block t') 0 = to_char 8
  /\ len (announced_len false t') = len t'
  /\ tagTime false t' = 0
  /\ rd (block t') 8 = NUL /\ rd (block t') 9 = NUL /\ rd (block t') 10 = NUL
  /\ (forall i, 0 <= i < strlen (lit "cfg") -> rd (block t') (13 + i) = rd (lit "cfg") i)
  /\ isInitData false t' = true
  /\ needsInitData false t' = true
  /\ getAudioCodec false t' = lit "AAC".
Proof.
  apply (DTSCAudioInit_builds_init_tag false (ReallocOk []) (lit "AAC") (lit "cfg")
           44100 16 2 empty_Tag);
    [reflexivity | left; reflexivity | vm_compute; reflexivity | reflexivity].
Defined.

(** X12.  [Tag::DTSCMetaInit] with a packed metadata object [tmp] of
    fewer than 2^24 bytes and a buffer that could be had: the tag is a
    script-data tag (type 0x12) of [15 + tmp] bytes with timestamp 0 and
    stream id 0 that announces its own length, holds [tmp] from byte 11
    on and ends in its PreviousTagSize. *)
Theorem DTSCMetaInit_builds_script_tag (r : realloc_result) (tmp : bytes) (t : Tag) :
  Tag_wf t ->
  strlen tmp < 2 ^ 24 ->
  fst (DTSCMetaInit r tmp t) = true ->
  let t' := snd (DTSCMetaInit r tmp t) in
  len t' = strlen tmp + 15
  /\ rd (block t') 0 = to_char 18
  /\ len (announced_len false t') = len t'
  /\ tagTime false t' = 0
  /\ rd (block t') 8 = NUL /\ rd (block t') 9 = NUL /\ rd (block t') 10 = NUL
  /\ (forall i, 0 <= i < strlen tmp -> rd (block t') (11 + i) = rd tmp i)
  /\ uchar (rd (block t') (len t' - 4)) * 2 ^ 24
     + uchar (rd (block t') (len t' - 3)) * 2 ^ 16
     + uchar (rd (block t') (len t' - 2)) * 2 ^ 8
     + uchar (rd (block t') (len t' - 1)) = len t' - 4.
Proof.
  intros Hwf Hn. unfold DTSCMetaInit.
  change (2 ^ 24) with 16777216 in *. unfold strlen in *.
  rewrite s32_small by (change (2 ^ 31) with 2147483648; lia).
  cbn [len with_len].
  destruct (Z.ltb_spec 0 (Z.of_nat (length tmp) + 15)) as [_|]; [|lia].
  destruct (checkBufferSize r (with_len (Z.of_nat (length tmp) + 15) t)) as [ok t1] eqn:Hc.
  destruct ok; [|intros [=]]. cbn [negb fst snd]. intros _.
  destruct (checkBufferSize_grown r (with_len (Z.of_nat (length tmp) + 15) t) t1
              Hwf ltac:(cbn; lia) Hc) as (Hwf1 & Hl1 & Hlen1 & _ & _ & _).
  cbn [len with_len] in Hl1, Hlen1.
  set (t2 := copy_in 11 tmp (len t1 - 15) t1).
  assert (Hl2 : len t2 = Z.of_nat (length tmp) + 15) by (cbn; lia).
  assert (Hb2 : length (block t2) = length (block t1)).
  { unfold t2. by rewrite length_block_copy_in. }
  destruct (builder_tail (to_char 18) 0 t2)
    as (H1 & H3 & H4 & H5 & H6 & H7 & H8 & H9 & H10).
  { change (2 ^ 24) with 16777216. lia. }
  { lia. }
  { lia. }
  cbv zeta in *. set (t3 := tagTime_set 0 _) in *. rewrite H1, Hl2 in *.
  repeat split; try assumption.
  intros i Hi. rewrite H9 by lia. unfold t2. rewrite block_copy_in.
  apply rd_memcpy_in; lia.
Qed.

Lemma DTSCMetaInit_builds_script_tag_witness :
  let t' := snd (DTSCMetaInit (ReallocOk []) (lit "onMetaData") empty_Tag) in
  len t' = strlen (lit "onMetaData") + 15
  /\ rd (block t') 0 = to_char 18
  /\ len (announced_len false t') = len t'
  /\ tagTime false t' = 0
  /\ rd (block t') 8 = NUL /\ rd (block t') 9 = NUL /\ rd (block t') 10 = NUL
  /\ (forall i, 0 <= i < strlen (lit "onMetaData") ->
        rd (block t') (11 + i) = rd (lit "onMetaData") i)
  /\ uchar (rd (block t') (len t' - 4)) * 2 ^ 24
     + uchar (rd (block t') (len t' - 3)) * 2 ^ 16
     + uchar (rd (block t') (len t' - 2)) * 2 ^ 8
     + uchar (rd (block t') (len t' - 1)) = len t' - 4.
Proof.
  apply (DTSCMetaInit_builds_script_tag (ReallocOk []) (lit "onMetaData") empty_Tag);
    [reflexivity | vm_compute; reflexivity | reflexivity].
Defined.

End flv_dtsc_builders.

(** ** flv_tag.cpp: [DTSCLoader] *)

Section flv_dtsc_loader.

Import FLV.

Lemma len_if_bump (c : bool) i k t : len (if c then bump i k t else t) = len t.
Proof. by destruct c. Qed.

Lemma DTSCLoader_video r S t :
  Tag_wf t -> lastType S = DTSC.VIDEO -> strlen (lastData S) < 2 ^ 24 - 5 ->
  fst (DTSCLoader r S t) = true ->
  exists t2,
    snd (DTSCLoader r S t)
    = tagTime_set (u32 (pkt_time S)) (zero_stream_id
        (put_len24 (len (poke 0 (to_char 9) (setLen t2)) - 15)
                   (poke 0 (to_char 9) (setLen t2))))
    /\ body_ready (strlen (lastData S) + 16
                   + (if track_true S && codec_is "H264" (track_codec S) then 4 else 0))
                  (lastData S) t2.
Proof.
  intros Hwf HT Hn. unfold DTSCLoader, DTSCLoader_len. rewrite HT. cbv beta iota.
  change (2 ^ 24) with 16777216 in *. unfold strlen in *.
  set (n := Z.of_nat (length (lastData S))) in *.
  set (cV := track_true S && codec_is "H264" (track_codec S)).
  set (L := n + 16 + (if cV then 4 else 0)).
  assert (HL : 16 <= L <= n + 20) by (unfold L; destruct cV; lia).
  assert (E : (if cV then with_len (s32 (len (with_len (s32 (n + 16)) t) + 4))
                                   (with_len (s32 (n + 16)) t)
               else with_len (s32 (n + 16)) t) = with_len L t).
  { cbn [len with_len]. unfold L.
    rewrite (s32_small (n + 16)) by (change (2 ^ 31) with 2147483648; lia).
    destruct cV; [|by rewrite Z.add_0_r].
    rewrite s32_small by (change (2 ^ 31) with 2147483648; lia). reflexivity. }
  rewrite E. cbn [len with_len].
  destruct (Z.ltb_spec 0 L) as [_|]; [|lia].
  destruct (checkBufferSize r (with_len L t)) as [ok t1] eqn:Hc.
  destruct ok; [|intros [=]]. cbn [negb fst snd]. intros _.
  destruct (checkBufferSize_grown r (with_len L t) t1 Hwf ltac:(cbn; lia) Hc)
    as (Hwf1 & Hl1 & Hlen1 & _ & _ & _).
  cbn [len with_len] in Hl1, Hlen1.
  cbv zeta. rewrite Hl1, (u32_small L) by (change (2 ^ 32) with 4294967296; lia).
  set (t2 := if has_disposableframe S then _ else _).
  exists t2. split; [reflexivity|].
  unfold body_ready, strlen. fold n. unfold t2.
  destruct (Z.eqb_spec L (n + 16)) as [HeL|HeL].
  - split; [|split].
    + rewrite !len_if_bump. cbn. lia.
    + rewrite !length_block_if_bump, length_block_poke, length_block_copy_in. lia.
    + intros i Hi. rewrite !rd_block_if_bump_ne, rd_block_poke_ne by lia.
      rewrite block_copy_in. replace (L - 4 - n + i) with (12 + i) by lia.
      apply rd_memcpy_in; lia.
  - assert (L = n + 20) by (unfold L in *; destruct cV; lia).
    split; [|split].
    + rewrite !len_if_bump. cbn. lia.
    + rewrite !length_block_if_bump, !length_block_poke, length_block_copy_in. lia.
    + intros i Hi. rewrite !rd_block_if_bump_ne, !rd_block_poke_ne by lia.
      rewrite block_copy_in. replace (L - 4 - n + i) with (16 + i) by lia.
      apply rd_memcpy_in; lia.
Qed.

Lemma DTSCLoader_audio r S t :
  Tag_wf t -> lastType S = DTSC.AUDIO -> strlen (lastData S) < 2 ^ 24 - 5 ->
  fst (DTSCLoader r S t) = true ->
  exists t2,
    snd (DTSCLoader r S t)
    = tagTime_set (u32 (pkt_time S)) (zero_stream_id
        (put_len24 (len (poke 0 (to_char 8) (setLen t2)) - 15)
                   (poke 0 (to_char 8) (setLen t2))))
    /\ body_ready (strlen (lastData S) + 16
                   + (if track_true S && codec_is "AAC" (track_codec S) then 1 else 0))
                  (lastData S) t2.
Proof.
  intros Hwf HT Hn. unfold DTSCLoader, DTSCLoader_len. rewrite HT. cbv beta iota.
  change (2 ^ 24) with 16777216 in *. unfold strlen in *.
  set (n := Z.of_nat (length (lastData S))) in *.
  set (cA := track_true S && codec_is "AAC" (track_codec S)).
  set (L := n + 16 + (if cA then 1 else 0)).
  assert (HL : 16 <= L <= n + 17) by (unfold L; destruct cA; lia).
  assert (E : (if cA then with_len (s32 (len (with_len (s32 (n + 16)) t) + 1))
                                   (with_len (s32 (n + 16)) t)
               else with_len (s32 (n + 16)) t) = with_len L t).
  { cbn [len with_len]. unfold L.
    rewrite (s32_small (n + 16)) by (change (2 ^ 31) with 2147483648; lia).
    destruct cA; [|by rewrite Z.add_0_r].
    rewrite s32_small by (change (2 ^ 31) with 2147483648; lia). reflexivity. }
  rewrite E. cbn [len with_len].
  destruct (Z.ltb_spec 0 L) as [_|]; [|lia].
  destruct (checkBufferSize r (with_len L t)) as [ok t1] eqn:Hc.
  destruct ok; [|intros [=]]. cbn [negb fst snd]. intros _.
  destruct (checkBufferSize_grown r (with_len L t) t1 Hwf ltac:(cbn; lia) Hc)
    as (Hwf1 & Hl1 & Hlen1 & _ & _ & _).
  cbn [len with_len] in Hl1, Hlen1.
  cbv zeta. rewrite Hl1, (u32_small L) by (change (2 ^ 32) with 4294967296; lia).
  set (t2 := audio_bits _ _ _ _ _).
  exists t2. split; [reflexivity|].
  unfold body_ready, strlen. fold n. unfold t2.
  destruct (Z.eqb_spec L (n + 16)) as [HeL|HeL].
  - split; [|split].
    + rewrite len_audio_bits. cbn. lia.
    + rewrite length_block_audio_bits, length_block_copy_in. lia.
    + intros i Hi. rewrite rd_block_audio_bits_ne by lia.
      rewrite block_copy_in. replace (L - 4 - n + i) with (12 + i) by lia.
      apply rd_memcpy_in; lia.
  - assert (L = n + 17) by (unfold L in *; destruct cA; lia).
    split; [|split].
    + rewrite len_audio_bits. cbn. lia.
    + rewrite length_block_audio_bits, length_block_poke, length_block_copy_in. lia.
    + intros i Hi. rewrite rd_block_audio_bits_ne, rd_block_poke_ne by lia.
      rewrite block_copy_in. replace (L - 4 - n + i) with (13 + i) by lia.
      apply rd_memcpy_in; lia.
Qed.

Lemma DTSCLoader_meta r S t :
  Tag_wf t -> lastType S = DTSC.META -> strlen (meta_str S) < 2 ^ 24 ->
  fst (DTSCLoader r S t) = true ->
  exists t2,
    snd (DTSCLoader r S t)
    = tagTime_set (u32 (pkt_time S)) (zero_stream_id
        (put_len24 (len (poke 0 (to_char 18) (setLen t2)) - 15)
                   (poke 0 (to_char 18) (setLen t2))))
    /\ body_ready (strlen (meta_str S) + 15) (meta_str S) t2.
Proof.
  intros Hwf HT Hn. unfold DTSCLoader, DTSCLoader_len. rewrite HT. cbv beta iota.
  change (2 ^ 24) with 16777216 in *. unfold strlen in *.
  set (n := Z.of_nat (length (meta_str S))) in *.
  rewrite s32_small by (change (2 ^ 31) with 2147483648; lia).
  cbn [len with_len].
  destruct (Z.ltb_spec 0 (n + 15)) as [_|]; [|lia].
  destruct (checkBufferSize r (with_len (n + 15) t)) as [ok t1] eqn:Hc.
  destruct ok; [|intros [=]]. cbn [negb fst snd]. intros _.
  destruct (checkBufferSize_grown r (with_len (n + 15) t) t1 Hwf ltac:(cbn; lia) Hc)
    as (Hwf1 & Hl1 & Hlen1 & _ & _ & _).
  cbn [len with_len] in Hl1, Hlen1.
  cbv zeta. exists (copy_in 11 (meta_str S) n t1). split; [reflexivity|].
  unfold body_ready, strlen. fold n. split; [|split].
  - cbn. lia.
  - rewrite length_block_copy_in. lia.
  - intros i Hi. rewrite block_copy_in. replace (n + 15 - 4 - n + i) with (11 + i) by lia.
    apply rd_memcpy_in; lia.
Qed.

Lemma builder_fields c T L p t2 :
  body_ready L p t2 ->
  15 <= L < 2 ^ 24 + 15 -> strlen p + 15 <= L -> 0 <= T < 2 ^ 32 ->
  let t' := tagTime_set T (zero_stream_id
              (put_len24 (len (poke 0 c (setLen t2)) - 15) (poke 0 c (setLen t2)))) in
  len t' = L
  /\ rd (block t') 0 = c
  /\ len (announced_len false t') = len t'
  /\ tagTime false t' = T
  /\ rd (block t') 8 = NUL /\ rd (block t') 9 = NUL /\ rd (block t') 10 = NUL
  /\ (forall i, 0 <= i < strlen p -> rd (block t') (len t' - 4 - strlen p + i) = rd p i)
  /\ uchar (rd (block t') (len t' - 4)) * 2 ^ 24
     + uchar (rd (block t') (len t' - 3)) * 2 ^ 16
     + uchar (rd (block t') (len t' - 2)) * 2 ^ 8
     + uchar (rd (block t') (len t' - 1)) = len t' - 4.
Proof.
  intros (Hl & Hb & Hp) HL Hpl HT.
  destruct (builder_tail c T t2) as (H1 & H3 & H4 & H5 & H6 & H7 & H8 & H9 & H10);
    [lia..|].
  cbv zeta in *. set (t3 := tagTime_set T _) in *. rewrite H1, Hl in *.
  repeat split; try assumption.
  intros i Hi. unfold strlen in *. rewrite H9 by lia. by apply Hp.
Qed.

(** X13.  [Tag::DTSCLoader] on a video, audio or metadata packet of
    fewer than 2^24 - 5 payload bytes, when the buffer could be had: the
    tag has type 9, 8 or 18, is [16 + payload] bytes long (4 more for
    H264 video and 1 more for AAC audio of a known track; 15 for
    metadata), announces its own length, carries the packet's time
    (modulo 2^32) as its timestamp and a zero stream id, holds the
    payload right before its last four bytes and ends with its
    PreviousTagSize. *)
Theorem DTSCLoader_builds_tag (r : realloc_result) (S : PacketView) (t : Tag) :
  Tag_wf t ->
  lastType S = DTSC.VIDEO \/ lastType S = DTSC.AUDIO \/ lastType S = DTSC.META ->
  strlen (lastData S) < 2 ^ 24 - 5 ->
  strlen (meta_str S) < 2 ^ 24 - 5 ->
  fst (DTSCLoader r S t) = true ->
  let t' := snd (DTSCLoader r S t) in
  let p := match lastType S with DTSC.META => meta_str S | _ => lastData S end in
  len t' = strlen p
           + match lastType S with
             | DTSC.VIDEO =>
                 16 + (if track_true S && codec_is "H264" (track_codec S) then 4 else 0)
             | DTSC.AUDIO =>
                 16 + (if track_true S && codec_is "AAC" (track_codec S) then 1 else 0)
             | _ => 15
             end
  /\ rd (block t') 0
     = to_char match lastType S with DTSC.VIDEO => 9 | DTSC.AUDIO => 8 | _ => 18 end
  /\ len (announced_len false t') = len t'
  /\ tagTime false t' = u32 (pkt_time S)
  /\ rd (block t') 8 = NUL /\ rd (block t') 9 = NUL /\ rd (block t') 10 = NUL
  /\ (forall i, 0 <= i < strlen p -> rd (block t') (len t' - 4 - strlen p + i) = rd p i)
  /\ uchar (rd (block t') (len t' - 4)) * 2 ^ 24
     + uchar (rd (block t') (len t' - 3)) * 2 ^ 16
     + uchar (rd (block t') (len t' - 2)) * 2 ^ 8
     + uchar (rd (block t') (len t' - 1)) = len t' - 4.
Proof.
  intros Hwf HT Hn Hm Hok.
  assert (HTm : 0 <= u32 (pkt_time S) < 2 ^ 32) by (apply Z.mod_pos_bound; lia).
  change (2 ^ 24) with 16777216 in *.
  pose proof (Nat2Z.is_nonneg (length (lastData S))) as Hn0.
  pose proof (Nat2Z.is_nonneg (length (meta_str S))) as Hm0.
  destruct HT as [HT|[HT|HT]].
  - destruct (DTSCLoader_video r S t Hwf HT Hn Hok) as (t2 & -> & Hbody).
    rewrite HT. cbv zeta.
    replace (strlen (lastData S)
             + (16 + (if track_true S && codec_is "H264" (track_codec S) then 4 else 0)))
      with (strlen (lastData S) + 16
            + (if track_true S && codec_is "H264" (track_codec S) then 4 else 0)) by lia.
    apply (builder_fields _ _ _ _ _ Hbody); unfold strlen in *;
      change (2 ^ 24) with 16777216; destruct (_ && _); lia.
  - destruct (DTSCLoader_audio r S t Hwf HT Hn Hok) as (t2 & -> & Hbody).
    rewrite HT. cbv zeta.
    replace (strlen (lastData S)
             + (16 + (if track_true S && codec_is "AAC" (track_codec S) then 1 else 0)))
      with (strlen (lastData S) + 16
            + (if track_true S && codec_is "AAC" (track_codec S) then 1 else 0)) by lia.
    apply (builder_fields _ _ _ _ _ Hbody); unfold strlen in *;
      change (2 ^ 24) with 16777216; destruct (_ && _); lia.
  - destruct (DTSCLoader_meta r S t Hwf HT ltac:(change (2 ^ 24) with 16777216; lia) Hok)
      as (t2 & -> & Hbody).
    rewrite HT. cbv zeta.
    apply (builder_fields _ _ _ _ _ Hbody); unfold strlen in *;
      change (2 ^ 24) with 16777216; lia.
Qed.

Lemma DTSCLoader_builds_tag_witness :
  let S := mkPacketView DTSC.VIDEO (lit "nal") true (Some (lit "H264")) 0 0 0
                        true true false false 0 1234 [] in
  let t' := snd (DTSCLoader (ReallocOk []) S empty_Tag) in
  len t' = 3 + (16 + 4)
  /\ rd (block t') 0 = to_char 9
  /\ len (announced_len false t') = len t'
  /\ tagTime false t' = u32 1234
  /\ rd (block t') 8 = NUL /\ rd (block t') 9 = NUL /\ rd (block t') 10 = NUL
  /\ (forall i, 0 <= i < 3 -> rd (block t') (len t' - 4 - 3 + i) = rd (lit "nal") i)
  /\ uchar (rd (block t') (len t' - 4)) * 2 ^ 24
     + uchar (rd (block t') (len t' - 3)) * 2 ^ 16
     + uchar (rd (block t') (len t' - 2)) * 2 ^ 8
     + uchar (rd (block t') (len t' - 1)) = len t' - 4.
Proof.
  apply (DTSCLoader_builds_tag (ReallocOk [])
           (mkPacketView DTSC.VIDEO (lit "nal") true (Some (lit "H264")) 0 0 0
                         true true false false 0 1234 []) empty_Tag);
    [reflexivity | left; reflexivity | vm_compute; reflexivity
    | vm_compute; reflexivity | reflexivity].
Defined.

End flv_dtsc_loader.

(** ** flv_tag.cpp: the loaders on well-formed input *)

Section flv_loaders.

Import FLV.

Lemma checkBufferSize_ok fresh t : fst (checkBufferSize (ReallocOk fresh) t) = true.
Proof. unfold checkBufferSize. by destruct (_ || _). Qed.

(** A read that finds all it needs in [D]. *)
Lemma MemReadUntil_full buffer count sofar D P :
  0 <= sofar < count -> count < 2 ^ 31 -> 0 <= P ->
  P + (count - sofar) <= Z.of_nat (length D) -> Z.of_nat (length D) < 2 ^ 32 ->
  MemReadUntil buffer count sofar D (Z.of_nat (length D)) P
  = (true, memcpy buffer sofar (drop (Z.to_nat P) D) (count - sofar), count,
     P + (count - sofar)).
Proof.
  intros Hs Hc HP HD Hb. unfold MemReadUntil.
  change (2 ^ 31) with 2147483648 in *. change (2 ^ 32) with 4294967296 in *.
  destruct (Z.leb_spec count sofar); [lia|].
  rewrite (u32_small (count - sofar)) by (change (2 ^ 32) with 4294967296; lia).
  rewrite (u32_small (P + _)) by (change (2 ^ 32) with 4294967296; lia).
  destruct (Z.ltb_spec (Z.of_nat (length D)) (P + (count - sofar))); [lia|].
  rewrite s32_small by (change (2 ^ 31) with 2147483648; lia).
  rewrite !u32_small by (change (2 ^ 32) with 4294967296; lia).
  replace (sofar + (count - sofar)) with count by lia.
  destruct (Z.leb_spec count count); [reflexivity|lia].
Qed.

Lemma rd_drop D P i : 0 <= P -> 0 <= i -> rd (drop (Z.to_nat P) D) i = rd D (P + i).
Proof.
  intros HP Hi. unfold rd.
  destruct (i <? 0) eqn:E; [lia|]. destruct (P + i <? 0) eqn:E'; [lia|].
  rewrite !nth_lookup, lookup_drop. do 2 f_equal. lia.
Qed.

Lemma take_ext_rd n a b :
  (n <= length a)%nat -> (n <= length b)%nat ->
  (forall i, 0 <= i < Z.of_nat n -> rd a i = rd b i) ->
  take n a = take n b.
Proof.
  intros Ha Hb H. apply list_eq. intros i.
  destruct (decide (i < n)%nat) as [Hi|Hi].
  - rewrite !lookup_take_lt by done.
    specialize (H (Z.of_nat i) ltac:(lia)). unfold rd in H.
    destruct (Z.of_nat i <? 0) eqn:E; [lia|]. rewrite Nat2Z.id in H.
    destruct (lookup_lt_is_Some_2 a i ltac:(lia)) as [x Hx].
    destruct (lookup_lt_is_Some_2 b i ltac:(lia)) as [y Hy].
    rewrite !nth_lookup, Hx, Hy in H. simpl in H. by rewrite Hx, Hy, H.
  - by rewrite !lookup_take_ge by lia.
Qed.

Lemma check_header_ext sg a b :
  (forall i, 0 <= i < 13 -> rd a i = rd b i) -> check_header sg a = check_header sg b.
Proof.
  intros H. unfold check_header, at_. by rewrite !H by lia.
Qed.

Lemma is_header_ext sg a b :
  (forall i, 0 <= i < 3 -> rd a i = rd b i) -> is_header sg a = is_header sg b.
Proof.
  intros H. unfold is_header, at_. by rewrite !H by lia.
Qed.

Lemma check_header_is_header sg a : check_header sg a = true -> is_header sg a = true.
Proof.
  unfold check_header, is_header.
  destruct (negb (at_ sg a 0 =? 70)); [done|].
  destruct (negb (at_ sg a 1 =? 76)); [done|].
  destruct (negb (at_ sg a 2 =? 86)); done.
Qed.

(** X14.  A loader in the header-reading state that is given a valid
    13-byte FLV file header (at offset [P] of the input) stores exactly
    these 13 bytes in [FLV::Header], reports no tag and no error,
    advances [P] by 13 and stays in the header-reading state with
    nothing read so far. *)
Theorem MemLoader_stores_file_header (r1 r2 : realloc_result) (D : bytes) (P : Z)
    (g : Globals) (t : Tag) :
  Tag_wf t -> done t = true -> sofar t = 0 ->
  fst (checkBufferSize r1 (min_len t)) = true ->
  0 <= P -> P + 13 <= Z.of_nat (length D) -> Z.of_nat (length D) < 2 ^ 32 ->
  check_header false (drop (Z.to_nat P) D) = true ->
  let '(b, P', g', t') := MemLoader false r1 r2 D (Z.of_nat (length D)) P g t in
  b = false /\ P' = P + 13
  /\ Header g' = take 13 (drop (Z.to_nat P) D)
  /\ Parse_Error g' = Parse_Error g /\ Error_Str g' = Error_Str g
  /\ done t' = true /\ sofar t' = 0.
Proof.
  intros Hwf Hdn Hsf Hok HP HD Hb Hh.
  destruct (checkBufferSize r1 (min_len t)) as [ok t1] eqn:Hc.
  simpl in Hok. subst ok.
  destruct (min_len_props t Hwf) as (Hwf0 & Hl0).
  destruct (checkBufferSize_grown r1 (min_len t) t1 Hwf0 ltac:(lia) Hc)
    as (Hwf1 & Hl1 & Hlen1 & Hd1 & Hs1 & _).
  assert (Hd : done t1 = true).
  { rewrite Hd1. unfold min_len. by destruct (len t <? 15). }
  assert (Hs : sofar t1 = 0).
  { rewrite Hs1. unfold min_len. by destruct (len t <? 15). }
  set (d1 := memcpy (block t1) 0 (drop (Z.to_nat P) D) 11).
  set (d2 := memcpy d1 11 (drop (Z.to_nat (P + 11)) D) 2).
  assert (Hr1 : MemReadUntil (block t1) 11 (sofar t1) D (Z.of_nat (length D)) P
                = (true, d1, 11, P + 11)).
  { rewrite Hs. rewrite MemReadUntil_full by (change (2 ^ 31) with 2147483648; lia).
    reflexivity. }
  assert (Hr2 : MemReadUntil d1 13 11 D (Z.of_nat (length D)) (P + 11)
                = (true, d2, 13, P + 13)).
  { rewrite MemReadUntil_full by (change (2 ^ 31) with 2147483648; lia).
    replace (13 - 11) with 2 by lia. replace (P + 11 + 2) with (P + 13) by lia.
    reflexivity. }
  assert (Hld1 : length d1 = length (block t1)) by apply length_memcpy.
  assert (Hld2 : length d2 = length (block t1))
    by (unfold d2; rewrite length_memcpy; done).
  assert (Hlen : 13 <= Z.of_nat (length (drop (Z.to_nat P) D)))
    by (rewrite length_drop; lia).
  assert (R1 : forall i, 0 <= i < 11 -> rd d1 i = rd (drop (Z.to_nat P) D) i).
  { intros i Hi. unfold d1. replace i with (0 + i) at 1 by lia.
    apply rd_memcpy_in; lia. }
  assert (R2 : forall i, 0 <= i < 13 -> rd d2 i = rd (drop (Z.to_nat P) D) i).
  { intros i Hi. unfold d2. destruct (Z.lt_ge_cases i 11).
    - rewrite rd_memcpy_out by lia. apply R1. lia.
    - replace i with (11 + (i - 11)) at 1 by lia.
      rewrite rd_memcpy_in by (rewrite ?length_drop; lia).
      rewrite !rd_drop by lia. f_equal. lia. }
  assert (Hh1 : is_header false d1 = true).
  { rewrite (is_header_ext false d1 (drop (Z.to_nat P) D))
      by (intros; apply R1; lia).
    by apply check_header_is_header. }
  assert (Hh2 : check_header false d2 = true).
  { by rewrite (check_header_ext false d2 (drop (Z.to_nat P) D)). }
  clearbody d1 d2. unfold MemLoader. after_header Hc Hd Hr1 Hh1.
  cbn [sofar with_sofar]. rewrite Hr2, Hh2. cbn. repeat split; try reflexivity; try lia.
  - apply take_ext_rd; [lia|rewrite length_drop; lia|]. intros i Hi. apply R2. lia.
  - done.
Qed.

Lemma MemLoader_stores_file_header_witness :
  let D := lit "FLV" ++ map to_char [1; 1; 0; 0; 0; 9; 0; 0; 0; 0] in
  let '(b, P', g', t') :=
    MemLoader false (ReallocOk []) (ReallocOk []) D (Z.of_nat (length D)) 0
              initial_Globals empty_Tag in
  b = false /\ P' = 0 + 13
  /\ Header g' = take 13 (drop (Z.to_nat 0) D)
  /\ Parse_Error g' = Parse_Error initial_Globals
  /\ Error_Str g' = Error_Str initial_Globals
  /\ done t' = true /\ sofar t' = 0.
Proof.
  apply (MemLoader_stores_file_header (ReallocOk []) (ReallocOk [])
           (lit "FLV" ++ map to_char [1; 1; 0; 0; 0; 9; 0; 0; 0; 0]) 0
           initial_Globals empty_Tag);
    first [reflexivity | simpl; lia].
Defined.

Lemma checkBufferSize_enough r t :
  len t <= buf t -> is_Some (data t) -> checkBufferSize r t = (true, t).
Proof.
  intros Hl Hd. unfold checkBufferSize.
  destruct (Z.ltb_spec (buf t) (len t)); [lia|].
  by rewrite bool_decide_eq_true_2.
Qed.

Lemma Tag_wf_is_Some t : Tag_wf t -> 0 < Z.of_nat (length (block t)) -> is_Some (data t).
Proof. unfold Tag_wf, block. destruct (data t); simpl; [eauto|lia]. Qed.

(** A byte below 0x80 is promoted to the same number whether the plain
    [char] is signed or not. *)
Lemma char_val_low sg c : (sg = true -> uchar c < 128) -> char_val sg c = uchar c.
Proof.
  intros H. unfold char_val, schar. destruct sg; [|reflexivity].
  destruct (Z.ltb_spec (uchar c) 128); [reflexivity|]. specialize (H eq_refl). lia.
Qed.

Lemma land_char_val_240 sg c : Z.land (char_val sg c) 240 = Z.land (uchar c) 240.
Proof. destruct sg; [apply land_schar_240|reflexivity]. Qed.

Lemma len_announced_len_low sg t :
  (sg = true -> uchar (rd (block t) 1) < 128 /\ uchar (rd (block t) 2) < 128
                /\ uchar (rd (block t) 3) < 128) ->
  len (announced_len sg t)
  = uchar (rd (block t) 3) + 15 + uchar (rd (block t) 2) * 256
    + uchar (rd (block t) 1) * 65536.
Proof.
  intros H. rewrite <- len_announced_len.
  unfold announced_len, block. cbn [len with_len data buf done].
  fold (block t). unfold at_.
  rewrite !(char_val_low sg) by (intros E; destruct (H E) as (? & ? & ?); assumption).
  reflexivity.
Qed.

(** X15.  A loader in the header-reading state that finds a whole tag
    at offset [P] of the input (a type byte of at most 0x12, then the
    24-bit body length; [n] is the announced tag length) and is granted
    its buffer needs two calls: the first reads the 11 header bytes and
    reports no tag, the second reads the rest and reports the tag.  The
    tag then holds exactly the [n] input bytes, [P] has advanced by
    [n], no error is set, the loader is back in the header-reading
    state, and [isKeyframe] tells whether the tag is a video tag whose
    frame type is 1.  This holds where the plain [char] is unsigned,
    and where it is signed for a tag whose three length bytes are below
    0x80, which the loader then promotes without a sign. *)
Theorem MemLoader_reads_tag (sg : bool) (fresh1 fresh2 : bytes) (r3 r4 : realloc_result)
    (D : bytes) (P : Z) (g : Globals) (t : Tag) :
  Tag_wf t -> done t = true -> sofar t = 0 ->
  0 <= P ->
  let n := uchar (rd D (P + 3)) + 15 + uchar (rd D (P + 2)) * 256
           + uchar (rd D (P + 1)) * 65536 in
  P + n <= Z.of_nat (length D) -> Z.of_nat (length D) < 2 ^ 32 ->
  uchar (rd D P) <= 18 ->
  (sg = true -> uchar (rd D (P + 1)) < 128 /\ uchar (rd D (P + 2)) < 128
                /\ uchar (rd D (P + 3)) < 128) ->
  let '(b1, P1, g1, t1) :=
    MemLoader sg (ReallocOk fresh1) (ReallocOk fresh2) D (Z.of_nat (length D)) P g t in
  let '(b2, P2, g2, t2) := MemLoader sg r3 r4 D (Z.of_nat (length D)) P1 g1 t1 in
  b1 = false /\ P1 = P + 11 /\ g1 = g /\ done t1 = false
  /\ b2 = true /\ P2 = P + n /\ g2 = g
  /\ len t2 = n
  /\ (forall i, 0 <= i < n -> rd (block t2) i = rd D (P + i))
  /\ done t2 = true /\ sofar t2 = 0
  /\ isKeyframe t2
     = (uchar (rd D P) =? 9) && (Z.shiftr (Z.land (uchar (rd D (P + 11))) 240) 4 =? 1).
Proof.
  intros Hwf Hdn Hsf HP n HD Hb Hty Hsg.
  assert (Hty' : sg = true -> uchar (rd D P) < 128) by (intros _; lia).
  pose proof (uchar_range (rd D (P + 3))) as B3.
  pose proof (uchar_range (rd D (P + 2))) as B2.
  pose proof (uchar_range (rd D (P + 1))) as B1.
  assert (Hn : 15 <= n <= 16777230) by (unfold n; lia).
  assert (En : n = uchar (rd D (P + 3)) + 15 + uchar (rd D (P + 2)) * 256
                   + uchar (rd D (P + 1)) * 65536) by reflexivity.
  clearbody n.
  (* the first call *)
  pose proof (checkBufferSize_ok fresh1 (min_len t)) as Hok.
  destruct (checkBufferSize (ReallocOk fresh1) (min_len t)) as [ok ta] eqn:Hc.
  simpl in Hok. subst ok.
  destruct (min_len_props t Hwf) as (Hwf0 & Hl0).
  destruct (checkBufferSize_grown _ (min_len t) ta Hwf0 ltac:(lia) Hc)
    as (Hwfa & Hla & Hlena & Hda & Hsa & _).
  assert (Hd : done ta = true).
  { rewrite Hda. unfold min_len. by destruct (len t <? 15). }
  assert (Hs : sofar ta = 0).
  { rewrite Hsa. unfold min_len. by destruct (len t <? 15). }
  set (d1 := memcpy (block ta) 0 (drop (Z.to_nat P) D) 11).
  assert (Hr1 : MemReadUntil (block ta) 11 (sofar ta) D (Z.of_nat (length D)) P
                = (true, d1, 11, P + 11)).
  { rewrite Hs. rewrite MemReadUntil_full by (change (2 ^ 31) with 2147483648; lia).
    reflexivity. }
  assert (Hld1 : length d1 = length (block ta)) by apply length_memcpy.
  assert (R1 : forall i, 0 <= i < 11 -> rd d1 i = rd D (P + i)).
  { intros i Hi. unfold d1. replace i with (0 + i) at 1 by lia.
    rewrite rd_memcpy_in by (rewrite ?length_drop; lia). apply rd_drop; lia. }
  assert (Hh1 : is_header sg d1 = false).
  { unfold is_header, at_. rewrite (R1 0) by lia. rewrite Z.add_0_r.
    rewrite (char_val_low sg) by exact Hty'.
    destruct (Z.eqb_spec (uchar (rd D P)) 70); [lia|reflexivity]. }
  clearbody d1.
  set (th := with_sofar 11 (with_data (Some d1) ta)).
  assert (Hbh : block th = d1) by reflexivity.
  assert (Hlh : len (announced_len sg th) = n).
  { rewrite len_announced_len_low; rewrite Hbh, (R1 3), (R1 2), (R1 1) by lia;
      [by rewrite En|exact Hsg]. }
  assert (Hwfh : Tag_wf (announced_len sg th)).
  { unfold Tag_wf in *. cbn. unfold block in *. destruct (data ta); simpl in *; lia. }
  pose proof (checkBufferSize_ok fresh2 (announced_len sg th)) as Hok.
  destruct (checkBufferSize (ReallocOk fresh2) (announced_len sg th)) as [ok tb] eqn:Hc2.
  simpl in Hok. subst ok.
  destruct (checkBufferSize_grown _ (announced_len sg th) tb Hwfh ltac:(lia) Hc2)
    as (Hwfb & Hlb & Hlenb & Hdb & Hsb & Hrdb).
  rewrite Hlh in *.
  assert (Hblk : block (announced_len sg th) = d1) by reflexivity.
  rewrite Hblk in Hrdb.
  assert (Hsfb : sofar tb = 11) by (rewrite Hsb; reflexivity).
  assert (R0 : forall i, 0 <= i < 11 -> rd (block tb) i = rd D (P + i)).
  { intros i Hi. rewrite Hrdb by lia. apply R1. lia. }
  unfold MemLoader at 1. after_header Hc Hd Hr1 Hh1. fold th. rewrite Hc2.
  cbn [negb]. unfold at_ at 1. rewrite (R0 0) by lia. rewrite Z.add_0_r.
  rewrite (char_val_low sg) by exact Hty'.
  destruct (Z.ltb_spec 18 (uchar (rd D P))); [lia|].
  (* the second call *)
  set (t1 := with_done false tb).
  assert (Hm : min_len t1 = t1).
  { unfold min_len. cbn [len t1 with_done]. destruct (Z.ltb_spec (len tb) 15); [lia|done]. }
  assert (Hc3 : checkBufferSize r3 t1 = (true, t1)).
  { apply checkBufferSize_enough.
    - apply (checkBufferSize_true _ _ _ Hc2).
    - apply (Tag_wf_is_Some tb Hwfb). lia. }
  set (d3 := memcpy (block tb) 11 (drop (Z.to_nat (P + 11)) D) (n - 11)).
  assert (Hr3 : MemReadUntil (block t1) (u32 (len t1)) (sofar t1) D
                  (Z.of_nat (length D)) (P + 11)
                = (true, d3, n, P + n)).
  { cbn [block len sofar t1 with_done data]. fold (block tb). rewrite Hlb, Hsfb.
    rewrite u32_small by (change (2 ^ 32) with 4294967296; lia).
    rewrite MemReadUntil_full by (change (2 ^ 31) with 2147483648; lia).
    replace (P + 11 + (n - 11)) with (P + n) by lia. reflexivity. }
  assert (R3 : forall i, 0 <= i < n -> rd d3 i = rd D (P + i)).
  { intros i Hi. unfold d3. destruct (Z.lt_ge_cases i 11).
    - rewrite rd_memcpy_out by lia. apply R0. lia.
    - replace i with (11 + (i - 11)) at 1 by lia.
      rewrite rd_memcpy_in by (rewrite ?length_drop; lia).
      rewrite rd_drop by lia. f_equal. lia. }
  clearbody d3.
  unfold MemLoader. rewrite Hm, Hc3. cbn [negb].
  replace (done t1) with false by reflexivity. rewrite Hr3.
  cbn [block with_sofar with_data with_done with_isKeyframe data default from_option id].
  unfold at_. rewrite (R3 0), (R3 11) by lia. rewrite Z.add_0_r.
  rewrite land_char_val_240, (char_val_low sg (rd D P)) by exact Hty'.
  cbn [len isKeyframe done sofar t1 with_done].
  repeat split; try reflexivity; try assumption.
Qed.

Lemma MemLoader_reads_tag_witness :
  let D := tag_header 9 1 ++ map to_char [23; 0; 0; 0; 12] in
  let '(b1, P1, g1, t1) :=
    MemLoader true (ReallocOk []) (ReallocOk []) D (Z.of_nat (length D)) 0
              initial_Globals empty_Tag in
  let '(b2, P2, g2, t2) :=
    MemLoader true ReallocFail ReallocFail D (Z.of_nat (length D)) P1 g1 t1 in
  b1 = false /\ P1 = 0 + 11 /\ g1 = initial_Globals /\ done t1 = false
  /\ b2 = true /\ P2 = 0 + 16 /\ g2 = initial_Globals
  /\ len t2 = 16
  /\ (forall i, 0 <= i < 16 -> rd (block t2) i = rd D (0 + i))
  /\ done t2 = true /\ sofar t2 = 0
  /\ isKeyframe t2
     = (uchar (rd D 0) =? 9) && (Z.shiftr (Z.land (uchar (rd D (0 + 11))) 240) 4 =? 1).
Proof.
  apply (MemLoader_reads_tag true [] [] ReallocFail ReallocFail
           (tag_header 9 1 ++ map to_char [23; 0; 0; 0; 12]) 0 initial_Globals empty_Tag);
    first [reflexivity | vm_compute; reflexivity | vm_compute; discriminate
          | intros _; vm_compute; repeat split; reflexivity].
Defined.

End flv_loaders.

(** ** flv_tag.cpp: the file loader and the memory loader *)

Section flv_file_loader.

Import FLV.

Lemma MemReadUntil_bounds buffer count sofar D P :
  0 <= P <= Z.of_nat (length D) -> Z.of_nat (length D) < 2 ^ 31 ->
  0 <= sofar -> count < 2 ^ 31 ->
  let '(b, d, sf, P') := MemReadUntil buffer count sofar D (Z.of_nat (length D)) P in
  P <= P' <= Z.of_nat (length D) /\ 0 <= sf.
Proof.
  intros HP HD Hs Hc. unfold MemReadUntil.
  change (2 ^ 31) with 2147483648 in *.
  destruct (Z.leb_spec count sofar); [lia|].
  rewrite (u32_small (count - sofar)) by (change (2 ^ 32) with 4294967296; lia).
  rewrite (u32_small (P + _)) by (change (2 ^ 32) with 4294967296; lia).
  destruct (Z.ltb_spec (Z.of_nat (length D)) (P + (count - sofar)));
    rewrite s32_small by (change (2 ^ 31) with 2147483648; lia);
    rewrite !u32_small by (change (2 ^ 32) with 4294967296; lia);
    destruct (_ <=? _); lia.
Qed.

(** [FileReadUntil] on the rest of a file is [MemReadUntil] on the whole
    of it at the offset of the rest. *)
Lemma FileReadUntil_as_MemReadUntil buffer count sofar D P g :
  0 <= P <= Z.of_nat (length D) -> Z.of_nat (length D) < 2 ^ 31 ->
  0 <= sofar -> count < 2 ^ 31 ->
  FileReadUntil buffer count sofar (drop (Z.to_nat P) D) g
  = let '(b, d, sf, P') := MemReadUntil buffer count sofar D (Z.of_nat (length D)) P in
    (b, d, sf, drop (Z.to_nat P') D, g).
Proof.
  intros HP HD Hs Hc. unfold FileReadUntil, MemReadUntil.
  change (2 ^ 31) with 2147483648 in *.
  destruct (Z.leb_spec count sofar); [reflexivity|].
  rewrite (u32_small (count - sofar)) by (change (2 ^ 32) with 4294967296; lia).
  rewrite (u32_small (P + _)) by (change (2 ^ 32) with 4294967296; lia).
  set (r := if Z.of_nat (length D) <? P + (count - sofar)
            then s32 (Z.of_nat (length D) - P) else s32 (count - sofar)).
  assert (Hr : r = Z.min (count - sofar) (Z.of_nat (length D) - P)).
  { unfold r. destruct (Z.ltb_spec (Z.of_nat (length D)) (P + (count - sofar)));
      rewrite s32_small by (change (2 ^ 31) with 2147483648; lia); lia. }
  assert (Hg : Z.of_nat (length (take (Z.to_nat (count - sofar)) (drop (Z.to_nat P) D))) = r).
  { rewrite length_take, length_drop. lia. }
  assert (Eg : take (Z.to_nat (count - sofar)) (drop (Z.to_nat P) D)
               = take (Z.to_nat r) (drop (Z.to_nat P) D)).
  { destruct (Z.le_gt_cases (count - sofar) (Z.of_nat (length D) - P)).
    - do 2 f_equal. lia.
    - rewrite !take_ge by (rewrite length_drop; lia). reflexivity. }
  clearbody r. rewrite Hg.
  rewrite (s32_small r) by (change (2 ^ 31) with 2147483648; lia).
  destruct (Z.ltb_spec r 0); [lia|].
  rewrite !u32_small by (change (2 ^ 32) with 4294967296; lia).
  assert (Em : memcpy buffer sofar (take (Z.to_nat (count - sofar)) (drop (Z.to_nat P) D)) r
               = memcpy buffer sofar (drop (Z.to_nat P) D) r).
  { unfold memcpy. destruct (sofar <? 0); [reflexivity|]. f_equal.
    rewrite Eg. by rewrite take_take, Nat.min_id. }
  assert (Ed : drop (length (take (Z.to_nat (count - sofar)) (drop (Z.to_nat P) D)))
                    (drop (Z.to_nat P) D) = drop (Z.to_nat (P + r)) D).
  { rewrite drop_drop. f_equal. lia. }
  rewrite Em, Ed. destruct (_ <=? _); reflexivity.
Qed.

Lemma checkBufferSize_keeps r t t' :
  checkBufferSize r t = (true, t') -> len t' = len t /\ sofar t' = sofar t.
Proof.
  unfold checkBufferSize. destruct (_ || _).
  - destruct (realloc (data t) (len t) r); [|discriminate]. by intros [= <-].
  - by intros [= <-].
Qed.

(** X16.  [Tag::FileLoader] and [Tag::MemLoader] are one state machine:
    on a file whose unread bytes are the bytes of [D] from offset [P]
    on, [FileLoader] returns what [MemLoader] returns on [D] at [P], with
    the same tag and the same globals, and leaves unread the bytes from
    the offset [MemLoader] leaves.  (Sizes below 2^31, the range of the
    [int] that holds the result of [fread].) *)
Theorem FileLoader_is_MemLoader (sg : bool) (r1 r2 : realloc_result) (D : bytes) (P : Z)
    (g : Globals) (t : Tag) :
  0 <= P <= Z.of_nat (length D) -> Z.of_nat (length D) < 2 ^ 31 ->
  0 <= sofar t -> len t < 2 ^ 31 ->
  FileLoader sg r1 r2 (drop (Z.to_nat P) D) g t
  = let '(b, P', g', t') := MemLoader sg r1 r2 D (Z.of_nat (length D)) P g t in
    (b, drop (Z.to_nat P') D, g', t').
Proof.
  intros HP HD Hs Hl. unfold FileLoader, MemLoader.
  destruct (checkBufferSize r1 (min_len t)) as [ok t1] eqn:Hc.
  destruct ok; cbn [negb]; [|reflexivity].
  destruct (checkBufferSize_keeps _ _ _ Hc) as [Hl1 Hs1].
  assert (Hs1' : 0 <= sofar t1).
  { rewrite Hs1. unfold min_len. by destruct (len t <? 15). }
  assert (Hl1' : 15 <= len t1 < 2 ^ 31).
  { rewrite Hl1. unfold min_len. change (2 ^ 31) with 2147483648 in *.
    destruct (Z.ltb_spec (len t) 15); cbn; lia. }
  destruct (done t1).
  - rewrite FileReadUntil_as_MemReadUntil
      by (try assumption; change (2 ^ 31) with 2147483648; lia).
    pose proof (MemReadUntil_bounds (block t1) 11 (sofar t1) D P HP HD Hs1'
                  ltac:(change (2 ^ 31) with 2147483648; lia)) as Hb.
    destruct (MemReadUntil (block t1) 11 (sofar t1) D (Z.of_nat (length D)) P)
      as [[[b d] sf] P1].
    destruct Hb as [HP1 Hsf].
    destruct b; [|reflexivity].
    cbn [block with_sofar with_data data default from_option id sofar].
    destruct (is_header sg d).
    + rewrite FileReadUntil_as_MemReadUntil
        by (try assumption; try lia; change (2 ^ 31) with 2147483648; lia).
      destruct (MemReadUntil d 13 sf D (Z.of_nat (length D)) P1) as [[[b d'] sf'] P2].
      destruct b; [|reflexivity].
      cbn [block with_sofar with_data data default from_option id].
      destruct (check_header sg d'); reflexivity.
    + destruct (checkBufferSize r2 _) as [ok t2]. destruct ok; cbn [negb]; [|reflexivity].
      destruct (18 <? _); reflexivity.
  - rewrite (u32_small (len t1)) by (change (2 ^ 32) with 4294967296;
                                     change (2 ^ 31) with 2147483648 in *; lia).
    rewrite FileReadUntil_as_MemReadUntil by (try assumption; lia).
    destruct (MemReadUntil (block t1) (len t1) (sofar t1) D (Z.of_nat (length D)) P)
      as [[[b d] sf] P1].
    destruct b; reflexivity.
Qed.

Lemma FileLoader_is_MemLoader_witness :
  FileLoader false (ReallocOk []) (ReallocOk []) (drop (Z.to_nat 0) (tag_header 9 1)) 
             initial_Globals empty_Tag
  = let '(b, P', g', t') :=
      MemLoader false (ReallocOk []) (ReallocOk []) (tag_header 9 1)
                (Z.of_nat (length (tag_header 9 1))) 0 initial_Globals empty_Tag in
    (b, drop (Z.to_nat P') (tag_header 9 1), g', t').
Proof.
  apply (FileLoader_is_MemLoader false (ReallocOk []) (ReallocOk []) (tag_header 9 1) 0
           initial_Globals empty_Tag);
    first [simpl; lia | vm_compute; reflexivity].
Defined.

Lemma copy_bytes_spec dst src n i :
  0 <= i < n -> n <= Z.of_nat (length src) -> n <= Z.of_nat (length dst) ->
  rd (memcpy dst 0 src n) i = rd src i.
Proof.
  intros Hi Hs Hd. replace i with (0 + i) at 1 by lia. apply rd_memcpy_in; lia.
Qed.

(** X17.  [Tag::operator=] from a tag [O] of [len] bytes that its buffer
    holds, when the buffer of the target could be had: the target then
    has the length, the keyframe flag and the [len] bytes of [O], and
    its buffer bookkeeping stays right; its [done] and [sofar] are not
    assigned. *)
Theorem assign_copies_tag (r : realloc_result) (O t : Tag) :
  Tag_wf t ->
  0 < len O -> len O <= Z.of_nat (length (block O)) ->
  fst (checkBufferSize r (with_len (len O) t)) = true ->
  let t' := assign r O t in
  len t' = len O
  /\ isKeyframe t' = isKeyframe O
  /\ (forall i, 0 <= i < len O -> rd (block t') i = rd (block O) i)
  /\ Tag_wf t'
  /\ done t' = done t /\ sofar t' = sofar t.
Proof.
  intros Hwf Hl Hb Hok. unfold assign. cbn [len with_len].
  destruct (Z.ltb_spec 0 (len O)); [|lia].
  destruct (checkBufferSize r (with_len (len O) t)) as [ok t1] eqn:Hc.
  simpl in Hok. subst ok.
  destruct (checkBufferSize_grown r (with_len (len O) t) t1 Hwf ltac:(cbn; lia) Hc)
    as (Hwf1 & Hl1 & Hlen1 & Hd1 & Hs1 & _).
  cbn [len with_len] in Hl1, Hlen1. cbv zeta.
  split; [cbn; lia|]. split; [reflexivity|]. split; [|split; [|split]].
  - intros i Hi.
    change (block (with_isKeyframe (isKeyframe O) (copy_in 0 (block O) (len t1) t1)))
      with (block (copy_in 0 (block O) (len t1) t1)).
    rewrite block_copy_in. apply copy_bytes_spec; lia.
  - unfold Tag_wf in *. cbn. destruct (data t1) as [d|]; cbn in *; [|done].
    by rewrite length_memcpy_at.
  - exact Hd1.
  - exact Hs1.
Qed.

Lemma assign_copies_tag_witness :
  let O := mkTag 3 true (Some (lit "abcd")) 4 true 0 in
  let t' := assign (ReallocOk []) O empty_Tag in
  len t' = len O
  /\ isKeyframe t' = isKeyframe O
  /\ (forall i, 0 <= i < len O -> rd (block t') i = rd (block O) i)
  /\ Tag_wf t'
  /\ done t' = done empty_Tag /\ sofar t' = sofar empty_Tag.
Proof.
  apply (assign_copies_tag (ReallocOk []) (mkTag 3 true (Some (lit "abcd")) 4 true 0)
           empty_Tag);
    first [reflexivity | simpl; lia].
Defined.

End flv_file_loader.

(** ** http_parser.cpp: trimming, headers and variables *)

Section http_fields.

Import HTTP.

Lemma rev_reverse {A} (l : list A) : rev l = reverse l.
Proof. apply rev_alt. Qed.

Lemma ffnb_None s :
  find_first_not_blank s = None -> forall c, c ∈ s -> is_blank c = true.
Proof.
  induction s as [|x s IH]; intros H c Hc; [by apply elem_of_nil in Hc|].
  cbn [find_first_not_blank] in H. destruct (is_blank x) eqn:E; [|done].
  destruct (find_first_not_blank s); [done|].
  apply elem_of_cons in Hc as [->|Hc]; [done|by apply IH].
Qed.

Lemma ffnb_Some s k :
  find_first_not_blank s = Some k ->
  (exists c, s !! k = Some c /\ is_blank c = false)
  /\ (forall j c, (j < k)%nat -> s !! j = Some c -> is_blank c = true).
Proof.
  revert k. induction s as [|x s IH]; intros k H; [done|].
  cbn [find_first_not_blank] in H. destruct (is_blank x) eqn:E.
  - destruct (find_first_not_blank s) as [k'|]; [|done]. injection H as <-.
    destruct (IH k' eq_refl) as [Hc Hb]. split; [exact Hc|].
    intros [|j] c Hj Hl; simpl in Hl; [by injection Hl as <-|].
    apply (Hb j); [lia|done].
  - injection H as <-. split; [by exists x|]. intros j c Hj. lia.
Qed.

Lemma ffnb_head s c : head s = Some c -> is_blank c = false -> find_first_not_blank s = Some 0%nat.
Proof. destruct s; [done|]. simpl. by intros [= ->] ->. Qed.

(** The two positions [Trim] computes, when the string has a byte that
    is not blank. *)
Lemma trim_positions s st :
  find_first_not_blank s = Some st ->
  exists en, find_last_not_blank s = Some en /\ (st <= en < length s)%nat
    /\ (exists c, s !! en = Some c /\ is_blank c = false)
    /\ (forall j c, (en < j)%nat -> s !! j = Some c -> is_blank c = true).
Proof.
  intros Hst. destruct (ffnb_Some s st Hst) as [(c & Hc & Hnb) Hbefore].
  unfold find_last_not_blank.
  destruct (find_first_not_blank (rev s)) as [k|] eqn:Hk.
  - destruct (ffnb_Some (rev s) k Hk) as [(c' & Hc' & Hnb') Hafter].
    assert (Hkl : (k < length s)%nat).
    { apply lookup_lt_Some in Hc'. by rewrite length_rev in Hc'. }
    rewrite rev_reverse, reverse_lookup in Hc' by done.
    exists (length s - 1 - k)%nat. simpl. split; [done|].
    assert (Hafter' : forall j c0, (length s - 1 - k < j)%nat -> s !! j = Some c0 ->
                                   is_blank c0 = true).
    { intros j c0 Hj Hl. pose proof (lookup_lt_Some _ _ _ Hl) as Hjl.
      apply (Hafter (length s - 1 - j)%nat c0); [lia|].
      rewrite rev_reverse, reverse_lookup by lia.
      replace (length s - S (length s - 1 - j))%nat with j by lia. done. }
    replace (length s - S k)%nat with (length s - 1 - k)%nat in Hc' by lia.
    split; [|split; [by exists c'|done]].
    split; [|lia].
    destruct (decide (st <= length s - 1 - k)%nat); [done|].
    rewrite (Hafter' st c) in Hnb; [done|lia|done].
  - exfalso. pose proof (ffnb_None _ Hk c) as H.
    rewrite H in Hnb; [done|]. rewrite rev_reverse, elem_of_reverse.
    by apply list_elem_of_lookup_2 in Hc.
Qed.

Lemma Trim_blank s : find_first_not_blank s = None -> Trim s = [].
Proof. intros H. unfold Trim. by rewrite H. Qed.

(** A string that neither begins nor ends with a blank is its own
    trimming. *)
Lemma Trim_fixed s c c' :
  head s = Some c -> is_blank c = false ->
  last s = Some c' -> is_blank c' = false ->
  Trim s = s.
Proof.
  intros Hh Hc Hl Hc'. unfold Trim, find_last_not_blank.
  rewrite (ffnb_head s c Hh Hc).
  assert (Hr : find_first_not_blank (rev s) = Some 0%nat).
  { apply (ffnb_head _ c'); [|done].
    rewrite rev_reverse, head_reverse. done. }
  rewrite Hr. simpl. unfold substr. rewrite drop_0.
  apply take_ge. destruct s; simpl in *; [done|lia].
Qed.

(** X18.  [Parser::Trim] removes blanks (space and tab) at both ends and
    nothing else: the string is some blanks, its trimming and some
    blanks again; the trimming neither begins nor ends with a blank;
    and trimming twice is trimming once. *)
Theorem Trim_strips_blank_ends (s : bytes) :
  (exists a b, s = a ++ Trim s ++ b
     /\ Forall (fun c => is_blank c = true) a /\ Forall (fun c => is_blank c = true) b)
  /\ (forall c, head (Trim s) = Some c -> is_blank c = false)
  /\ (forall c, last (Trim s) = Some c -> is_blank c = false)
  /\ Trim (Trim s) = Trim s.
Proof.
  destruct (find_first_not_blank s) as [st|] eqn:Hst.
  - destruct (trim_positions s st Hst)
      as (en & Hen & Hle & (c' & Hc' & Hnb') & Hafter).
    destruct (ffnb_Some s st Hst) as [(c & Hc & Hnb) Hbefore].
    assert (HT : Trim s = take (en - st + 1) (drop st s)).
    { unfold Trim. rewrite Hst, Hen. reflexivity. }
    assert (Hhead : head (Trim s) = Some c).
    { rewrite HT, head_lookup, lookup_take_lt, lookup_drop by lia.
      by rewrite Nat.add_0_r. }
    assert (Hlast : last (Trim s) = Some c').
    { rewrite HT, last_lookup, length_take, length_drop.
      replace (Init.Nat.pred ((en - st + 1) `min` (length s - st)))%nat
        with (en - st)%nat by lia.
      rewrite lookup_take_lt, lookup_drop by lia.
      by replace (st + (en - st))%nat with en by lia. }
    split; [|split; [|split]].
    + exists (take st s), (drop (en + 1) s). split; [|split].
      * rewrite HT. rewrite <- (take_drop st s) at 1. f_equal.
        rewrite <- (take_drop (en - st + 1) (drop st s)) at 1. f_equal.
        rewrite drop_drop. f_equal. lia.
      * apply Forall_forall. intros x Hx. apply list_elem_of_lookup in Hx as [j Hj].
        apply lookup_take_Some in Hj as [Hj Hlt]. by apply (Hbefore j).
      * apply Forall_forall. intros x Hx. apply list_elem_of_lookup in Hx as [j Hj].
        rewrite lookup_drop in Hj. apply (Hafter (en + 1 + j)%nat); [lia|done].
    + intros x Hx. rewrite Hhead in Hx. by injection Hx as <-.
    + intros x Hx. rewrite Hlast in Hx. by injection Hx as <-.
    + by apply (Trim_fixed _ c c').
  - rewrite (Trim_blank s Hst). split; [|done].
    exists s, []. rewrite app_nil_r. split; [done|]. split; [|done].
    apply Forall_forall. intros c Hc. by apply (ffnb_None s Hst).
Qed.

End http_fields.

(** ** http_parser.cpp: variables *)

Section http_vars.

Import HTTP.

Lemma with_vars_SetVar i v p : with_vars (vars p) (SetVar i v p) = p.
Proof. unfold SetVar. destruct (negb _); by destruct p. Qed.

Lemma SetVar_no_empty_key i v p : vars p !! [] = None -> vars (SetVar i v p) !! [] = None.
Proof.
  intros H. unfold SetVar. destruct (decide (Trim i = [])) as [E|E].
  - by rewrite bool_decide_eq_true_2.
  - rewrite bool_decide_eq_false_2 by done. cbn. by rewrite lookup_insert_ne.
Qed.

Lemma parseVars_loop_frame sg fuel pos data p :
  with_vars (vars p) (parseVars_loop sg fuel pos data p) = p
  /\ (vars p !! [] = None -> vars (parseVars_loop sg fuel pos data p) !! [] = None).
Proof.
  revert pos p. induction fuel as [|fuel IH]; intros pos p.
  - split; [by destruct p|done].
  - rewrite parseVars_loop_S. destruct (pos <? length data)%nat.
    2: { split. by destruct p. done. }
    cbv zeta.
    destruct (match find_from "="%char pos data with
              | Some eq_pos => _ | None => _ end) as [varname varval].
    set (p1 := SetVar _ _ p). destruct (IH (default (length data) (find_from "&"%char pos data) + 1)%nat p1)
      as [H1 H2].
    split.
    + rewrite <- (with_vars_SetVar (urlunescape sg varname) (urlunescape sg varval) p) at 2.
      fold p1. rewrite <- H1 at 2. by destruct (parseVars_loop _ _ _ _ p1), p1.
    + intros H. apply H2. by apply SetVar_no_empty_key.
Qed.

(** The variables [parseVars] leaves depend on the variables it finds
    only. *)
Lemma vars_parseVars_loop sg fuel pos data p p' :
  vars p = vars p' ->
  vars (parseVars_loop sg fuel pos data p) = vars (parseVars_loop sg fuel pos data p').
Proof.
  revert pos p p'. induction fuel as [|fuel IH]; intros pos p p' H; [done|].
  rewrite !parseVars_loop_S. destruct (pos <? length data)%nat; [|done].
  cbv zeta.
  destruct (match find_from "="%char pos data with
            | Some eq_pos => _ | None => _ end) as [varname varval].
  apply IH. unfold SetVar. destruct (negb _); [|done]. cbn. by rewrite H.
Qed.

Lemma find_char_app_l c a b k :
  find_char c a = Some k -> find_char c (a ++ b) = Some k.
Proof.
  revert k. induction a as [|x a IH]; intros k; [done|]. simpl.
  destruct (bool_decide (x = c)); [done|].
  destruct (find_char c a) as [j|]; [|done]. intros [= <-]. by rewrite (IH j).
Qed.

Lemma find_char_app_r c a b :
  find_char c a = None ->
  find_char c (a ++ b) = (fun k => (length a + k)%nat) <$> find_char c b.
Proof.
  induction a as [|x a IH]; intros H; simpl.
  - by destruct (find_char c b).
  - simpl in H. destruct (bool_decide (x = c)); [done|].
    destruct (find_char c a); [done|]. rewrite IH by done.
    by destruct (find_char c b).
Qed.

Lemma find_char_cons_eq c b : find_char c (c :: b) = Some 0%nat.
Proof. simpl. by rewrite bool_decide_eq_true_2. Qed.

Lemma find_char_sep c a b :
  find_char c a = None -> find_char c (a ++ c :: b) = Some (length a).
Proof.
  intros H. rewrite find_char_app_r, find_char_cons_eq by done. simpl. f_equal. lia.
Qed.

Lemma find_from_0 c s : find_from c 0 s = find_char c s.
Proof. unfold find_from. rewrite drop_0. by destruct (find_char c s). Qed.

(** The loop from position [pos] on reads the data from [pos] on. *)
Lemma parseVars_loop_shift sg fuel pos data p :
  parseVars_loop sg fuel pos data p = parseVars_loop sg fuel 0 (drop pos data) p.
Proof.
  revert pos data p. induction fuel as [|fuel IH]; intros pos data p; [reflexivity|].
  rewrite !parseVars_loop_S.
  pose proof (length_drop data pos) as Hld.
  destruct (Nat.ltb_spec pos (length data)) as [Hlt|Hge];
    destruct (Nat.ltb_spec 0 (length (drop pos data))); try lia; [|reflexivity].
  cbv zeta. rewrite !find_from_0. unfold find_from.
  set (d := drop pos data).
  assert (Hd : length d = (length data - pos)%nat) by (unfold d; apply length_drop).
  assert (En : default (length data) ((fun k => (pos + k)%nat) <$> find_char "&"%char d)
               = (pos + default (length d) (find_char "&"%char d))%nat).
  { destruct (find_char "&"%char d); simpl; lia. }
  rewrite En. set (np := default (length d) (find_char "&"%char d)).
  assert (Ep : match (fun k => (pos + k)%nat) <$> find_char "="%char d with
               | Some eq_pos =>
                   if (eq_pos <? pos + np)%nat
                   then (substr pos (eq_pos - pos) data,
                         substr (eq_pos + 1) (pos + np - eq_pos - 1) data)
                   else (substr pos (pos + np - pos) data, [])
               | None => (substr pos (pos + np - pos) data, [])
               end
               = match find_char "="%char d with
                 | Some eq_pos =>
                     if (eq_pos <? np)%nat
                     then (substr 0 (eq_pos - 0) d, substr (eq_pos + 1) (np - eq_pos - 1) d)
                     else (substr 0 (np - 0) d, [])
                 | None => (substr 0 (np - 0) d, [])
                 end).
  { unfold substr, d. rewrite !drop_0.
    replace (pos + np - pos)%nat with (np - 0)%nat by lia.
    destruct (find_char "="%char (drop pos data)) as [e|];
      cbn [fmap option_fmap option_map]; [|reflexivity].
    destruct (Nat.ltb_spec (pos + e) (pos + np)), (Nat.ltb_spec e np); try lia;
      [|reflexivity].
    rewrite drop_drop.
    replace (pos + e - pos)%nat with (e - 0)%nat by lia.
    replace (pos + np - (pos + e) - 1)%nat with (np - e - 1)%nat by lia.
    replace (pos + e + 1)%nat with (pos + (e + 1))%nat by lia. reflexivity. }
  rewrite Ep.
  destruct (match find_char "="%char d with
            | Some eq_pos => _ | None => _ end) as [varname varval].
  rewrite (IH (pos + np + 1)%nat), (IH (np + 1)%nat). unfold d. rewrite drop_drop.
  do 2 f_equal. lia.
Qed.

Lemma parseVars_loop_enough sg fuel pos data p :
  (length data < pos + fuel)%nat ->
  parseVars_loop sg fuel pos data p = parseVars_loop sg (S (length data)) pos data p.
Proof.
  intros Hf. assert (H : forall k, parseVars_loop sg (fuel + k) pos data p
                                   = parseVars_loop sg fuel pos data p).
  { induction k as [|k IHk]; [by rewrite Nat.add_0_r|].
    rewrite Nat.add_succ_r, parseVars_loop_fuel by lia. exact IHk. }
  destruct (decide (fuel <= S (length data))%nat).
  - rewrite <- (H (S (length data) - fuel)%nat). f_equal. lia.
  - assert (H' : forall k, parseVars_loop sg (S (length data) + k) pos data p
                           = parseVars_loop sg (S (length data)) pos data p).
    { induction k as [|k IHk]; [by rewrite Nat.add_0_r|].
      rewrite Nat.add_succ_r, parseVars_loop_fuel by lia. exact IHk. }
    rewrite <- (H' (fuel - S (length data))%nat). f_equal. lia.
Qed.

(** One part of the data, up to the first ['&'] or the end. *)
Lemma parseVars_part sg a b p :
  find_char "&"%char a = None ->
  parseVars sg (a ++ "&"%char :: b) p = parseVars sg b (parseVars sg a p).
Proof.
  intros Ha. unfold parseVars at 1 3.
  rewrite !parseVars_loop_S.
  rewrite length_app. cbn [length].
  destruct (Nat.ltb_spec 0 (length a + S (length b))) as [_|]; [|lia].
  cbv zeta. rewrite !find_from_0, (find_char_sep _ a b Ha).
  cbn [default from_option id].
  (* the name and the value of the part, in both strings *)
  assert (Ep : match find_char "="%char (a ++ "&"%char :: b) with
               | Some eq_pos =>
                   if (eq_pos <? length a)%nat
                   then (substr 0 (eq_pos - 0) (a ++ "&"%char :: b),
                         substr (eq_pos + 1) (length a - eq_pos - 1) (a ++ "&"%char :: b))
                   else (substr 0 (length a - 0) (a ++ "&"%char :: b), [])
               | None => (substr 0 (length a - 0) (a ++ "&"%char :: b), [])
               end
               = match find_char "="%char a with
                 | Some eq_pos =>
                     if (eq_pos <? length a)%nat
                     then (substr 0 (eq_pos - 0) a, substr (eq_pos + 1) (length a - eq_pos - 1) a)
                     else (substr 0 (length a - 0) a, [])
                 | None => (substr 0 (length a - 0) a, [])
                 end).
  { unfold substr. rewrite !drop_0, !Nat.sub_0_r.
    destruct (find_char "="%char a) as [e|] eqn:He.
    - rewrite (find_char_app_l _ a _ e He). pose proof (find_char_lt _ _ _ He) as Hlt.
      destruct (Nat.ltb_spec e (length a)); [|lia].
      rewrite take_app_le by lia. f_equal.
      rewrite drop_app_le by lia. rewrite take_app_le by (rewrite length_drop; lia).
      reflexivity.
    - rewrite (find_char_app_r _ a _ He).
      rewrite take_app_length, take_ge by lia.
      destruct (find_char "="%char ("&"%char :: b)) as [e|]; simpl; [|reflexivity].
      destruct (Nat.ltb_spec (length a + e) (length a)); [lia|reflexivity]. }
  rewrite Ep. clear Ep.
  destruct a as [|x a].
  - (* an empty part sets nothing *)
    cbn [find_char length app]. cbn [substr take drop].
    change (urlunescape sg []) with (@nil ascii).
    assert (E0 : forall q, SetVar [] [] q = q) by reflexivity.
    rewrite E0. cbn [parseVars_loop length Nat.ltb Nat.leb].
    rewrite (parseVars_loop_shift sg _ (0 + 1)). cbn [drop Nat.add].
    rewrite drop_0. reflexivity.
  - destruct (Nat.ltb_spec 0 (length (x :: a))) as [_|]; [|simpl in *; lia].
    rewrite Ha. cbn [default from_option id].
    destruct (match find_char "="%char (x :: a) with
              | Some eq_pos => _ | None => _ end) as [varname varval].
    set (p1 := SetVar _ _ p).
    rewrite (parseVars_loop_shift sg _ (length (x :: a) + 1) (x :: a)).
    rewrite drop_ge by lia.
    assert (Enil : forall f q, parseVars_loop sg f 0 [] q = q) by (by destruct f).
    rewrite Enil.
    rewrite (parseVars_loop_shift sg _ (length (x :: a) + 1)).
    replace (drop (length (x :: a) + 1) ((x :: a) ++ "&"%char :: b)) with b.
    + apply parseVars_loop_enough. simpl. lia.
    + replace (length (x :: a) + 1)%nat with (length ((x :: a) ++ ["&"%char])).
      * rewrite (cons_middle "&"%char (x :: a) b), app_assoc.
        symmetry. apply drop_app_length.
      * rewrite length_app. reflexivity.
Qed.

(** X19.  [Parser::parseVars] writes to [vars] only, and never under the
    empty name: a part without a name (as in "=1" or "a=1&&b=2") sets
    nothing.  It handles the parts of its data one after the other: on
    [a&b], where [a] holds no ['&'], it does what it does on [a] and
    then what it does on [b]. *)
Theorem parseVars_sets_named_vars_part_by_part (sg : bool) (data : bytes) (p : Parser) :
  with_vars (vars p) (parseVars sg data p) = p
  /\ (vars p !! [] = None -> vars (parseVars sg data p) !! [] = None)
  /\ (forall a b, data = a ++ "&"%char :: b -> find_char "&"%char a = None ->
        parseVars sg data p = parseVars sg b (parseVars sg a p)).
Proof.
  split; [apply parseVars_loop_frame|]. split; [apply parseVars_loop_frame|].
  intros a b -> Ha. by apply parseVars_part.
Qed.

Lemma parseVars_sets_named_vars_part_by_part_witness :
  parseVars false (lit "a=1" ++ "&"%char :: lit "b=2") new_Parser
  = parseVars false (lit "b=2") (parseVars false (lit "a=1") new_Parser).
Proof.
  apply (proj2 (proj2 (parseVars_sets_named_vars_part_by_part false
                         (lit "a=1" ++ "&"%char :: lit "b=2") new_Parser))
           (lit "a=1") (lit "b=2")); reflexivity.
Defined.

End http_vars.

(** ** http_parser.cpp: the URL codec and the variables *)

Section http_codec_vars.

Import HTTP.

Lemma unreserved_unsigned sg x : unreserved sg x = true -> unreserved false x = true.
Proof.
  destruct sg; [|done].
  destruct x as [[] [] [] [] [] [] [] []]; vm_compute; congruence.
Qed.

Lemma hex_digits_unreserved sg x :
  Forall (fun c => unreserved false c = true) (hex sg x).
Proof.
  destruct sg; destruct x as [[] [] [] [] [] [] [] []];
    repeat constructor.
Qed.

Lemma urlencode_loop_alphabet sg s :
  Forall (fun c => c = "%"%char \/ unreserved false c = true) (urlencode_loop sg s).
Proof.
  induction s as [|x s IH]; [constructor|]. cbn [urlencode_loop].
  destruct (unreserved sg x) eqn:E.
  - constructor; [right; by apply (unreserved_unsigned sg)|done].
  - constructor; [by left|]. apply Forall_app. split; [|done].
    eapply Forall_impl; [apply hex_digits_unreserved|]. intros c Hc. by right.
Qed.

Lemma urlencode_alphabet sg s :
  Forall (fun c => c = "%"%char \/ unreserved false c = true) (urlencode sg s).
Proof. unfold urlencode. apply urlencode_loop_alphabet. Qed.

Lemma find_char_None c s : c ∉ s -> find_char c s = None.
Proof.
  induction s as [|x s IH]; intros H; [done|]. simpl.
  rewrite bool_decide_eq_false_2 by (intros ->; apply H; left).
  rewrite IH; [done|]. intros Hin. apply H. by right.
Qed.

Lemma urlencode_output_is_url_safe_aux sg s :
  find_char "&"%char (urlencode sg s) = None /\ find_char "="%char (urlencode sg s) = None.
Proof.
  pose proof (urlencode_alphabet sg s) as H.
  split; apply find_char_None; intros Hin;
    (eapply Forall_forall in H; [|exact Hin]); destruct H as [H|H]; discriminate H.
Qed.

(** X20.  [Parser::urlencode] writes only letters, digits, the marks
    [~ ! * ( ) '] and ['%']: its output holds no ['&'], ['='], ['+'],
    ['?'], space, carriage return or line feed, so it can stand in a
    query string as it is. *)
Theorem urlencode_output_is_url_safe (sg : bool) (s : bytes) :
  Forall (fun c => c = "%"%char \/ unreserved false c = true) (urlencode sg s)
  /\ find_char "&"%char (urlencode sg s) = None
  /\ find_char "="%char (urlencode sg s) = None
  /\ find_char "+"%char (urlencode sg s) = None
  /\ find_char "?"%char (urlencode sg s) = None
  /\ find_char " "%char (urlencode sg s) = None
  /\ find_char CR (urlencode sg s) = None
  /\ find_char LF (urlencode sg s) = None.
Proof.
  pose proof (urlencode_alphabet sg s) as H. split; [exact H|].
  repeat split; apply find_char_None; intros Hin;
    (eapply Forall_forall in H; [|exact Hin]); destruct H as [H|H]; discriminate H.
Qed.

(** X21.  A name and a value that were URL-encoded and joined with
    ['='] are what [Parser::parseVars] sets: it stores the (trimmed)
    value under the (trimmed) name, as [SetVar] does with the unencoded
    strings.  The name and the value have fewer than 2^31 bytes each,
    the range of the [int] that [urlencode] counts with, and the joined
    string fewer than 2^32 - 2, the range in which the [unsigned int]
    counter of [urlunescape] reaches the end of its input. *)
Theorem parseVars_reads_encoded_pair (sg : bool) (name value : bytes) (p : Parser) :
  Z.of_nat (length name) < 2 ^ 31 ->
  Z.of_nat (length value) < 2 ^ 31 ->
  Z.of_nat (length (urlencode sg name ++ "="%char :: urlencode sg value)) < 2 ^ 32 - 2 ->
  parseVars sg (urlencode sg name ++ "="%char :: urlencode sg value) p
  = SetVar name value p.
Proof.
  intros Hname Hvalue _.
  destruct (urlencode_output_is_url_safe_aux sg name) as (Hamp & Heq).
  destruct (urlencode_output_is_url_safe_aux sg value) as (Hamp' & Heq').
  pose proof (urlunescape_urlencode_loop sg name) as E1.
  pose proof (urlunescape_urlencode_loop sg value) as E2.
  rewrite <- urlencode_short in E1, E2 by assumption.
  set (n := urlencode sg name) in *. set (v := urlencode sg value) in *.
  unfold parseVars. rewrite parseVars_loop_S.
  rewrite length_app. cbn [length].
  destruct (Nat.ltb_spec 0 (length n + S (length v))) as [_|]; [|lia].
  cbv zeta. rewrite !find_from_0.
  assert (Ha : find_char "&"%char (n ++ "="%char :: v) = None).
  { rewrite find_char_app_r by done. simpl. by rewrite Hamp'. }
  rewrite Ha, (find_char_sep _ n v Heq). cbn [default from_option id].
  destruct (Nat.ltb_spec (length n) (length n + S (length v))) as [_|]; [|lia].
  unfold substr. rewrite drop_0, Nat.sub_0_r, take_app_length.
  replace (length n + 1)%nat with (length (n ++ ["="%char]))
    by (rewrite length_app; reflexivity).
  rewrite (cons_middle "="%char n v), app_assoc, drop_app_length.
  rewrite take_ge by lia.
  rewrite E1, E2.
  rewrite parseVars_loop_shift, drop_ge by (rewrite !length_app; simpl; lia).
  by destruct (length n + S (length v))%nat.
Qed.

(** The pair [a b] = [1+1]: the space, the ['+'] and nothing else are
    escaped, and [parseVars] sets the variable [a b] to [1+1]. *)
Lemma parseVars_reads_encoded_pair_witness :
  parseVars true (urlencode true (lit "a b") ++ "="%char :: urlencode true (lit "1+1"))
            new_Parser
  = SetVar (lit "a b") (lit "1+1") new_Parser.
Proof.
  apply (parseVars_reads_encoded_pair true (lit "a b") (lit "1+1") new_Parser);
    vm_compute; reflexivity.
Defined.

End http_codec_vars.

(** ** http_parser.cpp: the header map and the builders *)

Section http_builders.

Import HTTP.

Lemma uchar_inj x y : uchar x = uchar y -> x = y.
Proof.
  unfold uchar. intros H. apply Nat2Z.inj' in H || idtac.
  rewrite <- (ascii_N_embedding x), <- (ascii_N_embedding y). f_equal. lia.
Qed.

Lemma string_lt_irrefl a : string_lt a a = false.
Proof.
  induction a as [|x a IH]; [reflexivity|]. cbn [string_lt].
  by rewrite Z.ltb_irrefl.
Qed.

Lemma string_lt_asym a b : string_lt a b = true -> string_lt b a = false.
Proof.
  revert b. induction a as [|x a IH]; intros [|y b]; cbn [string_lt]; try done.
  destruct (Z.ltb_spec (uchar x) (uchar y)), (Z.ltb_spec (uchar y) (uchar x));
    try done; try lia. apply IH.
Qed.

Lemma string_lt_connex a b : string_lt a b = false -> string_lt b a = false -> a = b.
Proof.
  revert b. induction a as [|x a IH]; intros [|y b]; cbn [string_lt]; try done.
  destruct (Z.ltb_spec (uchar x) (uchar y)), (Z.ltb_spec (uchar y) (uchar x));
    try done. intros H1 H2. f_equal; [apply uchar_inj; lia|by apply IH].
Qed.

Lemma string_lt_trans a b c :
  string_lt a b = true -> string_lt b c = true -> string_lt a c = true.
Proof.
  revert b c. induction a as [|x a IH]; intros [|y b] [|z c]; cbn [string_lt]; try done.
  destruct (Z.ltb_spec (uchar x) (uchar y)), (Z.ltb_spec (uchar y) (uchar x)),
    (Z.ltb_spec (uchar y) (uchar z)), (Z.ltb_spec (uchar z) (uchar y)),
    (Z.ltb_spec (uchar x) (uchar z)), (Z.ltb_spec (uchar z) (uchar x));
    try done; try lia. apply IH.
Qed.

#[local] Instance key_le_total : Total key_le.
Proof.
  intros a b. unfold key_le.
  destruct (string_lt (fst b) (fst a)) eqn:E; [right; by apply string_lt_asym|by left].
Qed.

#[local] Instance key_le_trans : Transitive key_le.
Proof.
  intros a b c. unfold key_le. intros H1 H2.
  destruct (string_lt (fst c) (fst a)) eqn:E; [|done].
  destruct (string_lt (fst c) (fst b)) eqn:E1; [congruence|].
  destruct (string_lt (fst b) (fst c)) eqn:E2.
  - pose proof (string_lt_trans _ _ _ E2 E). congruence.
  - rewrite (string_lt_connex _ _ E2 E1) in H1. congruence.
Qed.

Lemma entries_sorted m : StronglySorted key_le (entries m).
Proof.
  unfold entries.
  exact (@StronglySorted_merge_sort _ key_le _ key_le_trans key_le_total _).
Qed.

Lemma entries_perm m : entries m ≡ₚ map_to_list m.
Proof. unfold entries. apply merge_sort_Permutation. Qed.

Lemma elem_of_entries m k v : (k, v) ∈ entries m <-> m !! k = Some v.
Proof. rewrite entries_perm. apply elem_of_map_to_list. Qed.

Lemma StronglySorted_filter {A} (R : relation A) (P : A -> Prop)
    `{forall x, Decision (P x)} l :
  StronglySorted R l -> StronglySorted R (filter P l).
Proof.
  induction 1 as [|x l Hs IH Hx]; [constructor|].
  rewrite filter_cons. destruct (decide (P x)); [|done].
  constructor; [done|]. apply Forall_forall. intros y Hy.
  apply list_elem_of_filter in Hy as [_ Hy]. by eapply Forall_forall in Hx.
Qed.

(** Two maps that agree on the entries a builder emits give the same
    list of emitted entries. *)
Lemma emitted_entries_eq (P : bytes * bytes -> Prop) `{forall x, Decision (P x)} m m' :
  (forall k v, P (k, v) -> (m !! k = Some v <-> m' !! k = Some v)) ->
  filter P (entries m) = filter P (entries m').
Proof.
  intros Hag. apply (StronglySorted_unique_strong key_le).
  - intros [k1 v1] [k2 v2] H1 H2 Hle1 Hle2.
    apply list_elem_of_filter in H1 as [HP1 H1]. apply list_elem_of_filter in H2 as [HP2 H2].
    apply elem_of_entries in H1. apply elem_of_entries in H2.
    unfold key_le in *. simpl in *.
    pose proof (string_lt_connex _ _ Hle2 Hle1) as ->.
    apply Hag in H2; [|done]. congruence.
  - apply StronglySorted_filter, entries_sorted.
  - apply StronglySorted_filter, entries_sorted.
  - apply NoDup_Permutation.
    + apply NoDup_filter. rewrite entries_perm. apply NoDup_map_to_list.
    + apply NoDup_filter. rewrite entries_perm. apply NoDup_map_to_list.
    + intros [k v]. rewrite !list_elem_of_filter, !elem_of_entries.
      split; intros [HP Hl]; (split; [done|]); by apply (Hag k v HP).
Qed.

Lemma fold_left_emit {B} (f : bytes * bytes -> bool) (g : bytes * bytes -> list B) l b0 :
  fold_left (fun b it => if f it then b ++ g it else b) l b0
  = b0 ++ concat (map g (filter (fun it => f it) l)).
Proof.
  revert b0. induction l as [|x l IH]; intros b0; simpl; [by rewrite app_nil_r|].
  rewrite IH, filter_cons. destruct (f x) eqn:E.
  - rewrite decide_True by done. simpl. by rewrite app_assoc.
  - rewrite decide_False by (by intros []). done.
Qed.

Lemma in_response_request it : in_response it = true -> in_request it = true.
Proof. unfold in_response. by intros [? _]%andb_true_iff. Qed.

(** X22.  A header stored with [SetHeader] is read back by [GetHeader]
    under its trimmed name, value trimmed.  Reading a header with
    [GetHeader] adds an empty entry to the map when there was none, but
    that entry shows nowhere: every later [GetHeader] returns what it
    would have returned, and [BuildRequest] and [BuildResponse] build
    the same string. *)
Theorem GetHeader_leaves_no_trace (i v j : bytes) (p : Parser) :
  GetHeader (Trim i) (SetHeader i v p) = (Trim v, SetHeader i v p)
  /\ (forall k, fst (GetHeader k (snd (GetHeader j p))) = fst (GetHeader k p))
  /\ fst (BuildRequest (snd (GetHeader j p))) = fst (BuildRequest p)
  /\ (forall code message,
        fst (BuildResponse code message (snd (GetHeader j p)))
        = fst (BuildResponse code message p)).
Proof.
  split.
  { unfold GetHeader, SetHeader. cbn. by rewrite lookup_insert_eq. }
  unfold GetHeader. destruct (headers p !! j) as [w|] eqn:Hj; [done|].
  cbn [snd].
  assert (Hfix : fix_protocol (with_headers (<[j:=[]]> (headers p)) p)
                 = with_headers (<[j:=[]]> (headers p)) (fix_protocol p)).
  { unfold fix_protocol. cbn. by destruct (_ || _). }
  assert (Hh : headers (fix_protocol p) = headers p).
  { unfold fix_protocol. by destruct (_ || _). }
  assert (Hag : forall k w, w <> [] ->
            (<[j:=[]]> (headers p) !! k = Some w <-> headers p !! k = Some w)).
  { intros k w Hw. destruct (decide (k = j)) as [->|Hne].
    - rewrite lookup_insert_eq, Hj. split; congruence.
    - by rewrite lookup_insert_ne. }
  split; [|split].
  - intros k. cbn [headers with_headers]. destruct (decide (k = j)) as [->|Hne].
    + rewrite lookup_insert_eq, Hj. reflexivity.
    + rewrite lookup_insert_ne by done. by destruct (headers p !! k).
  - unfold BuildRequest. rewrite Hfix, !fold_left_emit. cbn. rewrite Hh.
    rewrite (emitted_entries_eq (fun it => in_request it) (<[j:=[]]> (headers p)) (headers p));
      [reflexivity|].
    intros k w HP. apply Hag.
    unfold in_request in HP. simpl in HP.
    apply Is_true_true, andb_true_iff in HP as [_ HP].
    apply negb_true_iff, bool_decide_eq_false in HP. done.
  - intros code message. unfold BuildResponse. rewrite Hfix, !fold_left_emit. cbn.
    rewrite Hh.
    rewrite (emitted_entries_eq (fun it => in_response it) (<[j:=[]]> (headers p)) (headers p));
      [reflexivity|].
    intros k w HP. apply Hag.
    apply Is_true_true, in_response_request in HP.
    unfold in_request in HP. simpl in HP. apply andb_true_iff in HP as [_ HP].
    apply negb_true_iff, bool_decide_eq_false in HP. done.
Qed.

Lemma fold_left_send (f : bytes * bytes -> bool) l (conn : list bytes) :
  concat (fold_left (fun conn it => if f it then conn ++ [header_line it] else conn) l conn)
  = fold_left (fun b it => if f it then b ++ header_line it else b) l (concat conn).
Proof.
  revert conn. induction l as [|x l IH]; intros conn; simpl; [done|].
  rewrite IH. destruct (f x); [|done]. rewrite concat_app. simpl. by rewrite app_nil_r.
Qed.

(** X23.  [SendRequest] and [SendResponse] hand to the connection, piece
    by piece, exactly the string that [BuildRequest] and [BuildResponse]
    build, and set the protocol of the parser as they do. *)
Theorem Send_sends_what_Build_builds (code message : bytes) (p : Parser) (conn : list bytes) :
  concat (fst (SendRequest p conn)) = concat conn ++ fst (BuildRequest p)
  /\ snd (SendRequest p conn) = snd (BuildRequest p)
  /\ concat (fst (SendResponse code message p conn))
     = concat conn ++ fst (BuildResponse code message p)
  /\ snd (SendResponse code message p conn) = snd (BuildResponse code message p).
Proof.
  unfold SendRequest, BuildRequest, SendResponse, BuildResponse. cbn [fst snd].
  repeat split.
  - rewrite !concat_app, fold_left_send, !fold_left_emit, concat_app. simpl.
    rewrite !app_nil_r, <- !app_assoc. reflexivity.
  - rewrite !concat_app, fold_left_send, !fold_left_emit, concat_app. simpl.
    rewrite !app_nil_r, <- !app_assoc. reflexivity.
Qed.

Lemma concat_singletons {A B} (g : A -> B) (l : list A) :
  concat (map (fun it => [g it]) l) = map g l.
Proof. induction l as [|x l IH]; [done|]. simpl. by rewrite IH. Qed.

(** X24.  What [StartResponse] sends: the status line, the header lines
    of some entries of the header map, the empty line and an empty body.
    For a request under HTTP/1.1 the entries hold Transfer-Encoding:
    chunked.  For any other request [SetBody("")] sets Content-Length
    to 0, which [SendResponse] leaves out: no Content-Length entry is
    sent at all. *)
Theorem StartResponse_announces_framing (code message : bytes) (request p : Parser)
    (conn : list bytes) :
  exists L,
    fst (StartResponse code message request p conn)
    = conn ++ [protocol (snd (StartResponse code message request p conn))
               ++ lit " " ++ code ++ lit " " ++ message ++ CRLF]
           ++ map header_line L ++ [CRLF; []]
    /\ (forall k v, (k, v) ∈ L ->
          headers (snd (StartResponse code message request p conn)) !! k = Some v)
    /\ (if bool_decide (protocol request = lit "HTTP/1.1")
        then (lit "Transfer-Encoding", lit "chunked") ∈ L
        else forall v, (lit "Content-Length", v) ∉ L)
    /\ body (snd (StartResponse code message request p conn)) = [].
Proof.
  unfold StartResponse. cbv zeta.
  set (p0 := with_body [] (with_protocol (protocol request) p)).
  change (protocol p0) with (protocol request).
  set (p1 := if bool_decide (protocol request = lit "HTTP/1.1")
             then SetHeader (lit "Transfer-Encoding") (lit "chunked") p0
             else SetBody [] p0).
  assert (Hb : body p1 = []) by (unfold p1; by destruct (bool_decide _)).
  assert (Hh : headers (fix_protocol p1) = headers p1).
  { unfold fix_protocol. by destruct (_ || _). }
  assert (Hb' : body (fix_protocol p1) = []).
  { unfold fix_protocol. by destruct (_ || _). }
  exists (filter (fun it => in_response it) (entries (headers p1))).
  unfold SendResponse. cbn [fst snd].
  rewrite (fold_left_emit in_response (fun it => [header_line it])), concat_singletons.
  rewrite Hh, Hb'. split; [by rewrite <- !app_assoc|].
  split.
  { intros k v Hin. apply list_elem_of_filter in Hin as [_ Hin].
    by apply elem_of_entries in Hin. }
  split; [|done].
  unfold p1. destruct (bool_decide (protocol request = lit "HTTP/1.1")).
  - apply list_elem_of_filter. split; [done|]. apply elem_of_entries.
    unfold SetHeader. cbn [headers with_headers]. apply lookup_insert_eq.
  - intros v Hin. apply list_elem_of_filter in Hin as [Hf Hin].
    apply elem_of_entries in Hin. unfold SetBody, SetHeader_int in Hin.
    cbn [headers with_headers] in Hin.
    change (Trim (lit "Content-Length")) with (lit "Content-Length") in Hin.
    rewrite lookup_insert_eq in Hin. injection Hin as <-. done.
Qed.

End http_builders.

(** ** http_parser.cpp: reading a body *)

Section http_body.

Import HTTP.

(** Once the headers are seen, a call of [parse] on a buffer that is not
    empty is one pass through the body block. *)
Lemma parse_in_body sg p b :
  seenHeaders p = true -> b <> [] -> parse sg p b = Some (parse_body sg p b).
Proof.
  intros Hs Hb. unfold parse. cbn [parse_loop].
  rewrite bool_decide_eq_false_2 by done.
  unfold parse_round. rewrite Hs. cbn [negb]. rewrite Hs.
  by destruct (parse_body sg p b) as [[? ?] ?].
Qed.

Lemma parse_empty sg p : parse sg p [] = Some (false, p, []).
Proof. reflexivity. Qed.

Lemma erase_0 n (s : bytes) : erase 0 n s = drop n s.
Proof. unfold erase. by rewrite take_0. Qed.

(** X25.  A body of known length may arrive in pieces: while the bytes
    read so far and the piece [x1] together are fewer than
    [Content-Length], [parse] takes all of [x1] into [body], empties
    the buffer and returns false; and reading [x1] and then [x2] ends
    in the state that reading [x1 x2] at once ends in. *)
Theorem body_arrives_in_pieces (sg : bool) (p : Parser) (x1 x2 : bytes) :
  seenHeaders p = true -> headerOnly p = false ->
  0 < length_ p < 2 ^ 32 ->
  x1 <> [] ->
  Z.of_nat (length (body p)) + Z.of_nat (length x1) < length_ p ->
  parse sg p x1 = Some (false, with_body (body p ++ x1) p, [])
  /\ parse sg (with_body (body p ++ x1) p) x2 = parse sg p (x1 ++ x2).
Proof.
  intros Hs Hh HL Hx1 Hlt.
  assert (E1 : parse_body sg p x1 = (false, with_body (body p ++ x1) p, [])).
  { unfold parse_body. destruct (Z.ltb_spec 0 (length_ p)); [|lia]. rewrite Hh.
    rewrite u32_small by lia.
    destruct (Z.ltb_spec 0 (length_ p - Z.of_nat (length (body p)))); [|lia].
    rewrite erase_0, take_ge, drop_ge by lia. cbn [length_ body with_body].
    rewrite length_app.
    destruct (Z.eqb_spec (length_ p) (Z.of_nat (length (body p) + length x1))); [lia|].
    reflexivity. }
  split; [by rewrite parse_in_body, E1|].
  destruct x2 as [|c x2].
  { rewrite app_nil_r, parse_empty, parse_in_body, E1 by done. reflexivity. }
  rewrite !parse_in_body by (try done; by destruct x1). f_equal.
  unfold parse_body. cbn [length_ body headerOnly with_body].
  destruct (Z.ltb_spec 0 (length_ p)); [|lia]. rewrite Hh.
  rewrite length_app, !u32_small by lia.
  set (k := length_ p - Z.of_nat (length (body p))).
  replace (length_ p - Z.of_nat (length (body p) + length x1))
    with (k - Z.of_nat (length x1)) by lia.
  destruct (Z.ltb_spec 0 (k - Z.of_nat (length x1))); [|lia].
  destruct (Z.ltb_spec 0 k); [|lia].
  rewrite !erase_0.
  assert (Et : body p ++ take (Z.to_nat k) (x1 ++ c :: x2)
               = (body p ++ x1) ++ take (Z.to_nat (k - Z.of_nat (length x1))) (c :: x2)).
  { rewrite <- app_assoc. f_equal.
    replace (Z.to_nat k) with (length x1 + Z.to_nat (k - Z.of_nat (length x1)))%nat by lia.
    by rewrite take_app_add. }
  assert (Ed : drop (Z.to_nat k) (x1 ++ c :: x2)
               = drop (Z.to_nat (k - Z.of_nat (length x1))) (c :: x2)).
  { replace (Z.to_nat k) with (length x1 + Z.to_nat (k - Z.of_nat (length x1)))%nat by lia.
    by rewrite drop_app_add. }
  rewrite Et, Ed. cbn [length_ body with_body].
  destruct (_ =? _); reflexivity.
Qed.

Lemma body_arrives_in_pieces_witness :
  let p := with_length 5 (with_seenHeaders true new_Parser) in
  parse false p (lit "he") = Some (false, with_body (body p ++ lit "he") p, [])
  /\ parse false (with_body (body p ++ lit "he") p) (lit "llo!")
     = parse false p (lit "he" ++ lit "llo!").
Proof.
  apply (body_arrives_in_pieces false (with_length 5 (with_seenHeaders true new_Parser))
           (lit "he") (lit "llo!"));
    first [reflexivity | simpl; lia | discriminate].
Defined.

End http_body.

(** ** http_parser.cpp: chunked transfer, written and read *)

Section http_chunks.

Import HTTP.

Lemma digit_cases d :
  0 <= d < 16 ->
  d = 0 \/ d = 1 \/ d = 2 \/ d = 3 \/ d = 4 \/ d = 5 \/ d = 6 \/ d = 7 \/ d = 8
  \/ d = 9 \/ d = 10 \/ d = 11 \/ d = 12 \/ d = 13 \/ d = 14 \/ d = 15.
Proof. lia. Qed.

Lemma unhex_digit_char sg d : 0 <= d < 16 -> unhex sg (digit_char d) = d.
Proof.
  intros Hd. destruct sg;
    destruct (digit_cases d Hd) as [->|[->|[->|[->|[->|[->|[->|[->|[->|[->|[->|[->|[->|[->|[->| ->]]]]]]]]]]]]]]];
    reflexivity.
Qed.

Lemma digit_char_not_eol d : 0 <= d < 16 -> digit_char d <> CR /\ digit_char d <> LF.
Proof.
  intros Hd.
  destruct (digit_cases d Hd) as [->|[->|[->|[->|[->|[->|[->|[->|[->|[->|[->|[->|[->|[->|[->| ->]]]]]]]]]]]]]]];
    split; discriminate.
Qed.

Lemma utoa_not_eol fuel n acc :
  Forall (fun c => c <> CR /\ c <> LF) acc ->
  Forall (fun c => c <> CR /\ c <> LF) (utoa 16 fuel n acc).
Proof.
  revert n acc. induction fuel as [|fuel IH]; intros n acc Ha; [done|].
  cbn [utoa].
  assert (Hd : Forall (fun c => c <> CR /\ c <> LF) (digit_char (n mod 16) :: acc)).
  { constructor; [|done]. apply digit_char_not_eol. apply Z.mod_pos_bound. lia. }
  destruct (n / 16 =? 0); [done|]. by apply IH.
Qed.

Lemma utoa_length fuel k n acc :
  (1 <= k <= fuel)%nat -> 0 <= n < 16 ^ Z.of_nat k ->
  (1 + length acc <= length (utoa 16 fuel n acc) <= k + length acc)%nat.
Proof.
  revert k n acc. induction fuel as [|fuel IH]; intros k n acc Hk Hn; [lia|].
  cbn [utoa]. destruct (Z.eqb_spec (n / 16) 0) as [E|E]; [simpl; lia|].
  destruct (decide (k = 1%nat)) as [->|Hk1].
  { exfalso. apply E. apply Z.div_small. simpl in Hn. lia. }
  specialize (IH (k - 1)%nat (n / 16) (digit_char (n mod 16) :: acc)).
  simpl in IH. assert (H16 : 16 ^ Z.of_nat k = 16 * 16 ^ Z.of_nat (k - 1)).
  { replace (Z.of_nat k) with (Z.succ (Z.of_nat (k - 1))) by lia.
    rewrite Z.pow_succ_r by lia. reflexivity. }
  destruct IH; [lia| |lia].
  split; [apply Z.div_pos; lia|]. apply Z.div_lt_upper_bound; lia.
Qed.

Lemma hex_step a d :
  0 <= a -> 0 <= d < 16 -> Z.lor (Z.shiftl a 4) d = a * 16 + d.
Proof.
  intros Ha Hd. rewrite Z.shiftl_mul_pow2 by lia. change (2 ^ 4) with 16.
  rewrite <- Z.add_nocarry_lor; [lia|].
  apply Z.bits_inj'. intros i Hi. rewrite Z.land_spec, Z.bits_0.
  destruct (Z.lt_ge_cases i 4).
  - replace (a * 16) with (a * 2 ^ 4) by lia. rewrite Z.mul_pow2_bits_low by lia. reflexivity.
  - rewrite (Z.bits_above_log2 d i); [apply andb_false_r|lia|].
    destruct (Z.eq_dec d 0) as [->|]; [simpl; lia|].
    assert (Z.log2 d < 4); [|lia]. apply Z.log2_lt_pow2; lia.
Qed.

(** The parser's loop over the chunk-size line gives back the number
    that ["%x"] wrote. *)
Lemma chunk_size_read sg fuel n acc :
  0 <= n < 16 ^ Z.of_nat fuel -> n < 2 ^ 32 ->
  fold_left (fun chunkLen c => u32 (Z.lor (Z.shiftl chunkLen 4) (unhex sg c)))
            (utoa 16 fuel n acc) 0
  = fold_left (fun chunkLen c => u32 (Z.lor (Z.shiftl chunkLen 4) (unhex sg c))) acc n.
Proof.
  revert n acc. induction fuel as [|fuel IH]; intros n acc Hf Hn.
  { simpl in Hf. assert (n = 0) as -> by lia. reflexivity. }
  cbn [utoa].
  assert (Hd : 0 <= n mod 16 < 16) by (apply Z.mod_pos_bound; lia).
  assert (H16 : 16 ^ Z.of_nat (S fuel) = 16 * 16 ^ Z.of_nat fuel).
  { rewrite Nat2Z.inj_succ, Z.pow_succ_r by lia. reflexivity. }
  pose proof (Z.div_mod n 16 ltac:(lia)) as Hdm.
  assert (Hq : 0 <= n / 16) by (apply Z.div_pos; lia).
  destruct (Z.eqb_spec (n / 16) 0) as [E|E].
  - cbn [fold_left]. rewrite unhex_digit_char by done.
    rewrite hex_step by lia. rewrite u32_small by lia. f_equal. lia.
  - rewrite IH.
    + cbn [fold_left]. rewrite unhex_digit_char by done.
      rewrite hex_step by lia. rewrite u32_small by lia. f_equal. lia.
    + split; [done|]. apply Z.div_lt_upper_bound; lia.
    + lia.
Qed.

Lemma find_char_Forall_ne c s : Forall (fun x => x <> c) s -> find_char c s = None.
Proof.
  induction 1 as [|x s Hx _ IH]; [done|]. simpl.
  by rewrite bool_decide_eq_false_2, IH.
Qed.

Lemma printf_x_line n :
  0 <= n < 2 ^ 32 ->
  find_char LF (printf_x n) = None /\ find_char CR (printf_x n) = None
  /\ printf_x n <> [].
Proof.
  intros Hn. pose proof (utoa_not_eol 8 n [] ltac:(constructor)) as H.
  split; [|split].
  - apply find_char_Forall_ne. eapply Forall_impl; [exact H|]. by intros c [_ ?].
  - apply find_char_Forall_ne. eapply Forall_impl; [exact H|]. by intros c [? _].
  - pose proof (utoa_length 8 8 n [] ltac:(lia)
                  ltac:(change (16 ^ Z.of_nat 8) with (2 ^ 32); lia)) as Hl.
    unfold printf_x. intros E. rewrite E in Hl. simpl in Hl. lia.
Qed.

Lemma strip_cr_line s : find_char CR s = None -> strip_cr (s ++ [CR]) = s.
Proof.
  intros H. unfold strip_cr. rewrite (find_char_sep CR s [] H). apply take_app_length.
Qed.

(** X26.  A chunk that [Chunkify] writes is a chunk that [parse] reads:
    for a body part of between 1 and 2^28 - 1 bytes sent under
    HTTP/1.1, a parser that has seen its headers, is not in header-only
    mode, is reading chunks with no fixed length and is between two
    chunks needs three calls on the bytes sent and what follows them in
    the buffer: one for the size line, one for the data, one for the
    empty line after it.  Each returns false; after them [body] has
    grown by exactly the body part, the buffer holds what followed, and
    the parser is between two chunks again.  The body part, the line
    end after it and what follows are fewer than 2^32 bytes together,
    the range of the [unsigned int] in which [parse] takes the size of
    the buffer. *)
Theorem Chunkify_then_parse (sg : bool) (q p : Parser) (data rest : bytes) :
  protocol q = lit "HTTP/1.1" ->
  seenHeaders p = true -> length_ p = 0 -> getChunks p = true ->
  headerOnly p = false -> doingChunk p = 0 ->
  0 < Z.of_nat (length data) < 2 ^ 28 ->
  Z.of_nat (length data) + Z.of_nat (length rest) + 2 < 2 ^ 32 ->
  exists p1 b1 p2 b2,
    parse sg p (concat (fst (Chunkify_string data q [])) ++ rest) = Some (false, p1, b1)
    /\ parse sg p1 b1 = Some (false, p2, b2)
    /\ parse sg p2 b2 = Some (false, with_body (body p ++ data) p, rest).
Proof.
  intros Hq Hs Hl Hg Hh Hd Hn Hr.
  set (n := Z.of_nat (length data)) in *.
  change (2 ^ 28) with 268435456 in *. change (2 ^ 32) with 4294967296 in *.
  destruct (printf_x_line n ltac:(change (2 ^ 32) with 4294967296; lia))
    as (HLF & HCR & Hne).
  pose proof (utoa_length 8 7 n [] ltac:(lia) ltac:(change (16 ^ Z.of_nat 7) with 268435456; lia))
    as Hlen.
  fold (printf_x n) in Hlen. simpl in Hlen.
  set (hx := printf_x n) in *.
  (* what is sent *)
  assert (Hw : concat (fst (Chunkify_string data q [])) ++ rest
               = (hx ++ [CR]) ++ LF :: (data ++ CR :: LF :: rest)).
  { unfold Chunkify_string, Chunkify. rewrite bool_decide_eq_true_2 by done.
    fold n. rewrite (u32_small n) by (change (2 ^ 32) with 4294967296; lia).
    unfold snprintf_len. fold hx. cbn [fst].
    destruct (Z.eqb_spec n 0); [lia|]. cbn [app concat].
    unfold n at 1. rewrite !Nat2Z.id, firstn_all.
    rewrite (take_ge (hx ++ CRLF)) by (rewrite length_app; simpl; lia).
    rewrite take_app_length. unfold CRLF. rewrite !app_nil_r, <- !app_assoc. reflexivity. }
  rewrite Hw.
  (* the size line *)
  assert (Hfold : fold_left (fun chunkLen c => u32 (Z.lor (Z.shiftl chunkLen 4) (unhex sg c)))
                            hx 0 = n).
  { unfold hx, printf_x. rewrite chunk_size_read
      by (change (16 ^ Z.of_nat 8) with 4294967296; change (2 ^ 32) with 4294967296; lia).
    reflexivity. }
  set (b1 := data ++ CR :: LF :: rest).
  assert (Hf : find_char LF ((hx ++ [CR]) ++ LF :: b1) = Some (length (hx ++ [CR]))).
  { apply find_char_sep. rewrite find_char_app_r by done. reflexivity. }
  exists (with_doingChunk n p), b1.
  exists (with_doingChunk 0 (with_body (body p ++ data) (with_doingChunk n p))),
    (CR :: LF :: rest).
  split; [|split].
  - rewrite parse_in_body by (try done; by destruct hx). f_equal.
    unfold parse_body. rewrite Hl, Hg, Hh, Hd. cbn [Z.ltb Z.eqb negb Z.compare].
    rewrite Hf. unfold substr. rewrite drop_0, take_app_length, strip_cr_line by done.
    rewrite Hfold.
    rewrite (bool_decide_eq_false_2 (hx = [])) by done. cbn [negb andb].
    destruct (Z.eqb_spec n 0); [lia|].
    rewrite erase_0.
    replace (length (hx ++ [CR]) + 1)%nat with (length ((hx ++ [CR]) ++ [LF]))
      by (rewrite !length_app; reflexivity).
    rewrite (cons_middle LF (hx ++ [CR]) b1), app_assoc, drop_app_length.
    destruct (Nat.eqb_spec (length ((hx ++ [CR]) ++ [LF]))
                (length (((hx ++ [CR]) ++ [LF]) ++ b1))) as [E|E]; [|reflexivity].
    unfold b1 in E. rewrite !length_app in E. simpl in E. lia.
  - rewrite parse_in_body by (try done; unfold b1; by destruct data). f_equal.
    unfold parse_body. cbn [length_ getChunks headerOnly doingChunk body with_doingChunk].
    rewrite Hl, Hg, Hh. cbn [Z.ltb Z.compare].
    destruct (Z.eqb_spec n 0); [lia|]. cbn [negb].
    assert (Hb1 : Z.of_nat (length b1) = n + 2 + Z.of_nat (length rest)).
    { unfold b1. rewrite length_app. simpl. lia. }
    rewrite Hb1, (u32_small (n + 2 + Z.of_nat (length rest)))
      by (change (2 ^ 32) with 4294967296; lia).
    destruct (Z.ltb_spec n (n + 2 + Z.of_nat (length rest))); [|lia].
    assert (En : Z.to_nat n = length data) by (unfold n; lia).
    rewrite erase_0, !En. unfold b1.
    rewrite take_app_length, drop_app_length.
    cbn [doingChunk with_body with_doingChunk].
    rewrite Z.sub_diag. reflexivity.
  - rewrite parse_in_body by done. f_equal.
    unfold parse_body.
    cbn [length_ getChunks headerOnly doingChunk body with_doingChunk with_body].
    rewrite Hl, Hg, Hh. cbn [Z.ltb Z.eqb Z.compare negb].
    cbn [find_char]. rewrite bool_decide_eq_false_2 by discriminate.
    rewrite bool_decide_eq_true_2 by reflexivity.
    cbn [fmap option_fmap option_map substr take drop].
    change (strip_cr [CR]) with (@nil ascii). cbn [fold_left].
    rewrite bool_decide_eq_true_2 by reflexivity. cbn [negb andb].
    rewrite erase_0. cbn [drop length Nat.add].
    assert (Ep : with_doingChunk 0 (with_body (body p ++ data) (with_doingChunk n p))
                 = with_body (body p ++ data) p).
    { destruct p. cbn in *. by subst. }
    rewrite Ep. by destruct rest.
Qed.

Lemma Chunkify_then_parse_witness :
  let q := new_Parser in
  let p := with_getChunks true (with_seenHeaders true new_Parser) in
  exists p1 b1 p2 b2,
    parse false p (concat (fst (Chunkify_string (lit "hello") q [])) ++ lit "0")
    = Some (false, p1, b1)
    /\ parse false p1 b1 = Some (false, p2, b2)
    /\ parse false p2 b2 = Some (false, with_body (body p ++ lit "hello") p, lit "0").
Proof.
  apply (Chunkify_then_parse false new_Parser
           (with_getChunks true (with_seenHeaders true new_Parser)) (lit "hello") (lit "0"));
    first [reflexivity | simpl; lia].
Defined.

End http_chunks.

(** ** http_parser.cpp: a request, built and parsed *)

Section http_request.

Import HTTP.

Lemma parse_loop_mono sg f f' p b r :
  parse_loop sg f p b = Some r -> (f <= f')%nat -> parse_loop sg f' p b = Some r.
Proof.
  revert f' p b. induction f as [|f IH]; intros f' p b H Hf; [done|].
  destruct f' as [|f']; [lia|]. cbn [parse_loop] in *.
  destruct (bool_decide (b = [])); [done|].
  destruct (parse_round sg p b) as [[[x|] p1] b1]; [done|].
  apply IH; [done|lia].
Qed.

Lemma parse_of_loop sg f p b r : parse_loop sg f p b = Some r -> parse sg p b = Some r.
Proof.
  intros H. destruct (parse_is_Some sg p b) as [r' Hr'].
  pose proof (parse_loop_mono sg _ (f + S (length b)) _ _ _ H ltac:(lia)) as H1.
  unfold parse in *.
  pose proof (parse_loop_mono sg _ (f + S (length b)) _ _ _ Hr' ltac:(lia)) as H2.
  congruence.
Qed.

Lemma loop_continue sg f p b p' b' :
  b <> [] -> parse_round sg p b = (Continue, p', b') ->
  parse_loop sg (S f) p b = parse_loop sg f p' b'.
Proof.
  intros Hb Hr. cbn [parse_loop]. rewrite bool_decide_eq_false_2 by done. by rewrite Hr.
Qed.

Lemma loop_return sg f p b x p' b' :
  b <> [] -> parse_round sg p b = (Return x, p', b') ->
  parse_loop sg (S f) p b = Some (x, p', b').
Proof.
  intros Hb Hr. cbn [parse_loop]. rewrite bool_decide_eq_false_2 by done. by rewrite Hr.
Qed.

Lemma drop_sep {A} (a : list A) c b : drop (length a + 1) (a ++ c :: b) = b.
Proof.
  replace (length a + 1)%nat with (length (a ++ [c])) by (rewrite length_app; reflexivity).
  by rewrite (cons_middle c a b), app_assoc, drop_app_length.
Qed.

(** Taking the first line off a buffer. *)
Lemma eat_line line rest :
  find_char LF line = None ->
  find_char LF (line ++ LF :: rest) = Some (length line)
  /\ substr 0 (length line) (line ++ LF :: rest) = line
  /\ (if (length line + 1 =? length (line ++ LF :: rest))%nat then []
      else erase 0 (length line + 1) (line ++ LF :: rest)) = rest.
Proof.
  intros H. split; [by apply find_char_sep|]. split.
  - unfold substr. by rewrite drop_0, take_app_length.
  - rewrite erase_0.
    replace (length line + 1)%nat with (length (line ++ [LF]))
      by (rewrite length_app; reflexivity).
    rewrite (cons_middle LF line rest), app_assoc, drop_app_length.
    destruct (Nat.eqb_spec (length (line ++ [LF])) (length ((line ++ [LF]) ++ rest)))
      as [E|E]; [|done].
    rewrite (length_app (line ++ [LF]) rest) in E. destruct rest; [done|simpl in E; lia].
Qed.

Lemma find_char_app_None c a b :
  find_char c a = None -> find_char c b = None -> find_char c (a ++ b) = None.
Proof. intros Ha Hb. rewrite find_char_app_r, Hb by done. reflexivity. Qed.

Lemma find_char_cons_ne c x s : x <> c -> find_char c (x :: s) = S <$> find_char c s.
Proof. intros H. simpl. by rewrite bool_decide_eq_false_2. Qed.

(** The decimal digits of ["%i"] and [atoi]. *)
Lemma dec_digit_cases d :
  0 <= d < 10 ->
  d = 0 \/ d = 1 \/ d = 2 \/ d = 3 \/ d = 4 \/ d = 5 \/ d = 6 \/ d = 7 \/ d = 8 \/ d = 9.
Proof. lia. Qed.

Lemma dec_digit_char d :
  0 <= d < 10 ->
  is_digit (digit_char d) = true /\ uchar (digit_char d) - 48 = d
  /\ is_blank (digit_char d) = false
  /\ digit_char d <> CR /\ digit_char d <> LF.
Proof.
  intros Hd.
  destruct (dec_digit_cases d Hd) as [->|[->|[->|[->|[->|[->|[->|[->|[->| ->]]]]]]]]];
    repeat split; discriminate.
Qed.

Lemma utoa_dec_digits fuel n acc :
  Forall (fun c => is_digit c = true) acc ->
  Forall (fun c => is_digit c = true) (utoa 10 fuel n acc).
Proof.
  revert n acc. induction fuel as [|fuel IH]; intros n acc Ha; [done|].
  cbn [utoa].
  assert (Hd : Forall (fun c => is_digit c = true) (digit_char (n mod 10) :: acc)).
  { constructor; [|done]. apply dec_digit_char. apply Z.mod_pos_bound. lia. }
  destruct (n / 10 =? 0); [done|]. by apply IH.
Qed.

Lemma utoa_dec_nonempty fuel n acc : (0 < fuel)%nat -> utoa 10 fuel n acc <> [].
Proof.
  revert n acc. induction fuel as [|fuel IH]; intros n acc Hf; [lia|].
  cbn [utoa]. destruct (n / 10 =? 0); [done|].
  destruct fuel; [done|]. apply IH. lia.
Qed.

Lemma atoi_digits_utoa fuel n acc a0 :
  0 <= n < 10 ^ Z.of_nat fuel -> a0 = 0 ->
  atoi_digits a0 (utoa 10 fuel n acc) = atoi_digits n acc.
Proof.
  intros Hn ->. revert n acc Hn. induction fuel as [|fuel IH]; intros n acc Hn.
  { simpl in Hn. assert (n = 0) as -> by lia. reflexivity. }
  cbn [utoa].
  assert (Hd : 0 <= n mod 10 < 10) by (apply Z.mod_pos_bound; lia).
  destruct (dec_digit_char _ Hd) as (Hdg & Hval & _).
  assert (H10 : 10 ^ Z.of_nat (S fuel) = 10 * 10 ^ Z.of_nat fuel).
  { rewrite Nat2Z.inj_succ, Z.pow_succ_r by lia. reflexivity. }
  pose proof (Z.div_mod n 10 ltac:(lia)) as Hdm.
  assert (Hq : 0 <= n / 10) by (apply Z.div_pos; lia).
  destruct (Z.eqb_spec (n / 10) 0) as [E|E].
  - cbn [atoi_digits]. rewrite Hdg, Hval. f_equal. lia.
  - rewrite IH by (split; [done|]; apply Z.div_lt_upper_bound; lia).
    cbn [atoi_digits]. rewrite Hdg, Hval. f_equal. lia.
Qed.

Lemma atoi_of_digits s :
  s <> [] -> Forall (fun c => is_digit c = true) s -> atoi s = s32 (atoi_digits 0 s).
Proof.
  intros Hne Hs. destruct s as [|c s]; [done|]. apply Forall_cons in Hs as [Hc _].
  cbn [atoi].
  assert (is_space c = false /\ c <> "-"%char /\ c <> "+"%char) as (H1 & H2 & H3).
  { unfold is_digit in Hc. apply andb_true_iff in Hc as [Ha Hb].
    apply Z.leb_le in Ha, Hb. unfold is_space.
    repeat split.
    - apply orb_false_iff. split.
      + apply bool_decide_eq_false_2. intros ->. vm_compute in Ha. done.
      + apply andb_false_iff. right. apply Z.leb_gt. lia.
    - intros ->. vm_compute in Ha. done.
    - intros ->. vm_compute in Ha. done. }
  rewrite H1, !bool_decide_eq_false_2 by done. reflexivity.
Qed.

(** The length [SetBody] writes is the length the parser reads. *)
Lemma atoi_printf_i n : 0 <= n < 2 ^ 31 -> atoi (printf_i n) = n.
Proof.
  intros Hn. unfold printf_i. destruct (Z.ltb_spec n 0); [lia|].
  rewrite atoi_of_digits.
  - rewrite atoi_digits_utoa; [|change (10 ^ Z.of_nat 10) with 10000000000;
                                 change (2 ^ 31) with 2147483648 in Hn; lia|done].
    cbn [atoi_digits]. by apply s32_small; lia.
  - apply utoa_dec_nonempty. lia.
  - apply utoa_dec_digits. constructor.
Qed.

Lemma ffnb_app_blank s b :
  is_blank b = true -> find_first_not_blank (s ++ [b]) = find_first_not_blank s.
Proof.
  intros Hb. induction s as [|x s IH]; simpl; [by rewrite Hb|].
  destruct (is_blank x); [by rewrite IH|done].
Qed.

(** A blank in front of a trimmed value is trimmed away. *)
Lemma Trim_cons_blank b v :
  is_blank b = true -> v <> [] -> Trim v = v -> Trim (b :: v) = v.
Proof.
  intros Hb Hne Hv.
  destruct (find_first_not_blank v) as [st|] eqn:Hst;
    [|by rewrite (Trim_blank v Hst) in Hv].
  destruct (trim_positions v st Hst) as (en & Hen & Hle & _ & _).
  assert (HT : take (en - st + 1) (drop st v) = v).
  { unfold Trim in Hv. by rewrite Hst, Hen in Hv. }
  assert (Hl : length v = (en - st + 1)%nat /\ st = 0%nat).
  { apply (f_equal (@length _)) in HT. rewrite length_take, length_drop in HT. lia. }
  destruct Hl as [Hl ->].
  unfold Trim, find_last_not_blank in *. cbn [find_first_not_blank rev]. rewrite Hb, Hst.
  rewrite ffnb_app_blank by done.
  destruct (find_first_not_blank (rev v)) as [k|]; [|done].
  cbn [fmap option_fmap option_map] in *. injection Hen as Hen.
  unfold substr. cbn [length drop]. rewrite drop_0.
  apply take_ge. lia.
Qed.

Lemma not_HTTP m rest :
  find_char " "%char m = None -> take 4 m <> lit "HTTP" ->
  take 4 (m ++ " "%char :: rest) <> lit "HTTP".
Proof.
  intros Hs Hm.
  destruct m as [|a [|b [|c [|d m]]]]; cbn; try (intros [=]; fail).
  intros H. apply Hm. cbn. exact H.
Qed.

Lemma with_vars_parseVars sg data p : with_vars (vars p) (parseVars sg data p) = p.
Proof. apply parseVars_loop_frame. Qed.

(** The round of [parse] on a request line. *)
Lemma round_request_line sg p m u pr rest :
  seenReq p = false -> seenHeaders p = false -> request_line_ok m u pr ->
  exists p1,
    parse_round sg p ((m ++ " "%char :: u ++ " "%char :: pr ++ [CR]) ++ LF :: rest)
    = (Continue, p1, rest)
    /\ with_vars (vars p) p1
       = with_protocol pr (with_url u (with_method m (with_seenReq true p)))
    /\ vars p1
       = vars (parseVars sg (match find_char "?"%char u with
                             | Some q => substr_from (q + 1) u
                             | None => []
                             end) p).
Proof.
  intros Hr Hs (Hm1 & Hm2 & Hm3 & Hm4 & Hu1 & Hu2 & Hu3 & Hp2 & Hp3).
  set (tmpA := m ++ " "%char :: u ++ " "%char :: pr).
  assert (Eline : m ++ " "%char :: u ++ " "%char :: pr ++ [CR] = tmpA ++ [CR]).
  { unfold tmpA. rewrite <- !app_assoc. cbn [app]. rewrite <- !app_assoc. reflexivity. }
  assert (HCR : find_char CR tmpA = None).
  { unfold tmpA. apply find_char_app_None; [done|].
    rewrite find_char_cons_ne by discriminate.
    rewrite find_char_app_None; [done|done|].
    rewrite find_char_cons_ne by discriminate. by rewrite Hp2. }
  assert (HLF : find_char LF (tmpA ++ [CR]) = None).
  { unfold tmpA. rewrite <- !app_assoc. apply find_char_app_None; [done|].
    cbn [app]. rewrite find_char_cons_ne by discriminate.
    rewrite <- app_assoc. rewrite find_char_app_None; [done|done|].
    cbn [app]. rewrite find_char_cons_ne by discriminate.
    rewrite find_char_app_None; [done|done|]. reflexivity. }
  rewrite Eline.
  destruct (eat_line (tmpA ++ [CR]) rest HLF) as (E1 & E2 & E3).
  unfold parse_round. rewrite Hs. cbn [negb].
  unfold parse_head. rewrite E1, E2, E3, strip_cr_line, Hr by done. cbn [negb].
  (* the three tokens *)
  unfold parse_first_line.
  assert (F1 : find_char " "%char tmpA = Some (length m)) by (by apply find_char_sep).
  rewrite F1.
  assert (Eh : substr 0 4 tmpA <> lit "HTTP").
  { unfold substr. rewrite drop_0. by apply not_HTTP. }
  rewrite (bool_decide_eq_false_2 _ Eh).
  assert (Em : substr 0 (length m) tmpA = m).
  { unfold substr, tmpA. by rewrite drop_0, take_app_length. }
  assert (Ee : erase 0 (length m + 1) tmpA = u ++ " "%char :: pr).
  { rewrite erase_0. unfold tmpA. apply drop_sep. }
  rewrite Em, Ee, (find_char_sep " "%char u pr Hu1).
  assert (Eu : substr 0 (length u) (u ++ " "%char :: pr) = u).
  { unfold substr. by rewrite drop_0, take_app_length. }
  assert (Ee2 : erase 0 (length u + 1) (u ++ " "%char :: pr) = pr).
  { rewrite erase_0. apply drop_sep. }
  rewrite Eu, Ee2.
  set (p0 := with_protocol pr (with_url u (with_method m (with_seenReq true p)))).
  change (url p0) with u.
  set (p1 := match find_char "?"%char u with
             | Some q => parseVars sg (substr_from (q + 1) u) p0
             | None => p0
             end).
  assert (Hp1 : with_vars (vars p) p1 = p0).
  { unfold p1. destruct (find_char "?"%char u); [|by destruct p].
    change (vars p) with (vars p0). apply with_vars_parseVars. }
  assert (Hsh : seenHeaders p1 = false).
  { change (seenHeaders p1) with (seenHeaders (with_vars (vars p) p1)).
    rewrite Hp1. exact Hs. }
  assert (Hv1 : vars p1
                = vars (parseVars sg (match find_char "?"%char u with
                                      | Some q => substr_from (q + 1) u
                                      | None => []
                                      end) p)).
  { unfold p1. destruct (find_char "?"%char u); [|reflexivity].
    by apply vars_parseVars_loop. }
  rewrite Hsh. by exists p1.
Qed.

Lemma header_line_shape k v rest :
  header_line (k, v) ++ rest = ((k ++ ":"%char :: " "%char :: v) ++ [CR]) ++ LF :: rest.
Proof.
  unfold header_line, CRLF, lit. simpl.
  rewrite <- !app_assoc. simpl. rewrite <- !app_assoc. reflexivity.
Qed.

(** The round of [parse] on a header line. *)
Lemma round_header_line sg p k v rest :
  seenReq p = true -> seenHeaders p = false ->
  k <> [] -> v <> [] -> header_ok k v ->
  parse_round sg p (header_line (k, v) ++ rest)
  = (Continue, with_headers (<[k := v]> (headers p)) p, rest).
Proof.
  intros Hr Hs Hk Hv (Tk & Tv & Hc & Hk1 & Hk2 & Hv1 & Hv2).
  rewrite header_line_shape.
  set (tmpA := k ++ ":"%char :: " "%char :: v).
  assert (HCR : find_char CR tmpA = None).
  { unfold tmpA. apply find_char_app_None; [done|].
    rewrite !find_char_cons_ne by discriminate. by rewrite Hv1. }
  assert (HLF : find_char LF (tmpA ++ [CR]) = None).
  { unfold tmpA. rewrite <- app_assoc. apply find_char_app_None; [done|].
    cbn [app]. rewrite !find_char_cons_ne by discriminate.
    rewrite find_char_app_None; [done|done|]. reflexivity. }
  destruct (eat_line (tmpA ++ [CR]) rest HLF) as (E1 & E2 & E3).
  unfold parse_round. rewrite Hs. cbn [negb].
  unfold parse_head. rewrite E1, E2, E3, strip_cr_line, Hr by done. cbn [negb].
  destruct (Nat.eqb_spec (length tmpA) 0) as [E|_].
  { unfold tmpA in E. rewrite length_app in E. simpl in E. lia. }
  assert (F : find_char ":"%char tmpA = Some (length k)) by (by apply find_char_sep).
  assert (Eb : take (length k) tmpA = k) by (unfold tmpA; apply take_app_length).
  assert (Ec : drop (length k + 1) tmpA = " "%char :: v) by (unfold tmpA; apply drop_sep).
  rewrite F. unfold substr, substr_from. rewrite drop_0.
  unfold SetHeader. rewrite Eb, Ec, Tk, (Trim_cons_blank " "%char v) by done.
  cbn [seenHeaders with_headers]. by rewrite Hs.
Qed.

(** What the end of the headers does to the parser: [h'] is the header
    map with the empty entries that the two [GetHeader] calls may add. *)
Lemma parse_end_spec p :
  exists h',
    parse_end_of_headers p
    = (let len := match headers p !! lit "Content-Length" with
                  | Some cl => if bool_decide (cl = []) then length_ p else u32 (atoi cl)
                  | None => length_ p
                  end in
       let p' := with_headers h' (with_length len (with_body [] (with_seenHeaders true p))) in
       if bool_decide (default [] (headers p !! lit "Transfer-Encoding") = lit "chunked")
       then with_doingChunk 0 (with_getChunks true p') else p')
    /\ (forall k v, v <> [] -> h' !! k = Some v <-> headers p !! k = Some v).
Proof.
  assert (Hne : lit "Transfer-Encoding" <> lit "Content-Length") by discriminate.
  assert (Hag : forall (h : gmap bytes bytes) j, h !! j = None ->
            forall k v, v <> [] -> <[j:=[]]> h !! k = Some v <-> h !! k = Some v).
  { intros h j Hj k v Hv. destruct (decide (k = j)) as [->|Hne'].
    - rewrite lookup_insert_eq, Hj. split; congruence.
    - by rewrite lookup_insert_ne. }
  destruct p as [bd0 m0 u0 pr0 len0 ho sh sr gc dc hs vs].
  unfold parse_end_of_headers, GetHeader.
  cbn [headers length_ body method url protocol headerOnly seenHeaders seenReq getChunks doingChunk vars with_seenHeaders with_body with_headers with_length with_doingChunk with_getChunks].
  destruct (hs !! lit "Content-Length") as [cl|] eqn:Hcl.
  - destruct (decide (cl = [])) as [->|Hc].
    + rewrite bool_decide_eq_true_2 by done.
      cbn [headers length_ body method url protocol headerOnly seenHeaders seenReq getChunks doingChunk vars with_seenHeaders with_body with_headers with_length with_doingChunk with_getChunks negb].
      destruct (hs !! lit "Transfer-Encoding") as [te|] eqn:Hte.
      * exists hs. split; [|done]. cbn [headers length_ body method url protocol headerOnly seenHeaders seenReq getChunks doingChunk vars with_seenHeaders with_body with_headers with_length with_doingChunk with_getChunks default from_option id].
        by destruct (bool_decide (te = lit "chunked")).
      * exists (<[lit "Transfer-Encoding":=[]]> hs). split; [|by apply Hag].
        cbn [headers length_ body method url protocol headerOnly seenHeaders seenReq getChunks doingChunk vars with_seenHeaders with_body with_headers with_length with_doingChunk with_getChunks default from_option id].
        by rewrite bool_decide_eq_false_2 by discriminate.
    + rewrite (bool_decide_eq_false_2 (cl = [])) by done. cbn [negb].
      cbn [headers length_ body method url protocol headerOnly seenHeaders seenReq getChunks doingChunk vars with_seenHeaders with_body with_headers with_length with_doingChunk with_getChunks]. rewrite Hcl.
      cbn [headers length_ body method url protocol headerOnly seenHeaders seenReq getChunks doingChunk vars with_seenHeaders with_body with_headers with_length with_doingChunk with_getChunks].
      destruct (hs !! lit "Transfer-Encoding") as [te|] eqn:Hte.
      * exists hs. split; [|done]. cbn [headers length_ body method url protocol headerOnly seenHeaders seenReq getChunks doingChunk vars with_seenHeaders with_body with_headers with_length with_doingChunk with_getChunks default from_option id].
        by destruct (bool_decide (te = lit "chunked")).
      * exists (<[lit "Transfer-Encoding":=[]]> hs). split; [|by apply Hag].
        cbn [headers length_ body method url protocol headerOnly seenHeaders seenReq getChunks doingChunk vars with_seenHeaders with_body with_headers with_length with_doingChunk with_getChunks default from_option id].
        by rewrite bool_decide_eq_false_2 by discriminate.
  - rewrite bool_decide_eq_true_2 by done. cbn [headers length_ body method url protocol headerOnly seenHeaders seenReq getChunks doingChunk vars with_seenHeaders with_body with_headers with_length with_doingChunk with_getChunks negb].
    rewrite lookup_insert_ne by done.
    destruct (hs !! lit "Transfer-Encoding") as [te|] eqn:Hte.
    + exists (<[lit "Content-Length":=[]]> hs). split; [|by apply Hag].
      cbn [headers length_ body method url protocol headerOnly seenHeaders seenReq getChunks doingChunk vars with_seenHeaders with_body with_headers with_length with_doingChunk with_getChunks default from_option id].
      by destruct (bool_decide (te = lit "chunked")).
    + exists (<[lit "Transfer-Encoding":=[]]> (<[lit "Content-Length":=[]]> hs)).
      split.
      * cbn [headers length_ body method url protocol headerOnly seenHeaders seenReq getChunks doingChunk vars with_seenHeaders with_body with_headers with_length with_doingChunk with_getChunks default from_option id].
        by rewrite bool_decide_eq_false_2 by discriminate.
      * intros k v Hv. rewrite Hag; [by apply Hag|by rewrite lookup_insert_ne|done].
Qed.

Lemma seenHeaders_end p : seenHeaders (parse_end_of_headers p) = true.
Proof.
  destruct (parse_end_spec p) as (h' & -> & _). cbv zeta.
  by destruct (bool_decide _).
Qed.

(** The round of [parse] on the empty line that ends the headers. *)
Lemma round_end_of_headers sg p bd :
  seenReq p = true -> seenHeaders p = false ->
  parse_round sg p (CR :: LF :: bd)
  = let '(b, p', b') := parse_body sg (parse_end_of_headers p) bd in (Return b, p', b').
Proof.
  intros Hr Hs. unfold parse_round. rewrite Hs. cbn [negb].
  destruct (eat_line [CR] bd eq_refl) as (E1 & E2 & E3).
  change (CR :: LF :: bd) with ([CR] ++ LF :: bd).
  unfold parse_head. rewrite E1, E2, E3, Hr. cbn [negb].
  change (strip_cr [CR]) with (@nil ascii). cbn [length Nat.eqb].
  by rewrite seenHeaders_end.
Qed.

Lemma with_headers_twice h1 h2 p : with_headers h2 (with_headers h1 p) = with_headers h2 p.
Proof. by destruct p. Qed.

Lemma with_headers_same p : with_headers (headers p) p = p.
Proof. by destruct p. Qed.

(** The rounds of [parse] on a run of header lines. *)
Lemma loop_header_lines sg L f p T :
  seenReq p = true -> seenHeaders p = false ->
  Forall (fun e => fst e <> [] /\ snd e <> [] /\ header_ok (fst e) (snd e)) L ->
  parse_loop sg (length L + f) p (concat (map header_line L) ++ T)
  = parse_loop sg f
      (with_headers (fold_left (fun m e => <[fst e := snd e]> m) L (headers p)) p) T.
Proof.
  intros Hr Hs HL. revert p Hr Hs.
  induction HL as [|[k v] L (Hk & Hv & Hok) _ IH]; intros p Hr Hs.
  - cbn. by rewrite with_headers_same.
  - cbn [map concat length Nat.add fold_left fst snd] in *.
    rewrite <- app_assoc.
    assert (Hne : header_line (k, v) ++ concat (map header_line L) ++ T <> [])
      by (unfold header_line; cbn [fst]; by destruct k).
    rewrite (loop_continue sg (length L + f) p _ _ _ Hne
               (round_header_line sg p k v _ Hr Hs Hk Hv Hok)).
    rewrite IH by done. cbn [headers with_headers]. by rewrite with_headers_twice.
Qed.

Lemma fold_insert_lookup (L : list (bytes * bytes)) (m0 : gmap bytes bytes) k v :
  NoDup (L.*1) ->
  (fold_left (fun m e => <[fst e := snd e]> m) L m0) !! k = Some v
  <-> (k, v) ∈ L \/ ((k ∉ L.*1) /\ m0 !! k = Some v).
Proof.
  revert m0. induction L as [|[k' v'] L IH]; intros m0 Hnd.
  - cbn. split; [intros H; right; split; [apply not_elem_of_nil|done]|].
    intros [H|[_ H]]; [by apply elem_of_nil in H|done].
  - cbn [fold_left fst snd fmap list_fmap] in *.
    apply NoDup_cons in Hnd as [Hk' Hnd]. rewrite (IH _ Hnd).
    rewrite elem_of_cons, not_elem_of_cons.
    destruct (decide (k = k')) as [->|Hne].
    + rewrite lookup_insert_eq. split.
      * intros [H|[H1 H2]]; [|left; left; congruence].
        exfalso. apply Hk'. apply list_elem_of_fmap. by exists (k', v).
      * intros [[H|H]|[[H _] _]]; [|left; done|done].
        right. split; [done|congruence].
    + rewrite lookup_insert_ne by done. split.
      * intros [H|[H1 H2]]; [left; by right|right; done].
      * intros [[H|H]|[[_ H1] H2]]; [congruence|by left|by right].
Qed.

Lemma digit_plain c :
  is_digit c = true -> is_blank c = false /\ c <> CR /\ c <> LF.
Proof.
  intros H. unfold is_blank. repeat split.
  - destruct (decide (c = " "%char)) as [->|H1]; [done|].
    destruct (decide (c = "009"%char)) as [->|H2]; [done|].
    by rewrite !bool_decide_eq_false_2.
  - by intros ->.
  - by intros ->.
Qed.

(** The header [SetBody] writes is one the parser reads back. *)
Lemma header_ok_digits s :
  s <> [] -> Forall (fun c => is_digit c = true) s -> header_ok (lit "Content-Length") s.
Proof.
  intros Hne Hd.
  assert (Hpl : Forall (fun c => is_blank c = false /\ c <> CR /\ c <> LF) s).
  { eapply Forall_impl; [exact Hd|]. intros c. apply digit_plain. }
  unfold header_ok. repeat split; try reflexivity.
  - destruct s as [|c s]; [done|].
    destruct (last (c :: s)) as [c'|] eqn:Hl.
    2: { apply last_None in Hl. done. }
    apply (Trim_fixed _ c c'); [done| |done|].
    + apply Forall_cons in Hpl as [[H _] _]. exact H.
    + apply last_Some_elem_of in Hl. rewrite Forall_forall in Hpl. by apply Hpl.
  - apply find_char_Forall_ne. eapply Forall_impl; [exact Hpl|]. by intros c (_ & H & _).
  - apply find_char_Forall_ne. eapply Forall_impl; [exact Hpl|]. by intros c (_ & _ & H).
Qed.

Lemma headers_fix_protocol p : headers (fix_protocol p) = headers p.
Proof. unfold fix_protocol. by destruct (_ || _). Qed.

Lemma fix_protocol_fields p :
  method (fix_protocol p) = method p /\ url (fix_protocol p) = url p
  /\ body (fix_protocol p) = body p.
Proof. unfold fix_protocol. by destruct (_ || _). Qed.

Lemma NoDup_emitted (P : bytes * bytes -> Prop) `{forall x, Decision (P x)} m :
  NoDup (filter P (entries m)).*1.
Proof.
  eapply sublist_NoDup; [|apply fmap_sublist, sublist_filter].
  rewrite entries_perm. apply NoDup_fst_map_to_list.
Qed.

(** X27.  A request that [BuildRequest] builds is a request that [parse]
    reads.  Take a parser whose method and URL hold no space and no line
    end (and the method does not begin like a protocol), whose URL has
    fewer than 2^32 - 2 bytes (the range in which the [unsigned int]
    counter of [urlunescape] reaches the end of a query string), whose
    protocol as [BuildRequest] fixes it holds no line end, and whose
    headers with a name and a value are trimmed, without colon in the
    name and without line end, none of them Transfer-Encoding: chunked;
    give it a body of fewer than 2^31 bytes with [SetBody].  Then a
    fresh parser reads the string built in one call, which returns true
    and leaves the buffer empty, and has the method, the URL, the
    protocol and the body of the request; its headers with a value are
    those of the request that have a name and a value, the
    Content-Length among them; its variables are those of the query
    string of the URL and then those of the body. *)
Theorem BuildRequest_then_parse sg (q0 : Parser) (bd : bytes) :
  let q := SetBody bd q0 in
  let pr := protocol (snd (BuildRequest q)) in
  request_line_ok (method q0) (url q0) pr ->
  (forall k v, headers q0 !! k = Some v -> k <> [] -> v <> [] -> header_ok k v) ->
  headers q0 !! lit "Transfer-Encoding" <> Some (lit "chunked") ->
  Z.of_nat (length (url q0)) < 2 ^ 32 - 2 ->
  Z.of_nat (length bd) < 2 ^ 31 ->
  exists p',
    parse sg new_Parser (fst (BuildRequest q)) = Some (true, p', [])
    /\ method p' = method q0 /\ url p' = url q0 /\ protocol p' = pr /\ body p' = bd
    /\ (forall k v, v <> [] ->
          (headers p' !! k = Some v <-> k <> [] /\ headers q !! k = Some v))
    /\ getUrl p' = getUrl q0
    /\ vars p'
       = vars (parseVars sg bd
                 (parseVars sg (match find_char "?"%char (url q0) with
                                | Some i => substr_from (i + 1) (url q0)
                                | None => []
                                end) new_Parser)).
Proof.
  intros q pr Hline Hhdr Hte _ Hlen.
  set (n := Z.of_nat (length bd)).
  assert (Hq : headers q = <[lit "Content-Length" := printf_i n]> (headers q0)).
  { unfold q, SetBody, SetHeader_int. cbn [headers with_headers with_body].
    rewrite s32_small by (fold n; lia). reflexivity. }
  assert (Hfp : BuildRequest q
                = ((method q0 ++ " "%char :: url q0 ++ " "%char :: pr ++ [CR])
                   ++ LF :: (concat (map header_line
                                       (filter (fun it => in_request it) (entries (headers q))))
                             ++ CR :: LF :: bd),
                   fix_protocol q)).
  { unfold pr, BuildRequest. cbv zeta. cbn [fst snd].
    rewrite fold_left_emit, headers_fix_protocol.
    destruct (fix_protocol_fields q) as (-> & -> & ->).
    unfold CRLF, lit. cbn [list_ascii_of_string app].
    change (method q) with (method q0). change (url q) with (url q0).
    change (body q) with bd.
    repeat (rewrite <- !app_assoc; cbn [app]). reflexivity. }
  rewrite Hfp. cbn [fst snd] in *.
  set (L := filter (fun it => in_request it) (entries (headers q))).
  assert (HL : forall k v, (k, v) ∈ L <-> (k <> [] /\ v <> []) /\ headers q !! k = Some v).
  { intros k v. unfold L. rewrite list_elem_of_filter, elem_of_entries.
    unfold in_request. cbn [fst snd].
    rewrite Is_true_true, andb_true_iff, !negb_true_iff, !bool_decide_eq_false. done. }
  assert (Hn : 0 <= n < 2 ^ 31) by (unfold n; lia).
  assert (Hok : Forall (fun e => fst e <> [] /\ snd e <> [] /\ header_ok (fst e) (snd e)) L).
  { apply Forall_forall. intros [k v] Hin. apply HL in Hin as [[Hk Hv] Hin].
    cbn [fst snd]. split; [done|]. split; [done|].
    rewrite Hq in Hin. destruct (decide (k = lit "Content-Length")) as [->|Hne].
    - rewrite lookup_insert_eq in Hin. injection Hin as <-.
      apply header_ok_digits; [done|]. unfold printf_i.
      destruct (n <? 0) eqn:E; [lia|]. apply utoa_dec_digits. constructor.
    - rewrite lookup_insert_ne in Hin by done. by apply Hhdr. }
  destruct (round_request_line sg new_Parser (method q0) (url q0) pr
              (concat (map header_line L) ++ CR :: LF :: bd) eq_refl eq_refl Hline)
    as (p1 & Hr1 & Hp1 & Hv1).
  set (Q := parseVars sg _ new_Parser) in Hv1 |- *.
  destruct p1 as [b1 m1 u1 pr1 l1 ho1 sh1 sr1 gc1 dc1 hs1 vs1].
  injection Hp1 as -> -> -> -> -> -> -> -> -> -> ->. cbn [vars] in Hv1.
  set (p1 := mkParser _ _ _ _ _ _ _ _ _ _ _ vs1) in *.
  set (p2 := with_headers (fold_left (fun m e => <[fst e := snd e]> m) L (headers p1)) p1).
  assert (Hnd : NoDup L.*1) by apply NoDup_emitted.
  assert (Hpn : printf_i n <> []).
  { unfold printf_i. destruct (n <? 0) eqn:E; [lia|]. apply utoa_dec_nonempty. lia. }
  assert (Hcl : headers p2 !! lit "Content-Length" = Some (printf_i n)).
  { apply fold_insert_lookup; [done|]. left. apply HL.
    split; [split; [discriminate|done]|]. rewrite Hq. apply lookup_insert_eq. }
  assert (Htc : default [] (headers p2 !! lit "Transfer-Encoding") <> lit "chunked").
  { destruct (headers p2 !! lit "Transfer-Encoding") as [te|] eqn:E; [|discriminate].
    cbn. intros ->. apply fold_insert_lookup in E; [|done]. destruct E as [E|[_ E]]; [|done].
    apply HL in E as [_ E]. rewrite Hq, lookup_insert_ne in E by discriminate. done. }
  destruct (parse_end_spec p2) as (h' & HE & Hh').
  cbv zeta in HE. rewrite Hcl, (bool_decide_eq_false_2 _ Hpn) in HE.
  rewrite (bool_decide_eq_false_2 _ Htc), atoi_printf_i, u32_small in HE by lia.
  set (pE := with_headers h' (with_length n (with_body [] (with_seenHeaders true p2)))) in *.
  assert (Hhp : forall k v, v <> [] ->
            (headers pE !! k = Some v <-> k <> [] /\ headers q !! k = Some v)).
  { intros k v Hv. change (headers pE) with h'. rewrite (Hh' k v Hv).
    unfold p2. cbn [headers with_headers]. rewrite fold_insert_lookup, HL by done. split.
    - by intros [[[Hk _] H]|[_ H]].
    - intros [Hk H]. by left. }
  assert (Hloop : forall r, parse_body sg pE bd = (true, r, []) ->
            parse sg new_Parser
              ((method q0 ++ " "%char :: url q0 ++ " "%char :: pr ++ [CR]) ++
               LF :: concat (map header_line L) ++ CR :: LF :: bd) = Some (true, r, [])).
  { intros r Hr. apply (parse_of_loop sg (S (length L + 1))).
    assert (Hne : (method q0 ++ " "%char :: url q0 ++ " "%char :: pr ++ [CR]) ++
                  LF :: concat (map header_line L) ++ CR :: LF :: bd <> [])
      by (by destruct (method q0)).
    rewrite (loop_continue sg (length L + 1) new_Parser _ _ _ Hne Hr1).
    rewrite loop_header_lines by done. fold p2.
    apply loop_return; [done|]. rewrite round_end_of_headers by done.
    rewrite HE. by rewrite Hr. }
  destruct (decide (n = 0)) as [E0|E0].
  - assert (Hbd : bd = []) by (destruct bd; [done|unfold n in E0; simpl in E0; lia]).
    exists pE. split.
    2: { rewrite Hbd. split; [done|]. split; [done|]. split; [done|]. split; [done|].
         split; [exact Hhp|]. split; [done|].
         change (vars pE) with vs1. by rewrite Hv1. }
    apply Hloop. unfold parse_body. change (length_ pE) with n. rewrite E0.
    change (getChunks pE) with false. by rewrite Hbd.
  - exists (parseVars sg bd (with_body bd pE)).
    assert (Hv := with_vars_parseVars sg bd (with_body bd pE)).
    split.
    + apply Hloop. unfold parse_body. change (length_ pE) with n.
      destruct (Z.ltb_spec 0 n); [|lia].
      change (headerOnly pE) with false. change (body pE) with (@nil ascii).
      cbn [length]. rewrite Z.sub_0_r, u32_small by lia.
      destruct (Z.ltb_spec 0 n); [|lia].
      cbn [app length_ body with_body]. change (length_ pE) with n.
      assert (Et : take (Z.to_nat n) bd = bd) by (apply take_ge; unfold n; lia).
      assert (Ee : erase 0 (Z.to_nat n) bd = []).
      { rewrite erase_0. apply drop_ge. unfold n. lia. }
      rewrite Et, Ee. fold n. by rewrite Z.eqb_refl.
    + set (pv := parseVars sg bd (with_body bd pE)) in *.
      assert (Hf : method pv = method q0 /\ url pv = url q0 /\ protocol pv = pr
                   /\ body pv = bd /\ headers pv = headers pE).
      { apply (f_equal (fun x => (method x, url x, protocol x, body x, headers x))) in Hv.
        destruct pv. cbn in Hv. by injection Hv as -> -> -> -> ->. }
      destruct Hf as (Hf1 & Hf2 & Hf3 & Hf4 & Hf5).
      split; [done|]. split; [done|]. split; [done|]. split; [done|].
      split; [by rewrite Hf5|]. split; [unfold getUrl; by rewrite Hf2|].
      unfold pv, parseVars. apply vars_parseVars_loop.
      change (vars (with_body bd pE)) with vs1. by rewrite Hv1.
Qed.

Lemma BuildRequest_then_parse_witness :
  exists p',
    parse true new_Parser
      (fst (BuildRequest
              (SetBody (lit "a=1")
                 (with_url (lit "/v?x=2") (SetHeader (lit "Host") (lit "h") new_Parser)))))
    = Some (true, p', [])
    /\ method p' = method (with_url (lit "/v?x=2") (SetHeader (lit "Host") (lit "h") new_Parser))
    /\ url p' = url (with_url (lit "/v?x=2") (SetHeader (lit "Host") (lit "h") new_Parser))
    /\ protocol p'
       = protocol
           (snd (BuildRequest
                   (SetBody (lit "a=1")
                      (with_url (lit "/v?x=2")
                         (SetHeader (lit "Host") (lit "h") new_Parser)))))
    /\ body p' = lit "a=1"
    /\ (forall k v, v <> [] ->
          (headers p' !! k = Some v
           <-> k <> []
               /\ headers (SetBody (lit "a=1")
                            (with_url (lit "/v?x=2")
                               (SetHeader (lit "Host") (lit "h") new_Parser))) !! k
                  = Some v))
    /\ getUrl p'
       = getUrl (with_url (lit "/v?x=2") (SetHeader (lit "Host") (lit "h") new_Parser))
    /\ vars p'
       = vars (parseVars true (lit "a=1")
                 (parseVars true
                    (match find_char "?"%char
                             (url (with_url (lit "/v?x=2")
                                     (SetHeader (lit "Host") (lit "h") new_Parser))) with
                     | Some i =>
                         substr_from (i + 1)
                           (url (with_url (lit "/v?x=2")
                                   (SetHeader (lit "Host") (lit "h") new_Parser)))
                     | None => []
                     end) new_Parser)).
Proof.
  apply (BuildRequest_then_parse true
           (with_url (lit "/v?x=2") (SetHeader (lit "Host") (lit "h") new_Parser))
           (lit "a=1")).
  - vm_compute. repeat split; try reflexivity. intros H. discriminate H.
  - intros k v H.
    change (headers (with_url (lit "/v?x=2") (SetHeader (lit "Host") (lit "h") new_Parser)))
      with (<[lit "Host" := lit "h"]> (∅ : gmap bytes bytes)) in H.
    apply lookup_insert_Some in H as [[<- <-]|[_ H]]; [|by rewrite lookup_empty in H].
    intros _ _. vm_compute. repeat split; reflexivity.
  - vm_compute. intros H. discriminate H.
  - vm_compute. reflexivity.
  - vm_compute. reflexivity.
Defined.

End http_request.

(** ** http_parser.cpp: the size line of a chunk *)

Section http_chunk_size.

Import HTTP.

Lemma utoa_length_acc fuel n acc : (length acc <= length (utoa 16 fuel n acc))%nat.
Proof.
  revert n acc. induction fuel as [|fuel IH]; intros n acc; [done|].
  cbn [utoa]. destruct (n / 16 =? 0); [simpl; lia|].
  etrans; [|apply IH]. simpl. lia.
Qed.

(** A value of at least [16 ^ j] prints with more than [j] digits. *)
Lemma utoa_length_ge fuel j n acc :
  (j < fuel)%nat -> 16 ^ Z.of_nat j <= n ->
  (j + 1 + length acc <= length (utoa 16 fuel n acc))%nat.
Proof.
  revert j n acc. induction fuel as [|fuel IH]; intros j n acc Hj Hn; [lia|].
  assert (H16 : 0 < 16 ^ Z.of_nat j) by (apply Z.pow_pos_nonneg; lia).
  cbn [utoa]. destruct (Z.eqb_spec (n / 16) 0) as [E|E].
  - destruct j as [|j]; [simpl; lia|].
    rewrite Nat2Z.inj_succ, Z.pow_succ_r in Hn by lia.
    assert (n < 16) by (apply Z.div_small_iff in E; lia).
    assert (0 < 16 ^ Z.of_nat j) by (apply Z.pow_pos_nonneg; lia). lia.
  - destruct j as [|j].
    + etrans; [|apply utoa_length_acc]. simpl. lia.
    + rewrite Nat2Z.inj_succ, Z.pow_succ_r in Hn by lia.
      etrans; [|apply (IH j)]; [simpl; lia|lia|].
      apply Z.div_le_lower_bound; lia.
Qed.

(** X28.  What [Chunkify] hands to the connection under HTTP/1.1, for a
    size that the data has: the size in hexadecimal, the data, and a
    line end (two for the empty chunk that ends the body).  The size line ends in CR LF only for a
    size below 2^28: a size of eight digits fills the ten bytes of [len]
    and [snprintf] cuts the line after the CR, so the ten bytes sent end
    in CR and the terminating zero byte. *)
Theorem Chunkify_size_line (data : bytes) (size : Z) (q : Parser) (conn : list bytes) :
  protocol q = lit "HTTP/1.1" -> 0 <= size < 2 ^ 32 ->
  size <= Z.of_nat (length data) ->
  fst (Chunkify data size q conn)
  = conn ++ [printf_x size ++ (if size <? 2 ^ 28 then [CR; LF] else [CR; NUL]);
             take (Z.to_nat size) data; [CR; LF]]
         ++ (if size =? 0 then [[CR; LF]] else []).
Proof.
  intros Hq Hs _. unfold Chunkify. rewrite bool_decide_eq_true_2 by done.
  unfold snprintf_len, CRLF. set (hx := printf_x size).
  assert (Hup : (1 <= length hx <= 8)%nat).
  { pose proof (utoa_length 8 8 size [] ltac:(lia)
                  ltac:(change (16 ^ Z.of_nat 8) with (2 ^ 32); lia)) as H.
    simpl in H. exact H. }
  assert (Hline : take (Z.to_nat (Z.of_nat (length (hx ++ [CR; LF]))))
                       (take 9 (hx ++ [CR; LF]) ++ [NUL])
                  = hx ++ (if size <? 2 ^ 28 then [CR; LF] else [CR; NUL])).
  { rewrite Nat2Z.id. destruct (Z.ltb_spec size (2 ^ 28)) as [Hlt|Hge].
    - pose proof (utoa_length 8 7 size [] ltac:(lia)
                    ltac:(change (16 ^ Z.of_nat 7) with (2 ^ 28); lia)) as H.
      fold (printf_x size) in H. fold hx in H. simpl in H.
      rewrite (take_ge (hx ++ [CR; LF])) by (rewrite length_app; simpl; lia).
      apply take_app_length.
    - pose proof (utoa_length_ge 8 7 size [] ltac:(lia)
                    ltac:(change (16 ^ Z.of_nat 7) with (2 ^ 28); lia)) as H.
      fold (printf_x size) in H. fold hx in H. simpl in H.
      assert (E8 : length hx = 8%nat) by lia.
      change [CR; LF] with ([CR] ++ [LF]). rewrite app_assoc.
      replace 9%nat with (length (hx ++ [CR])) at 1 by (rewrite length_app; simpl; lia).
      rewrite take_app_length.
      rewrite take_ge by (rewrite !length_app; simpl; lia).
      by rewrite <- app_assoc. }
  cbn [fst]. rewrite Hline.
  destruct (size =? 0); rewrite <- ?app_assoc; reflexivity.
Qed.

Lemma Chunkify_size_line_witness :
  fst (Chunkify (replicate (Z.to_nat (2 ^ 28)) NUL) (2 ^ 28) new_Parser [])
  = [] ++ [printf_x (2 ^ 28) ++ (if 2 ^ 28 <? 2 ^ 28 then [CR; LF] else [CR; NUL]);
           take (Z.to_nat (2 ^ 28)) (replicate (Z.to_nat (2 ^ 28)) NUL); [CR; LF]]
       ++ (if 2 ^ 28 =? 0 then [[CR; LF]] else []).
Proof.
  apply (Chunkify_size_line (replicate (Z.to_nat (2 ^ 28)) NUL) (2 ^ 28) new_Parser []);
    [reflexivity|lia|rewrite length_replicate; lia].
Defined.

End http_chunk_size.

(** ** mp4_conv.cpp: the size of the media data *)

Section mp4_mdat.

Import MP4.

Variable keyPart_lt : keyPart -> keyPart -> bool.
Variable decodeVector : bytes -> list Z.
Variable ftyp_boxedSize : Z.
Variable moov_boxedSize : list Track -> Z.

(** [mdatSize] is assigned in every round of the loop over the tracks:
    what stays is the value of the last round. *)
Lemma fold_last_value {A} (g : A -> Z) (c : Z) (l : list A) (a : Z) :
  Forall (fun x => g x = c) l ->
  fold_left (fun _ st => g st) l a = match l with [] => a | _ => c end.
Proof.
  intros H. revert a. induction H as [|x l Hx Hl IH]; intros a; [done|].
  cbn [fold_left]. rewrite IH, Hx. by destruct l.
Qed.

(** Four bytes written with shifts and masks, read as a number. *)
Lemma be32_value v :
  0 <= v ->
  uchar (to_char (Z.land (Z.shiftr v 24) 255)) * 2 ^ 24
  + uchar (to_char (Z.land (Z.shiftr v 16) 255)) * 2 ^ 16
  + uchar (to_char (Z.land (Z.shiftr v 8) 255)) * 2 ^ 8
  + uchar (to_char (Z.land v 255)) = v mod 2 ^ 32.
Proof.
  intros Hv. rewrite !byte_of_land, !Z.shiftr_div_pow2 by lia.
  change (2 ^ 32) with 4294967296. change (2 ^ 16) with 65536.
  change (2 ^ 8) with 256. change (2 ^ 24) with 16777216.
  Z.div_mod_to_equations. lia.
Qed.

(** X29.  For well-formed metadata of a fixed stream, the [mdatSize] that
    [DTSCMeta2MP4Header] computes is the total size of all parts of all
    tracks in the [keyParts] set (zero when there is no track), and the
    four bytes it writes in front of ["mdat"] are that number modulo
    2^32, most significant byte first: the size of the media data alone,
    without the eight bytes of the box head. *)
Theorem mdatSize_is_size_of_parts (tracks : list Track) :
  well_formed decodeVector tracks ->
  representable keyPart_lt decodeVector ftyp_boxedSize moov_boxedSize tracks ->
  let plan := DTSCMeta2MP4Header keyPart_lt decodeVector ftyp_boxedSize moov_boxedSize tracks in
  let parts := interleave decodeVector (keyParts plan) in
  mdatSize plan = part_sizes parts
  /\ exists b0 b1 b2 b3,
       mdat_header (mdatSize plan) = [b0; b1; b2; b3] ++ lit "mdat"
       /\ uchar b0 * 2 ^ 24 + uchar b1 * 2 ^ 16 + uchar b2 * 2 ^ 8 + uchar b3
          = part_sizes parts mod 2 ^ 32.
Proof.
  intros Hwf (Hh & Hpos & Hmax & Hcnt). cbv zeta.
  unfold DTSCMeta2MP4Header. cbn [mdatSize keyParts].
  set (kps := collect_keyParts keyPart_lt tracks) in *.
  set (I := interleave decodeVector kps) in *.
  pose proof (part_sizes_nonneg I Hpos) as Hnn.
  assert (Hm : fold_left (fun _ st => totalByteOffset st)
                 (map (fun tr => stco_pass decodeVector (t_trackid tr) kps) tracks) 0
               = part_sizes I).
  { rewrite (fold_last_value totalByteOffset (part_sizes I)).
    - destruct tracks; [reflexivity|reflexivity].
    - apply Forall_forall. intros st Hst. apply list_elem_of_fmap in Hst as (tr & -> & _).
      pose proof (count_track_le (t_trackid tr) I).
      rewrite stco_pass_spec by (try apply collect_keyParts_wf; try done; fold I; lia).
      cbn [totalByteOffset]. fold I. apply u64_small. lia. }
  rewrite Hm. split; [reflexivity|].
  eexists _, _, _, _. split; [reflexivity|]. by apply be32_value.
Qed.

End mp4_mdat.

Lemma mdatSize_is_size_of_parts_witness :
  let plan := MP4.DTSCMeta2MP4Header MP4.sample_lt MP4.sample_decode 32 (fun _ => 1000)
                MP4.sample_tracks in
  let parts := MP4.interleave MP4.sample_decode (MP4.keyParts plan) in
  MP4.mdatSize plan = MP4.part_sizes parts
  /\ exists b0 b1 b2 b3,
       MP4.mdat_header (MP4.mdatSize plan) = [b0; b1; b2; b3] ++ lit "mdat"
       /\ uchar b0 * 2 ^ 24 + uchar b1 * 2 ^ 16 + uchar b2 * 2 ^ 8 + uchar b3
          = MP4.part_sizes parts mod 2 ^ 32.
Proof.
  apply (mdatSize_is_size_of_parts MP4.sample_lt MP4.sample_decode 32 (fun _ => 1000)
           MP4.sample_tracks).
  - repeat constructor.
  - vm_compute. repeat split; try discriminate; repeat constructor; discriminate.
Defined.

(** ** mp4_conv.cpp: the interleaver *)

Section mp4_interleaver.

Import MP4.

Lemma queued_insert_fresh t q (tb : gmap Z (list MediaPart)) :
  tb !! t = None -> queued (<[t := q]> tb) = (length q + queued tb)%nat.
Proof.
  intros H. unfold queued.
  apply (map_fold_insert_L (fun _ (q : list MediaPart) n => (length q + n)%nat)); [|done].
  intros. lia.
Qed.

Lemma queued_lookup t q (tb : gmap Z (list MediaPart)) :
  tb !! t = Some q -> queued tb = (length q + queued (delete t tb))%nat.
Proof.
  unfold queued.
  apply (map_fold_delete_L (fun _ (q : list MediaPart) n => (length q + n)%nat)).
  intros. lia.
Qed.

Lemma queued_replace t q q' (tb : gmap Z (list MediaPart)) :
  tb !! t = Some q ->
  (queued (<[t := q']> tb) + length q = queued tb + length q')%nat.
Proof.
  intros H. rewrite (queued_lookup t q tb H), <- (insert_delete_eq tb).
  rewrite queued_insert_fresh by apply lookup_delete_eq. lia.
Qed.

Lemma lookup_touch t k (tb : gmap Z (list MediaPart)) :
  default [] (touch k tb !! t) = default [] (tb !! t).
Proof.
  unfold touch. destruct (tb !! k) eqn:E; [done|].
  destruct (decide (t = k)) as [->|Hne].
  - by rewrite lookup_insert_eq, E.
  - by rewrite lookup_insert_ne.
Qed.

Lemma queued_touch k tb : queued (touch k tb) = queued tb.
Proof.
  unfold touch. destruct (tb !! k) eqn:E; [done|]. by rewrite queued_insert_fresh.
Qed.

Lemma touch_lookup k (tb : gmap Z (list MediaPart)) :
  touch k tb !! k = Some (default [] (tb !! k)).
Proof.
  unfold touch. destruct (tb !! k) eqn:E; [by rewrite E|]. by rewrite lookup_insert_eq.
Qed.

(** One packet written for the key part at [curKey]. *)
Lemma next_part_spec kp c :
  c_keyParts c !! curKey c = Some kp -> counters_ok c ->
  counters_ok (next_part kp c)
  /\ to_write c = trackID kp :: to_write (next_part kp c)
  /\ c_keyParts (next_part kp c) = c_keyParts c
  /\ trackBuffer (next_part kp c) = trackBuffer c
  /\ stringBuffer (next_part kp c) = stringBuffer c.
Proof.
  intros Hk (Hc0 & Hc).
  assert (Hkp : 0 <= u64 (partsize kp) < 2 ^ 64) by (apply Z.mod_pos_bound; lia).
  assert (Hlt : curPart c = 0 \/ curPart c < u64 (partsize kp)).
  { destruct Hc as [H|(kp' & Hk' & H)]; [by left|right]. congruence. }
  assert (Hu : u64 (curPart c + 1) = curPart c + 1).
  { apply u64_small. change (2 ^ 64) with 18446744073709551616 in *. lia. }
  unfold next_part. rewrite Hu.
  destruct (Z.leb_spec (u64 (partsize kp)) (curPart c + 1)) as [Hle|Hgt].
  - split; [|split; [|done]].
    + split; [done|]. by left.
    + unfold to_write. cbn [c_keyParts curKey curPart]. rewrite Hk.
      assert (Ht : takes kp (curPart c) = [trackID kp]).
      { unfold takes.
        by replace (Z.to_nat (Z.max 1 (u64 (partsize kp) - curPart c))) with 1%nat by lia. }
      rewrite Ht. cbn [app]. f_equal.
      destruct (c_keyParts c !! S (curKey c)) as [kp'|] eqn:Hk'.
      * rewrite (drop_S _ _ _ Hk'). reflexivity.
      * apply lookup_ge_None in Hk'. by rewrite drop_ge.
  - split; [|split; [|done]].
    + unfold counters_ok. cbn [c_keyParts curKey curPart]. split; [lia|].
      right. exists kp. split; [done|lia].
    + unfold to_write. cbn [c_keyParts curKey curPart]. rewrite Hk.
      unfold takes.
      replace (Z.to_nat (Z.max 1 (u64 (partsize kp) - curPart c)))
        with (S (Z.to_nat (Z.max 1 (u64 (partsize kp) - (curPart c + 1))))) by lia.
      reflexivity.
Qed.

(** The loop over the deque of the current key part. *)
Lemma flush_spec fuel c :
  (queued (trackBuffer c) < fuel)%nat -> counters_ok c ->
  exists r, flush fuel c = Some r
    /\ forall c', r = HTTP.Defined c' ->
         exists out : list (Z * MediaPart),
           c_keyParts c' = c_keyParts c
           /\ counters_ok c'
           /\ stringBuffer c' = stringBuffer c ++ concat (map (fun e => m_data (snd e)) out)
           /\ to_write c = map fst out ++ to_write c'
           /\ (forall t, queue t c = map snd (filter (fun e => fst e = t) out) ++ queue t c')
           /\ exists kp, c_keyParts c' !! curKey c' = Some kp /\ queue (trackID kp) c' = [].
Proof.
  revert c. induction fuel as [|fuel IH]; intros c Hf Hok; [lia|].
  cbn [flush]. destruct (c_keyParts c !! curKey c) as [kp|] eqn:Hk.
  2: { exists HTTP.Undefined. split; [done|]. intros c' [=]. }
  destruct (default [] (touch (trackID kp) (trackBuffer c) !! trackID kp))
    as [|front rest] eqn:Hq.
  - eexists. split; [reflexivity|]. intros c' [= <-]. exists [].
    split; [done|]. split; [exact Hok|]. split; [cbn; by rewrite app_nil_r|].
    split; [done|]. split.
    + intros t. unfold queue. cbn [trackBuffer]. by rewrite lookup_touch.
    + exists kp. split; [done|]. exact Hq.
  - assert (Htb : trackBuffer c !! trackID kp = Some (front :: rest)).
    { rewrite lookup_touch in Hq. revert Hq.
      destruct (trackBuffer c !! trackID kp); cbn; [by intros ->|done]. }
    assert (Et : touch (trackID kp) (trackBuffer c) = trackBuffer c)
      by (unfold touch; by rewrite Htb).
    rewrite Et.
    set (c2 := mkConverter (c_keyParts c) (curKey c) (curPart c)
                           (<[trackID kp := rest]> (trackBuffer c))
                           (stringBuffer c ++ m_data front)).
    destruct (next_part_spec kp c2 Hk Hok) as (Hok3 & Hw3 & Hk3 & Hb3 & Hs3).
    pose proof (queued_replace (trackID kp) _ rest _ Htb) as Hqd. simpl in Hqd.
    destruct (IH (next_part kp c2)) as (r & Hr & Hspec); [rewrite Hb3; cbn; lia|done|].
    exists r. split; [done|]. intros c' ->.
    destruct (Hspec c' eq_refl) as (out & H1 & H2 & H3 & H4 & H5 & H6).
    exists ((trackID kp, front) :: out).
    split; [by rewrite H1, Hk3|]. split; [done|].
    split; [rewrite H3, Hs3; cbn; by rewrite <- app_assoc|].
    split; [change (to_write c) with (to_write c2); rewrite Hw3, H4; reflexivity|].
    split; [|done].
    intros t. rewrite filter_cons. cbn [fst]. specialize (H5 t).
    unfold queue in H5 at 1. rewrite Hb3 in H5. cbn [trackBuffer c2] in H5.
    destruct (decide (trackID kp = t)) as [<-|Hne].
    + rewrite lookup_insert_eq in H5. cbn in H5. unfold queue at 1. rewrite Htb. cbn.
      by rewrite H5.
    + rewrite lookup_insert_ne in H5 by done. exact H5.
Qed.

Lemma takes_nonempty kp done : takes kp done <> [].
Proof.
  unfold takes.
  replace (Z.to_nat (Z.max 1 (u64 (partsize kp) - done)))
    with (S (Z.to_nat (Z.max 1 (u64 (partsize kp) - done)) - 1)) by lia.
  done.
Qed.

Lemma to_write_nil c : to_write c = [] -> c_keyParts c !! curKey c = None.
Proof.
  unfold to_write. destruct (c_keyParts c !! curKey c) as [kp|]; [|done].
  intros H. apply app_eq_nil in H as [H _]. by apply takes_nonempty in H.
Qed.

(** X30.  A call of [parseDTSC] with the part counter in order returns.
    It leaves the language when all packets of all key parts have been
    written, because the loop test reads through [curKey]; it stays
    inside when no packet waits for the track of the current key part.
    When it stays inside, the part counter is in order again, and the
    packets it appends to [stringBuffer] are, in this order, packets of
    the tracks that the key parts name, for each key part as many as its
    [partsize] says when converted to the [long long unsigned int] of
    the counter (one when that is zero, 2^64 minus its amount when
    [partsize] is negative), beginning where the last call stopped; a
    packet is written after all packets of its track that came before
    it, and the packet of the call, when it is not written, is put
    behind the packets waiting for its track. *)
Theorem parseDTSC_writes_in_key_order (mediaPart : MediaPart) (c : Converter) :
  counters_ok c ->
  exists r, parseDTSC mediaPart c = Some r
    /\ (to_write c = [] -> r = HTTP.Undefined)
    /\ (forall kp, c_keyParts c !! curKey c = Some kp -> queue (trackID kp) c = [] ->
        exists c', r = HTTP.Defined c')
    /\ forall c', r = HTTP.Defined c' ->
         exists out : list (Z * MediaPart),
           c_keyParts c' = c_keyParts c
           /\ counters_ok c'
           /\ stringBuffer c' = stringBuffer c ++ concat (map (fun e => m_data (snd e)) out)
           /\ to_write c = map fst out ++ to_write c'
           /\ forall t,
                queue t c ++ (if decide (m_trackid mediaPart = t) then [mediaPart] else [])
                = map snd (filter (fun e => fst e = t) out) ++ queue t c'.
Proof.
  intros Hok. unfold parseDTSC.
  destruct (flush_spec (S (queued (trackBuffer c))) c ltac:(lia) Hok) as (r0 & Hr0 & Hspec).
  assert (Hend : to_write c = [] -> r0 = HTTP.Undefined).
  { intros Hw. apply to_write_nil in Hw. cbn [flush] in Hr0. rewrite Hw in Hr0. congruence. }
  assert (Hrun : forall kp, c_keyParts c !! curKey c = Some kp -> queue (trackID kp) c = [] ->
                 r0 <> HTTP.Undefined).
  { intros kp Hk Hq. cbn [flush] in Hr0. rewrite Hk, lookup_touch in Hr0.
    unfold queue in Hq. rewrite Hq in Hr0. congruence. }
  rewrite Hr0. destruct r0 as [|c1].
  { exists HTTP.Undefined. split; [done|]. split; [done|].
    split; [intros kp Hk Hq; by destruct (Hrun kp Hk Hq)|]. intros c' [=]. }
  destruct (Hspec c1 eq_refl) as (out & H1 & H2 & H3 & H4 & H5 & kp & Hk & Hq).
  rewrite Hk. destruct (Z.eqb_spec (trackID kp) (m_trackid mediaPart)) as [E|Hne].
  - set (c2 := mkConverter (c_keyParts c1) (curKey c1) (curPart c1) (trackBuffer c1)
                           (stringBuffer c1 ++ m_data mediaPart)).
    destruct (next_part_spec kp c2 Hk H2) as (Hok3 & Hw3 & Hk3 & Hb3 & Hs3).
    eexists. split; [reflexivity|]. split; [intros Hw; by apply Hend in Hw|].
    split; [by eexists|].
    intros c' [= <-]. exists (out ++ [(trackID kp, mediaPart)]).
    split; [by rewrite Hk3|]. split; [done|].
    split.
    { rewrite Hs3. cbn [stringBuffer c2]. rewrite H3, map_app, concat_app. cbn.
      by rewrite app_nil_r, <- app_assoc. }
    split.
    { rewrite H4. change (to_write c1) with (to_write c2).
      rewrite Hw3, map_app, <- app_assoc. reflexivity. }
    intros t. rewrite filter_app, map_app, (H5 t). unfold queue at 2. rewrite Hb3.
    cbn [trackBuffer c2]. fold (queue t c1).
    rewrite filter_cons, filter_nil. cbn [fst]. rewrite <- E.
    destruct (decide (trackID kp = t)) as [<-|Hne].
    + rewrite Hq. cbn. by rewrite !app_nil_r.
    + cbn. by rewrite !app_nil_r.
  - eexists. split; [reflexivity|]. split; [intros Hw; by apply Hend in Hw|].
    split; [by eexists|].
    intros c' [= <-]. exists out.
    split; [done|]. split; [exact H2|]. split; [done|]. split; [exact H4|].
    intros t. rewrite (H5 t). unfold queue at 2. cbn [trackBuffer].
    destruct (decide (m_trackid mediaPart = t)) as [<-|Hne'].
    + rewrite lookup_insert_eq, lookup_touch. cbn. fold (queue (m_trackid mediaPart) c1).
      by rewrite app_assoc.
    + rewrite lookup_insert_ne, lookup_touch by done. fold (queue t c1).
      by rewrite app_nil_r.
Qed.

End mp4_interleaver.

(** The first packet of a stream whose first key part takes two packets
    of track 1. *)
Lemma parseDTSC_writes_in_key_order_witness :
  exists r,
    MP4.parseDTSC (MP4.mkMediaPart 1 (lit "abc"))
      (MP4.first_call [MP4.mkKeyPart 1 1000 0 40 [] 2; MP4.mkKeyPart 2 200 10 23 [] 1])
    = Some r
    /\ (MP4.to_write
          (MP4.first_call [MP4.mkKeyPart 1 1000 0 40 [] 2; MP4.mkKeyPart 2 200 10 23 [] 1])
        = [] -> r = HTTP.Undefined)
    /\ (forall kp,
          MP4.c_keyParts
            (MP4.first_call [MP4.mkKeyPart 1 1000 0 40 [] 2; MP4.mkKeyPart 2 200 10 23 [] 1])
          !! MP4.curKey
               (MP4.first_call [MP4.mkKeyPart 1 1000 0 40 [] 2; MP4.mkKeyPart 2 200 10 23 [] 1])
          = Some kp ->
          MP4.queue (MP4.trackID kp)
            (MP4.first_call [MP4.mkKeyPart 1 1000 0 40 [] 2; MP4.mkKeyPart 2 200 10 23 [] 1])
          = [] ->
          exists c', r = HTTP.Defined c')
    /\ forall c', r = HTTP.Defined c' ->
         exists out : list (Z * MP4.MediaPart),
           MP4.c_keyParts c'
           = MP4.c_keyParts
               (MP4.first_call [MP4.mkKeyPart 1 1000 0 40 [] 2; MP4.mkKeyPart 2 200 10 23 [] 1])
           /\ MP4.counters_ok c'
           /\ MP4.stringBuffer c'
              = MP4.stringBuffer
                  (MP4.first_call
                     [MP4.mkKeyPart 1 1000 0 40 [] 2; MP4.mkKeyPart 2 200 10 23 [] 1])
                ++ concat (map (fun e => MP4.m_data (snd e)) out)
           /\ MP4.to_write
                (MP4.first_call [MP4.mkKeyPart 1 1000 0 40 [] 2; MP4.mkKeyPart 2 200 10 23 [] 1])
              = map fst out ++ MP4.to_write c'
           /\ forall t,
                MP4.queue t
                  (MP4.first_call
                     [MP4.mkKeyPart 1 1000 0 40 [] 2; MP4.mkKeyPart 2 200 10 23 [] 1])
                ++ (if decide (MP4.m_trackid (MP4.mkMediaPart 1 (lit "abc")) = t)
                    then [MP4.mkMediaPart 1 (lit "abc")] else [])
                = map snd (filter (fun e => fst e = t) out) ++ MP4.queue t c'.
Proof.
  apply (parseDTSC_writes_in_key_order (MP4.mkMediaPart 1 (lit "abc"))
           (MP4.first_call [MP4.mkKeyPart 1 1000 0 40 [] 2; MP4.mkKeyPart 2 200 10 23 [] 1])).
  split; [simpl; lia|]. left. reflexivity.
Defined.
